(** * A-share daily K-line acquisition pipeline: a shallow embedding

    The development follows [fetch_a_stock_kline.py] function by function
    (retry wrapper, adjustment factor resolver, bar fetcher, persistence,
    incremental scheduling, orchestrator loop) and the part of
    [verify_data_5m.py] that locates and opens a per-symbol table.

    Effects are explicit: every operation is a function of a [world] that
    holds the parquet files on disk, the log of remote requests issued so
    far, the lines printed on standard output and the durations slept.
    Python exceptions are the [Raise] outcome of the monad [M].  Prices are
    IEEE binary64 numbers (Rocq's primitive floats), dates are calendar
    days. *)

From Stdlib Require Import ZArith QArith List String Ascii Lia.
From Stdlib Require Import DecimalString Floats.PrimFloat Permutation Sorted.
From stdpp Require Import gmap strings.

Local Open Scope string_scope.
Local Open Scope list_scope.
Local Open Scope Z_scope.

(* ================================================================== *)
(** ** Configuration (module level constants) *)

Definition DATA_DIR : string := "data".
Definition KLINE_DIR : string := "data/kline_daily".
Definition STOCK_LIST_FILE : string := "data/stock_list.parquet".
Definition DEFAULT_START_DATE : string := "19910101".
Definition MAX_RETRIES : nat := 3.
(** Seconds are exact rationals; [0.5] is [1/2]. *)
Definition REQUEST_DELAY : Q := 1 # 2.

(* ================================================================== *)
(** ** Python values used by the script *)

(** An exception: its class and its [str(e)]. *)
Inductive exn : Type :=
| Exn (cls : string) (msg : string).

Definition str_of_exn (e : exn) : string :=
  match e with Exn _ msg => msg end.

Definition ValueError (msg : string) : exn := Exn "ValueError" msg.
Definition OverflowError (msg : string) : exn := Exn "OverflowError" msg.
Definition ArrowInvalid (msg : string) : exn := Exn "ArrowInvalid" msg.

(** [str(n)] for a non negative integer. *)
Definition str_of_nat (n : nat) : string :=
  NilZero.string_of_uint (Nat.to_uint n).

(** Python compares strings by code point; on UTF-8 bytes that is the
    byte-wise lexicographic order. *)
Definition str_gt (a b : string) : bool :=
  match String.compare a b with Gt => true | _ => false end.

(** [posixpath.join(a, b)] for two components. *)
Definition starts_with_slash (s : string) : bool :=
  match s with String "/" _ => true | _ => false end.

Fixpoint ends_with_slash (s : string) : bool :=
  match s with
  | EmptyString => false
  | String c EmptyString => Ascii.eqb c "/"
  | String _ rest => ends_with_slash rest
  end.

Definition os_path_join (a b : string) : string :=
  if starts_with_slash b then b
  else if String.eqb a "" || ends_with_slash a then a +:+ b
  else a +:+ "/" +:+ b.

(* ------------------------------------------------------------------ *)
(** *** Calendar days *)

(** A [pandas.Timestamp] / [datetime] at day granularity. *)
Record Timestamp : Type := mkTimestamp {
  ts_year : Z;
  ts_month : Z;
  ts_day : Z
}.

Definition ts_compare (a b : Timestamp) : comparison :=
  match ts_year a ?= ts_year b with
  | Eq => match ts_month a ?= ts_month b with
          | Eq => ts_day a ?= ts_day b
          | c => c
          end
  | c => c
  end.

Definition ts_eqb (a b : Timestamp) : bool :=
  match ts_compare a b with Eq => true | _ => false end.
Definition ts_leb (a b : Timestamp) : bool :=
  match ts_compare a b with Gt => false | _ => true end.
Definition ts_ltb (a b : Timestamp) : bool :=
  match ts_compare a b with Lt => true | _ => false end.

Definition is_leap (y : Z) : bool :=
  (y mod 4 =? 0) && (negb (y mod 100 =? 0) || (y mod 400 =? 0)).

Definition days_in_month (y m : Z) : Z :=
  if m =? 2 then (if is_leap y then 29 else 28)
  else if (m =? 4) || (m =? 6) || (m =? 9) || (m =? 11) then 30
  else 31.

(** The dates [datetime] can hold and [%Y] prints on four digits. *)
Definition timestamp_ok (t : Timestamp) : Prop :=
  1000 <= ts_year t <= 9999 /\ 1 <= ts_month t <= 12 /\
  1 <= ts_day t <= days_in_month (ts_year t) (ts_month t).

Definition digit_char (d : Z) : ascii := ascii_of_nat (48 + Z.to_nat d).

(** [n] in decimal on [width] digits, zero padded. *)
Fixpoint zero_padded (width : nat) (n : Z) : string :=
  match width with
  | O => ""
  | S k => zero_padded k (n / 10) +:+ String (digit_char (n mod 10)) ""
  end.

(** [t.strftime('%Y%m%d')]. *)
Definition strftime (t : Timestamp) : string :=
  zero_padded 4 (ts_year t) +:+ zero_padded 2 (ts_month t)
    +:+ zero_padded 2 (ts_day t).

Definition digit_value (c : ascii) : option Z :=
  let n := nat_of_ascii c in
  if (48 <=? n)%nat && (n <=? 57)%nat then Some (Z.of_nat n - 48) else None.

Fixpoint parse_digits_from (acc : Z) (s : string) : option Z :=
  match s with
  | EmptyString => Some acc
  | String c rest =>
      match digit_value c with
      | Some d => parse_digits_from (acc * 10 + d) rest
      | None => None
      end
  end.

(** [datetime.strptime(s, '%Y%m%d')] on the eight digit form, which is the
    only form [check_existing_data] hands over; any other text is refused
    with the [ValueError] of the library. *)
Definition strptime (s : string) : exn + Timestamp :=
  let bad := ValueError ("time data '" +:+ s +:+ "' does not match format '%Y%m%d'") in
  if (String.length s =? 8)%nat then
    match parse_digits_from 0 (substring 0 4 s),
          parse_digits_from 0 (substring 4 2 s),
          parse_digits_from 0 (substring 6 2 s) with
    | Some y, Some m, Some d =>
        if (1 <=? y) && (1 <=? m) && (m <=? 12) && (1 <=? d)
           && (d <=? days_in_month y m)
        then inr (mkTimestamp y m d)
        else inl bad
    | _, _, _ => inl bad
    end
  else inl bad.

(** [t + timedelta(days=1)]; [datetime] stops at year 9999. *)
Definition plus_one_day (t : Timestamp) : exn + Timestamp :=
  let y := ts_year t in
  let m := ts_month t in
  let d := ts_day t in
  if d <? days_in_month y m then inr (mkTimestamp y m (d + 1))
  else if m <? 12 then inr (mkTimestamp y (m + 1) 1)
  else if y <? 9999 then inr (mkTimestamp (y + 1) 1 1)
  else inl (OverflowError "date value out of range").

(* ------------------------------------------------------------------ *)
(** *** Tables *)

(** A row of the provider's answer ([日期], [开盘], [最高], [最低], [收盘],
    [成交量], [成交额]). *)
Record hist_row : Type := mkHist {
  h_date : Timestamp;
  h_open : float;
  h_high : float;
  h_low : float;
  h_close : float;
  h_volume : float;
  h_amount : float
}.

(** A row of the adjustment factor table (['date'], ['adj_factor']). *)
Record adj_row : Type := mkAdj {
  a_date : Timestamp;
  a_factor : float
}.

(** A row of the persisted instrument table, columns in their final order. *)
Record bar : Type := mkBar {
  date : Timestamp;
  symbol_of : string;
  open : float;
  high : float;
  low : float;
  close : float;
  volume : float;
  amount : float;
  adj_factor : float
}.

Definition FINAL_COLUMNS : list string :=
  ["date"; "symbol"; "open"; "high"; "low"; "close"; "volume"; "amount";
   "adj_factor"].

(** What lies at a path of the parquet store: a readable table, or bytes
    that [pd.read_parquet] refuses. *)
Inductive file : Type :=
| Parquet (rows : list bar)
| Corrupt.

(* ================================================================== *)
(** ** The world and the monad of effects *)

(** One remote query [ak.stock_zh_a_hist(symbol, "daily", start, end, adjust)]. *)
Record request : Type := mkRequest {
  rq_symbol : string;
  rq_start : string;
  rq_end : string;
  rq_adjust : string
}.

Record world : Type := mkWorld {
  files : gmap string file;
  requests : list request;
  stdout : list string;
  slept : list Q
}.

Inductive res (A : Type) : Type :=
| Raise (e : exn)
| Return (a : A).
Arguments Raise {A} e.
Arguments Return {A} a.

Definition M (A : Type) : Type := world -> res A * world.

Definition ret {A} (a : A) : M A := fun w => (Return a, w).
Definition raise {A} (e : exn) : M A := fun w => (Raise e, w).
Definition bind {A B} (m : M A) (k : A -> M B) : M B :=
  fun w => match m w with
           | (Raise e, w') => (Raise e, w')
           | (Return a, w') => k a w'
           end.

Notation "'let*' x ':=' m 'in' k" := (bind m (fun x => k))
  (at level 10, x name, m at level 100, k at level 200).
Notation "'do' m 'then' k" := (bind m (fun _ => k))
  (at level 10, m at level 100, k at level 200).

(** [try: body  except Exception as e: handler e]. *)
Definition try_except {A} (body : M A) (handler : exn -> M A) : M A :=
  fun w => match body w with
           | (Raise e, w') => handler e w'
           | (Return a, w') => (Return a, w')
           end.

Definition lift_sum {A} (r : exn + A) : M A :=
  match r with inl e => raise e | inr a => ret a end.

Definition with_line (line : string) (w : world) : world :=
  mkWorld (files w) (requests w) (stdout w ++ [line]) (slept w).

Definition print (line : string) : M unit :=
  fun w => (Return tt, with_line line w).

(** [time.sleep(secs)]: a negative length is a [ValueError]. *)
Definition time_sleep (secs : Q) : M unit :=
  fun w =>
    if Qle_bool 0 secs
    then (Return tt,
          mkWorld (files w) (requests w) (stdout w) (slept w ++ [secs]))
    else (Raise (ValueError "sleep length must be non-negative"), w).

Definition os_path_exists (path : string) : M bool :=
  fun w => (Return (bool_decide (is_Some (files w !! path))), w).

Definition read_parquet (path : string) : M (list bar) :=
  fun w => match files w !! path with
           | Some (Parquet rows) => (Return rows, w)
           | Some Corrupt =>
               (Raise (ArrowInvalid "Parquet magic bytes not found in footer"), w)
           | None => (Raise (Exn "FileNotFoundError" path), w)
           end.

Definition to_parquet (path : string) (rows : list bar) : M unit :=
  fun w => (Return tt,
            mkWorld (<[path := Parquet rows]> (files w)) (requests w)
                    (stdout w) (slept w)).

(* ================================================================== *)
(** ** Retry wrapper *)

Definition retry_line (attempt max_retries : nat) (e : exn) : string :=
  "  尝试 " +:+ str_of_nat (attempt + 1) +:+ "/" +:+ str_of_nat max_retries
    +:+ " 失败: " +:+ str_of_exn e +:+ ", 重试中...".

(** The body of [wrapper]: the iterations of [for attempt in range(max_retries)]
    that are still to run.  A [return] inside the [try] leaves the loop; the
    handler either re-raises or falls through to the next iteration. *)
Fixpoint retry_attempts {A} (func : M A) (max_retries : nat) (delay : Q)
    (range : list nat) : M (option A) :=
  match range with
  | [] => ret None
  | attempt :: range' =>
      try_except
        (let* result := func in
         do time_sleep delay then
         ret (Some result))
        (fun e =>
           if (attempt =? max_retries - 1)%nat then raise e
           else
             do print (retry_line attempt max_retries e) then
             do time_sleep (delay * inject_Z (Z.of_nat (attempt + 1))) then
             retry_attempts func max_retries delay range')
  end.

(** [retry_on_error(func, max_retries, delay)()]: [None] is Python's [None]
    returned when the loop runs out, [Some r] the result of [func]. *)
Definition retry_on_error {A} (func : M A) (max_retries : nat) (delay : Q)
    : M (option A) :=
  retry_attempts func max_retries delay (seq 0 max_retries).

(** The decorator form [@retry_on_error] takes the default arguments. *)
Definition retry_on_error_default {A} (func : M A) : M (option A) :=
  retry_on_error func MAX_RETRIES REQUEST_DELAY.

(* ================================================================== *)
(** ** Remote source *)

(** The provider is outside the program: its answer to the [k]-th query
    issued since the start of the run is [ak k rq], an exception, [None]
    or a table. *)
Definition provider : Type := nat -> request -> exn + option (list hist_row).

(** [df is None or df.empty]. *)
Definition none_or_empty {A} (df : option (list A)) : bool :=
  match df with
  | None => true
  | Some [] => true
  | Some (_ :: _) => false
  end.

(** A Python result that is either [None] or a value which may itself be
    [None]: both [None]s are the same object. *)
Definition flatten_none {A} (r : option (option A)) : option A :=
  match r with
  | Some (Some a) => Some a
  | _ => None
  end.

Definition shape_text (n : nat) : string := "(" +:+ str_of_nat n +:+ ",)".

(** [a / b] on one dimensional float arrays: elementwise on equal lengths,
    a length one operand is broadcast, any other pair of shapes is refused. *)
Definition numpy_divide (a b : list float) : exn + list float :=
  if (length a =? length b)%nat then inr (zip_with PrimFloat.div a b)
  else
    match a, b with
    | [x], _ => inr (map (fun y => PrimFloat.div x y) b)
    | _, [y] => inr (map (fun x => PrimFloat.div x y) a)
    | _, _ =>
        inl (ValueError
               ("operands could not be broadcast together with shapes "
                  +:+ shape_text (length a) +:+ " "
                  +:+ shape_text (length b) +:+ " "))
    end.

(** [pd.DataFrame({'date': <Series>, 'adj_factor': <ndarray>})]: the index
    comes from the series and the array must have its length. *)
Definition adj_DataFrame (dates : list Timestamp) (factors : list float)
    : exn + list adj_row :=
  if (length factors =? length dates)%nat
  then inr (zip_with mkAdj dates factors)
  else inl (ValueError
              ("array length " +:+ str_of_nat (length factors)
                 +:+ " does not match index length "
                 +:+ str_of_nat (length dates))).

(** [df_kline.merge(df_adj[['date', 'adj_factor']], on='date', how='left')]:
    the rows of the left table in their order, each once per matching right
    row, or once with a missing factor when nothing matches. *)
Definition left_merge_adj (df_kline : list hist_row) (df_adj : list adj_row)
    : list (hist_row * float) :=
  flat_map
    (fun k =>
       match List.filter (fun a => ts_eqb (a_date a) (h_date k)) df_adj with
       | [] => [(k, nan)]
       | matches => map (fun a => (k, a_factor a)) matches
       end)
    df_kline.

(** [Series.ffill()]: a missing value takes the last value seen before it. *)
Fixpoint ffill_from (last : float) (col : list float) : list float :=
  match col with
  | [] => []
  | x :: rest =>
      let v := if is_nan x then last else x in
      v :: ffill_from v rest
  end.

Definition ffill (col : list float) : list float := ffill_from nan col.

(** [Series.fillna(v)]. *)
Definition fillna (v : float) (col : list float) : list float :=
  map (fun x => if is_nan x then v else x) col.

(** Lines 157 to 174 of [fetch_kline_daily]: rename, merge, fill, attach the
    symbol, select the final columns. *)
Definition attach_adj_factor (symbol : string) (df_kline : list hist_row)
    (df_adj : list adj_row) : list bar :=
  let df_result := left_merge_adj df_kline df_adj in
  let filled := fillna 1%float (ffill (map snd df_result)) in
  zip_with
    (fun (kf : hist_row * float) (f : float) =>
       let k := fst kf in
       mkBar (h_date k) symbol (h_open k) (h_high k) (h_low k) (h_close k)
             (h_volume k) (h_amount k) f)
    df_result filled.

(** [drop_duplicates(subset=['date'], keep='last')]. *)
Fixpoint drop_duplicates_last (rows : list bar) : list bar :=
  match rows with
  | [] => []
  | r :: rest =>
      if existsb (fun r' => ts_eqb (date r') (date r)) rest
      then drop_duplicates_last rest
      else r :: drop_duplicates_last rest
  end.

(** [sort_values('date')], ascending.  It is only ever applied after
    [drop_duplicates_last], when no two rows share a date, so the order
    among equal dates (which pandas' default sort leaves unspecified) never
    shows. *)
Fixpoint insert_by_date (r : bar) (sorted : list bar) : list bar :=
  match sorted with
  | [] => [r]
  | h :: rest =>
      if ts_leb (date r) (date h) then r :: sorted
      else h :: insert_by_date r rest
  end.

Fixpoint sort_values (rows : list bar) : list bar :=
  match rows with
  | [] => []
  | r :: rest => insert_by_date r (sort_values rest)
  end.

(** [series.max()] on a non empty column. *)
Definition ts_max (a b : Timestamp) : Timestamp :=
  if ts_leb a b then b else a.

Definition max_date (first : bar) (rest : list bar) : Timestamp :=
  fold_left ts_max (map date rest) (date first).

(* ================================================================== *)
(** ** Orchestrator state *)

Record Args : Type := mkArgs {
  start_date : string;
  end_date : string;
  update : bool
}.

Record stats : Type := mkStats {
  success_count : nat;
  failed_stocks : list (string * string * string)
}.

Definition count_success (st : stats) : stats :=
  mkStats (success_count st + 1) (failed_stocks st).

Definition record_failure (st : stats) (entry : string * string * string)
    : stats :=
  mkStats (success_count st) (failed_stocks st ++ [entry])%list.

(** The four lines the loop prints, one per instrument. *)
Definition line_prefix (symbol name : string) : string :=
  "[" +:+ symbol +:+ "] " +:+ name +:+ " - ".
Definition skipped_line (symbol name : string) : string :=
  line_prefix symbol name +:+ "数据已是最新，跳过".
Definition no_data_line (symbol name : string) : string :=
  line_prefix symbol name +:+ "无数据".
Definition success_line (symbol name : string) (n : nat) : string :=
  line_prefix symbol name +:+ "成功 (" +:+ str_of_nat n +:+ " 条记录)".
Definition failed_line (symbol name text : string) : string :=
  line_prefix symbol name +:+ "失败: " +:+ text.

(** The lines of the final report (lines 320 to 338). *)
Definition newline : string := String "010" "".

Definition rule : string :=
  "============================================================".

Definition failure_entry_line (entry : string * string * string) : string :=
  "  [" +:+ fst (fst entry) +:+ "] " +:+ snd (fst entry) +:+ " - "
    +:+ snd entry.

Definition report_lines (total_stocks : nat) (st : stats) : list string :=
  [newline +:+ rule; "下载完成报告"; rule;
   "总股票数: " +:+ str_of_nat total_stocks;
   "成功: " +:+ str_of_nat (success_count st);
   "失败: " +:+ str_of_nat (length (failed_stocks st))]
  ++ (match failed_stocks st with
      | [] => []
      | _ :: _ =>
          [newline +:+ "失败股票列表:"]
          ++ map failure_entry_line (firstn 10 (failed_stocks st))
          ++ (if (10 <? length (failed_stocks st))%nat
              then ["  ... 还有 "
                      +:+ str_of_nat (length (failed_stocks st) - 10)
                      +:+ " 只股票失败"]
              else [])
      end)
  ++ [newline +:+ "数据保存位置:";
      "  股票列表: " +:+ STOCK_LIST_FILE;
      "  K线数据: " +:+ KLINE_DIR +:+ "/";
      rule].

Fixpoint print_all (lines : list string) : M unit :=
  match lines with
  | [] => ret tt
  | line :: rest => do print line then print_all rest
  end.

Section Pipeline.

Variable ak : provider.

(** [ak.stock_zh_a_hist(symbol=..., period="daily", start_date=...,
    end_date=..., adjust=...)]: one round trip, logged. *)
Definition stock_zh_a_hist (symbol start_date end_date adjust : string)
    : M (option (list hist_row)) :=
  fun w =>
    let rq := mkRequest symbol start_date end_date adjust in
    let w' := mkWorld (files w) (requests w ++ [rq]) (stdout w) (slept w) in
    match ak (length (requests w)) rq with
    | inl e => (Raise e, w')
    | inr df => (Return df, w')
    end.

(* ------------------------------------------------------------------ *)
(** ** Adjustment factor resolver *)

(** The inner [fetch] of [fetch_adj_factor]. *)
Definition fetch_adj_factor_inner (symbol start_date end_date : string)
    : M (option (list adj_row)) :=
  let* df_qfq := stock_zh_a_hist symbol start_date end_date "qfq" in
  let* df_raw := stock_zh_a_hist symbol start_date end_date "" in
  if none_or_empty df_qfq || none_or_empty df_raw then ret None
  else
    let df_qfq := default [] df_qfq in
    let df_raw := default [] df_raw in
    let* factors :=
      lift_sum (numpy_divide (map h_close df_qfq) (map h_close df_raw)) in
    let* df_adj := lift_sum (adj_DataFrame (map h_date df_raw) factors) in
    ret (Some df_adj).

Definition fetch_adj_factor (symbol start_date end_date : string)
    : M (option (list adj_row)) :=
  let* r :=
    retry_on_error_default (fetch_adj_factor_inner symbol start_date end_date) in
  ret (flatten_none r).

(* ------------------------------------------------------------------ *)
(** ** Bar fetcher *)

Definition fetch_kline_daily (symbol start_date end_date : string)
    : M (option (list bar)) :=
  let* df_kline :=
    retry_on_error_default (stock_zh_a_hist symbol start_date end_date "") in
  let df_kline := flatten_none df_kline in
  if none_or_empty df_kline then ret None
  else
    let df_kline := default [] df_kline in
    let* df_adj := fetch_adj_factor symbol start_date end_date in
    let* df_adj :=
      (if none_or_empty df_adj then
         do print "  警告: 无法获取复权因子，使用默认值1.0" then
         ret (map (fun k => mkAdj (h_date k) 1%float) df_kline)
       else ret (default [] df_adj)) in
    ret (Some (attach_adj_factor symbol df_kline df_adj)).

(* ------------------------------------------------------------------ *)
(** ** Persistence manager *)

Definition kline_path (symbol : string) : string :=
  os_path_join KLINE_DIR (symbol +:+ ".parquet").

Definition save_to_parquet (df : list bar) (symbol : string) (mode : string)
    : M unit :=
  let file_path := kline_path symbol in
  let* exists_ := os_path_exists file_path in
  if String.eqb mode "append" && exists_ then
    let* df_existing := read_parquet file_path in
    let df_combined := (df_existing ++ df)%list in
    let df_combined := drop_duplicates_last df_combined in
    let df_combined := sort_values df_combined in
    to_parquet file_path df_combined
  else
    to_parquet file_path df.

Definition check_existing_data (symbol : string) : M (option string) :=
  let file_path := kline_path symbol in
  let* exists_ := os_path_exists file_path in
  if negb exists_ then ret None
  else
    try_except
      (let* df := read_parquet file_path in
       match df with
       | [] => ret None
       | first :: rest => ret (Some (strftime (max_date first rest)))
       end)
      (fun _ => ret None).

(* ------------------------------------------------------------------ *)
(** ** Orchestrator loop *)

(** The incremental part of the loop body (lines 289 to 299): [Some s] is
    the start date to fetch from, [None] is the [continue] taken when the
    instrument is already current. *)
Definition resolve_start (args : Args) (symbol name : string)
    : M (option string) :=
  if update args then
    let* latest_date := check_existing_data symbol in
    match latest_date with
    | Some latest_date =>
        if String.eqb latest_date "" then ret (Some (start_date args))
        else
          let* parsed := lift_sum (strptime latest_date) in
          let* next := lift_sum (plus_one_day parsed) in
          let start_date := strftime next in
          if str_gt start_date (end_date args) then
            do print (skipped_line symbol name) then
            ret None
          else ret (Some start_date)
    | None => ret (Some (start_date args))
    end
  else ret (Some (start_date args)).

(** The [try] block of one iteration.  The handler of [process_stock] sees
    the counters as they were on entry: the only statement after a counter
    update that is still inside the [try] is a [print]. *)
Definition process_stock_try (args : Args) (st : stats) (symbol name : string)
    : M stats :=
  let* start := resolve_start args symbol name in
  match start with
  | None => ret (count_success st)
  | Some start_date =>
      let* df := fetch_kline_daily symbol start_date (end_date args) in
      if none_or_empty df then
        do print (no_data_line symbol name) then
        ret (record_failure st (symbol, name, "无数据"))
      else
        let df := default [] df in
        let save_mode := if update args then "append" else "overwrite" in
        do save_to_parquet df symbol save_mode then
        do print (success_line symbol name (length df)) then
        ret (count_success st)
  end.

Definition process_stock (args : Args) (st : stats) (row : string * string)
    : M stats :=
  let symbol := fst row in
  let name := snd row in
  try_except
    (process_stock_try args st symbol name)
    (fun e =>
       do print (failed_line symbol name (str_of_exn e)) then
       ret (record_failure st (symbol, name, str_of_exn e))).

(** [for idx, row in stock_list.iterrows(): ...]. *)
Fixpoint main_loop (args : Args) (stock_list : list (string * string))
    (st : stats) : M stats :=
  match stock_list with
  | [] => ret st
  | row :: rest =>
      let* st' := process_stock args st row in
      main_loop args rest st'
  end.

(** [main] from the initialisation of the statistics (line 274) on: the
    loop, then the report.  What comes before (options, directories, the
    universe list) is set up outside. *)
Definition main_run (args : Args) (stock_list : list (string * string))
    : M stats :=
  let total_stocks := length stock_list in
  let* st := main_loop args stock_list (mkStats 0 []) in
  do print_all (report_lines total_stocks st) then
  ret st.

End Pipeline.

(* ================================================================== *)
(** ** The validator script, [verify_data_5m.py] *)

Module verify_data_5m.

Definition DATA_DIR : string := "data".
Definition KLINE_DIR : string := "data/kline_5m".
Definition STOCK_LIST_FILE : string := "data/stock_list.parquet".

Definition kline_path (symbol : string) : string :=
  os_path_join KLINE_DIR (symbol +:+ ".parquet").

(** The columns of a table read back from the store are those of [bar]. *)
Definition columns_of (df : list bar) : list string := FINAL_COLUMNS.

(** [df[col]]: a [KeyError] when the table has no such column. *)
Definition getitem (df : list bar) (col : string) : M unit :=
  if existsb (String.eqb col) (columns_of df) then ret tt
  else raise (Exn "KeyError" ("'" +:+ col +:+ "'")).

Definition invalid_price (r : bar) : bool :=
  PrimFloat.ltb (high r) (low r) || PrimFloat.ltb (high r) (open r)
  || PrimFloat.ltb (high r) (close r) || PrimFloat.ltb (open r) (low r)
  || PrimFloat.ltb (close r) (low r).

Definition negative_volume (r : bar) : bool := PrimFloat.ltb (volume r) 0%float.

Definition invalid_adj (r : bar) : bool := PrimFloat.leb (adj_factor r) 0%float.

Definition count_rows (p : bar -> bool) (df : list bar) : nat :=
  length (List.filter p df).

(** [verify_kline_data(symbol)]; the lines that dump rows of the table are
    left out, the verdict lines are kept. *)
Definition verify_kline_data (symbol : string) : M bool :=
  do print ("验证股票 " +:+ symbol +:+ " 的K线数据") then
  let file_path := kline_path symbol in
  let* exists_ := os_path_exists file_path in
  if negb exists_ then
    do print ("错误: 数据文件不存在: " +:+ file_path) then
    ret false
  else
    try_except
      (let* df := read_parquet file_path in
       do print ("数据行数: " +:+ str_of_nat (length df)) then
       do getitem df "datetime" then
       do getitem df "high" then
       do getitem df "low" then
       do getitem df "open" then
       do getitem df "close" then
       do (if (0 <? count_rows invalid_price df)%nat then
             print ("警告: 发现 " +:+ str_of_nat (count_rows invalid_price df)
                      +:+ " 条价格数据不合理的记录")
           else print "✓ 价格数据合理性检查通过") then
       do getitem df "volume" then
       do (if (0 <? count_rows negative_volume df)%nat then
             print ("警告: 发现 " +:+ str_of_nat (count_rows negative_volume df)
                      +:+ " 条负成交量记录")
           else print "✓ 成交量检查通过（无负值）") then
       do (if existsb (String.eqb "adj_factor") (columns_of df) then
             if (0 <? count_rows invalid_adj df)%nat then
               print ("警告: 发现 " +:+ str_of_nat (count_rows invalid_adj df)
                        +:+ " 条复权因子 <= 0 的记录")
             else print "✓ 复权因子检查通过（全部 > 0）"
           else print "警告: 数据中没有复权因子字段") then
       ret true)
      (fun e =>
         do print ("错误: 无法读取或验证数据: " +:+ str_of_exn e) then
         ret false).

End verify_data_5m.

(* ================================================================== *)
(** ** Vocabulary of the properties *)

(** Dates strictly increasing, hence without duplicates. *)
Definition strictly_increasing (dates : list Timestamp) : Prop :=
  StronglySorted (fun a b => ts_ltb a b = true) dates.

Definition has_date (d : Timestamp) (rows : list bar) : bool :=
  existsb (fun r' => ts_eqb (date r') d) rows.

(** The world after the handler of a failed attempt that is not the last:
    one line printed, then a pause of [delay] times the attempt number. *)
Definition backoff (max_retries : nat) (delay : Q) (attempt : nat) (e : exn)
    (w : world) : world :=
  mkWorld (files w) (requests w)
          (stdout w ++ [retry_line attempt max_retries e])
          (slept w ++ [(delay * inject_Z (Z.of_nat (attempt + 1)))%Q]).

(** The world after the pause that follows a successful call. *)
Definition pause (delay : Q) (w : world) : world :=
  mkWorld (files w) (requests w) (stdout w) (slept w ++ [delay]).

(** [failed_attempts func max_retries delay attempt w k w']: from world [w],
    the attempts numbered [attempt], ..., [attempt + k - 1] (counted from 0)
    all fail, each is followed by its backoff, and the world is then [w']. *)
Inductive failed_attempts {A} (func : M A) (max_retries : nat) (delay : Q)
    : nat -> world -> nat -> world -> Prop :=
| failed_none attempt w :
    failed_attempts func max_retries delay attempt w 0 w
| failed_next attempt w e w1 k w2 :
    func w = (Raise e, w1) ->
    failed_attempts func max_retries delay (S attempt)
                    (backoff max_retries delay attempt e w1) k w2 ->
    failed_attempts func max_retries delay attempt w (S k) w2.

(** Lines printed below the loop body start with two spaces. *)
Definition indented (line : string) : bool := String.prefix "  " line.

(** A step that leaves the parquet store alone and prints indented lines
    only. *)
Record quiet_step (w w' : world) : Prop := mkQuiet {
  quiet_files : files w' = files w;
  quiet_stdout :
    exists inner, stdout w' = stdout w ++ inner
                  /\ Forall (fun l => indented l = true) inner;
  quiet_requests : exists more, requests w' = requests w ++ more
}.

Definition quiet {A} (m : M A) : Prop := forall w, quiet_step w (snd (m w)).

(** The lines of a log that are not indented: those of the loop body. *)
Definition outcome_lines (printed : list string) : list string :=
  List.filter (fun l => negb (indented l)) printed.

(** The pauses before the retries that follow [k] failed attempts. *)
Definition backoff_delays (delay : Q) (first_attempt k : nat) : list Q :=
  map (fun i => (delay * inject_Z (Z.of_nat (i + 1)))%Q) (seq first_attempt k).

(** The three kinds of line the loop prints for an instrument. *)
Definition success_outcome (symbol name line : string) : Prop :=
  exists n, line = success_line symbol name n.
Definition skipped_outcome (symbol name line : string) : Prop :=
  line = skipped_line symbol name.
Definition failed_outcome (symbol name line : string) : Prop :=
  line = no_data_line symbol name
  \/ exists text, line = failed_line symbol name text.

(** A success line that carries the number of rows of a non empty table
    fetched for the symbol from world [w]. *)
Definition success_with_rows (ak : provider) (args : Args)
    (symbol name : string) (w : world) (line : string) : Prop :=
  exists start df w2,
    fetch_kline_daily ak symbol start (end_date args) w
    = (Return (Some df), w2)
    /\ df <> []
    /\ line = success_line symbol name (length df).

(** A closing price the provider returns for the given adjustment mode. *)
Definition provider_close (ak : provider) (adjust : string) (x : float)
    : Prop :=
  exists k rq rows r,
    rq_adjust rq = adjust /\ ak k rq = inr (Some rows) /\ In r rows
    /\ h_close r = x.

(** [x] is missing ([NaN], what pandas calls null) or has the property. *)
Definition missing_or (P : float -> Prop) (x : float) : Prop :=
  is_nan x = true \/ P x.

(** A ratio of an adjusted close to a raw close that the provider makes
    possible. *)
Definition computed_ratio (ak : provider) (f : float) : Prop :=
  exists x y,
    provider_close ak "qfq" x /\ provider_close ak "" y
    /\ f = (x / y)%float.

(** No such ratio is zero, negative or minus infinity: it is missing or
    greater than zero. *)
Definition ratios_positive (ak : provider) : Prop :=
  forall f,
    computed_ratio ak f ->
    missing_or (fun f => PrimFloat.ltb 0%float f = true) f.

(** Every adjustment factor of every readable table of the store satisfies
    [P]. *)
Definition store_factors (P : float -> Prop) (fs : gmap string file) : Prop :=
  forall path rows,
    fs !! path = Some (Parquet rows) ->
    Forall (fun r => P (adj_factor r)) rows.

(* ================================================================== *)
(** ** Concrete inputs of the examples *)

Definition world0 : world := mkWorld ∅ [] [] [].
Definition stats0 : stats := mkStats 0 [].

Definition day1 : Timestamp := mkTimestamp 2024 1 2.
Definition day2 : Timestamp := mkTimestamp 2024 1 3.
Definition day3 : Timestamp := mkTimestamp 2024 1 4.

(** A provider row with all four prices equal to [price]. *)
Definition quote (d : Timestamp) (price : float) : hist_row :=
  mkHist d price price price price 100%float 1000%float.

Definition answers (adjusted raw : list hist_row) : provider :=
  fun _ rq =>
    if String.eqb (rq_adjust rq) "qfq" then inr (Some adjusted)
    else inr (Some raw).

Definition raw_three : list hist_row :=
  [quote day1 10%float; quote day2 10%float; quote day3 12%float].

(** Adjusted series with the middle day missing. *)
Definition ak_gap : provider :=
  answers [quote day1 5%float; quote day3 6%float] raw_three.

(** As many adjusted rows as raw rows, on other days. *)
Definition ak_shifted : provider :=
  answers [quote day1 5%float; quote day3 6%float]
          [quote day1 10%float; quote day2 10%float].

Definition ak_aligned : provider :=
  answers [quote day1 5%float; quote day2 5%float; quote day3 6%float]
          raw_three.

(** Forward adjusted closes below and at zero. *)
Definition ak_negative : provider :=
  answers [quote day1 5%float; quote day2 (-1)%float; quote day3 0%float]
          raw_three.

Definition args_full : Args := mkArgs "20240102" "20240104" false.
Definition args_update : Args := mkArgs "20240102" "20240104" true.

Definition plain_bar (d : Timestamp) : bar :=
  mkBar d "000001" 10%float 10%float 10%float 10%float 100%float
        1000%float 1%float.

(** An operation that fails twice, then answers: it reads the number of
    lines printed so far, which the wrapper's retry messages advance. *)
Definition flaky : M nat :=
  fun w =>
    if (length (stdout w) <? 2)%nat
    then (Raise (Exn "ConnectionError" "timed out"), w)
    else (Return 7%nat, w).

(** A store whose table for "000001" runs through 4 January 2024. *)
Definition world_through_day3 : world :=
  mkWorld (<[kline_path "000001" := Parquet [plain_bar day1; plain_bar day3]]> ∅)
          [] [] [].
(* ================================================================== *)
(** ** Vocabulary of the further properties *)

(** The row built from a provider row and a factor (lines 157 to 174). *)
Definition to_bar (symbol : string) (k : hist_row) (f : float) : bar :=
  mkBar (h_date k) symbol (h_open k) (h_high k) (h_low k) (h_close k)
        (h_volume k) (h_amount k) f.

(** How many rows of the factor table carry the date [d]. *)
Definition count_date (d : Timestamp) (df_adj : list adj_row) : nat :=
  length (List.filter (fun a => ts_eqb (a_date a) d) df_adj).

(** [r] occurs in [rows] with no row of the same date after it. *)
Definition is_last_with_date (r : bar) (rows : list bar) : Prop :=
  exists before after,
    rows = before ++ r :: after /\ has_date (date r) after = false.

(** The world after one more query to the provider. *)
Definition asked (rq : request) (w : world) : world :=
  mkWorld (files w) (requests w ++ [rq]) (stdout w) (slept w).

(** The factor table the resolver computes from two answers that are not
    empty (lines 107 to 113). *)
Definition resolve_factors (df_qfq df_raw : list hist_row)
    : exn + list adj_row :=
  match numpy_divide (map h_close df_qfq) (map h_close df_raw) with
  | inl e => inl e
  | inr factors => adj_DataFrame (map h_date df_raw) factors
  end.

(** A provider that answers the adjusted and the raw query of a symbol and
    range the same way at every call. *)
Definition steady (ak : provider) (symbol s e : string)
    (adjusted raw : option (list hist_row)) : Prop :=
  forall k,
    ak k (mkRequest symbol s e "qfq") = inr adjusted
    /\ ak k (mkRequest symbol s e "") = inr raw.

(** A provider whose adjusted query of a symbol and range always raises
    [err], the raw query being answered with [raw]. *)
Definition adjusted_down (ak : provider) (symbol s e : string) (err : exn)
    (raw : option (list hist_row)) : Prop :=
  forall k,
    ak k (mkRequest symbol s e "qfq") = inl err
    /\ ak k (mkRequest symbol s e "") = inr raw.

(** From [w] to [w'] at most [n] queries were sent to the provider, each of
    them satisfying [P]. *)
Definition asks (P : request -> Prop) (n : nat) (w w' : world) : Prop :=
  exists more,
    requests w' = requests w ++ more
    /\ (length more <= n)%nat
    /\ Forall P more.

Definition asking {A} (P : request -> Prop) (n : nat) (m : M A) : Prop :=
  forall w, asks P n w (snd (m w)).

(** The two queries the program sends for a symbol and a range. *)
Definition query_of (symbol s e : string) (rq : request) : Prop :=
  rq = mkRequest symbol s e "" \/ rq = mkRequest symbol s e "qfq".

(** The instrument a failure entry names. *)
Definition entry_row (entry : string * string * string) : string * string :=
  fst entry.

(** [DataFrame.head(n)]: the first [n] rows, and all rows but the last
    [-n] when [n] is negative. *)
Definition DataFrame_head {A} (n : Z) (rows : list A) : list A :=
  if (0 <=? n)%Z then firstn (Z.to_nat n) rows
  else firstn (length rows - Z.to_nat (- n)) rows.

(** Lines 270 and 271, [if args.limit: stock_list = stock_list.head(args.limit)]:
    an option that was not given and the number 0 are both false. *)
Definition limit_stock_list (limit : option Z)
    (stock_list : list (string * string)) : list (string * string) :=
  match limit with
  | None => stock_list
  | Some n => if (n =? 0)%Z then stock_list else DataFrame_head n stock_list
  end.

(** From [w] to [w'] the program paused at most [n] times, each time for
    more than no time and at most one second. *)
Definition pauses (n : nat) (w w' : world) : Prop :=
  exists more,
    slept w' = slept w ++ more
    /\ (length more <= n)%nat
    /\ Forall (fun secs => (0 < secs)%Q /\ (secs <= 1)%Q) more.

(* ------------------------------------------------------------------ *)
(** *** Further inputs of the examples *)

(** No adjusted series: the adjusted query is answered with [None]. *)
Definition ak_no_adjusted : provider :=
  fun _ rq =>
    if String.eqb (rq_adjust rq) "qfq" then inr None
    else inr (Some raw_three).

(** The adjusted query always times out. *)
Definition ak_adjusted_down : provider :=
  fun _ rq =>
    if String.eqb (rq_adjust rq) "qfq"
    then inl (Exn "ConnectionError" "timed out")
    else inr (Some raw_three).

(** Every query is answered with an empty table. *)
Definition ak_empty : provider := fun _ _ => inr (Some []).

(** One adjusted row for three raw rows. *)
Definition ak_one_adjusted : provider :=
  answers [quote day3 6%float] raw_three.

(** A store whose file for "000001" cannot be read. *)
Definition world_corrupt : world :=
  mkWorld (<[kline_path "000001" := Corrupt]> ∅) [] [] [].

(** A store whose table for "000001" has 2 and 3 January 2024. *)
Definition world_two_days : world :=
  mkWorld (<[kline_path "000001" := Parquet [plain_bar day1; plain_bar day2]]> ∅)
          [] [] [].

(* ================================================================== *)
(** * Properties *)


Section TimestampOrder.

Lemma ts_compare_eq a b : ts_compare a b = Eq <-> a = b.
Proof.
  destruct a as [ya ma da], b as [yb mb db]; unfold ts_compare; simpl.
  destruct (Z.compare_spec ya yb), (Z.compare_spec ma mb),
    (Z.compare_spec da db); subst;
    split; intros K; try discriminate; try reflexivity;
    try (injection K; lia); try (f_equal; lia).
Qed.

Lemma ts_compare_lt a b :
  ts_compare a b = Lt <->
  ts_year a < ts_year b \/
  (ts_year a = ts_year b /\
   (ts_month a < ts_month b \/
    (ts_month a = ts_month b /\ ts_day a < ts_day b))).
Proof.
  destruct a as [ya ma da], b as [yb mb db]; unfold ts_compare; simpl.
  destruct (Z.compare_spec ya yb), (Z.compare_spec ma mb),
    (Z.compare_spec da db); split; intros K; try discriminate;
    try reflexivity; lia.
Qed.

Lemma ts_compare_antisym a b : ts_compare b a = CompOpp (ts_compare a b).
Proof.
  destruct a as [ya ma da], b as [yb mb db]; unfold ts_compare; simpl.
  rewrite (Z.compare_antisym ya yb), (Z.compare_antisym ma mb),
    (Z.compare_antisym da db).
  destruct (ya ?= yb), (ma ?= mb), (da ?= db); reflexivity.
Qed.

Lemma ts_eqb_eq a b : ts_eqb a b = true <-> a = b.
Proof.
  unfold ts_eqb. rewrite <- ts_compare_eq.
  destruct (ts_compare a b); split; congruence.
Qed.

Lemma ts_eqb_refl a : ts_eqb a a = true.
Proof. now apply ts_eqb_eq. Qed.

Lemma ts_eqb_sym a b : ts_eqb a b = ts_eqb b a.
Proof.
  unfold ts_eqb. rewrite (ts_compare_antisym a b).
  destruct (ts_compare a b); reflexivity.
Qed.

Lemma ts_leb_false_ltb a b : ts_leb a b = false -> ts_ltb b a = true.
Proof.
  unfold ts_leb, ts_ltb. rewrite (ts_compare_antisym a b).
  destruct (ts_compare a b); simpl; congruence.
Qed.

Lemma ts_leb_true_cases a b : ts_leb a b = true -> a = b \/ ts_ltb a b = true.
Proof.
  unfold ts_leb, ts_ltb. destruct (ts_compare a b) eqn:E; try discriminate.
  - left. now apply ts_compare_eq.
  - now right.
Qed.

Lemma ts_ltb_trans a b c :
  ts_ltb a b = true -> ts_ltb b c = true -> ts_ltb a c = true.
Proof.
  unfold ts_ltb.
  destruct (ts_compare a b) eqn:E1; try discriminate.
  destruct (ts_compare b c) eqn:E2; try discriminate.
  intros _ _. apply ts_compare_lt in E1, E2.
  assert (H : ts_compare a c = Lt) by (apply ts_compare_lt; lia).
  now rewrite H.
Qed.

Lemma ts_ltb_irrefl a : ts_ltb a a = false.
Proof.
  unfold ts_ltb. now rewrite (proj2 (ts_compare_eq a a) eq_refl).
Qed.

Lemma ts_ltb_leb a b : ts_ltb a b = true -> ts_leb a b = true.
Proof. unfold ts_ltb, ts_leb. destruct (ts_compare a b); congruence. Qed.

Lemma ts_leb_antisym a b : ts_leb a b = true -> ts_leb b a = true -> a = b.
Proof.
  unfold ts_leb. rewrite (ts_compare_antisym a b).
  destruct (ts_compare a b) eqn:E; simpl; try discriminate.
  intros _ _. now apply ts_compare_eq.
Qed.

Lemma ts_leb_trans a b c :
  ts_leb a b = true -> ts_leb b c = true -> ts_leb a c = true.
Proof.
  intros H1 H2. apply ts_leb_true_cases in H1, H2.
  destruct H1 as [-> | H1], H2 as [-> | H2].
  - unfold ts_leb. now rewrite (proj2 (ts_compare_eq c c) eq_refl).
  - now apply ts_ltb_leb.
  - now apply ts_ltb_leb.
  - apply ts_ltb_leb. eapply ts_ltb_trans; eassumption.
Qed.

Lemma ts_leb_refl a : ts_leb a a = true.
Proof. unfold ts_leb. now rewrite (proj2 (ts_compare_eq a a) eq_refl). Qed.

End TimestampOrder.

Section Persistence.


Lemma has_date_In d rows : has_date d rows = true <-> In d (map date rows).
Proof.
  unfold has_date. rewrite existsb_exists, in_map_iff.
  split; intros [r [H1 H2]]; exists r.
  - apply ts_eqb_eq in H2. now split.
  - split; [assumption | now apply ts_eqb_eq].
Qed.

Lemma has_date_app d a b : has_date d (a ++ b) = has_date d a || has_date d b.
Proof. apply existsb_app. Qed.

Lemma drop_duplicates_last_dates d rows :
  In d (map date (drop_duplicates_last rows)) <-> In d (map date rows).
Proof.
  induction rows as [|r rest IH]; simpl; [tauto|].
  fold (has_date (date r) rest).
  destruct (has_date (date r) rest) eqn:E; simpl; rewrite IH.
  - apply has_date_In in E. split; [tauto|]. intros [<-|H]; assumption.
  - tauto.
Qed.

Lemma drop_duplicates_last_NoDup rows :
  List.NoDup (map date (drop_duplicates_last rows)).
Proof.
  induction rows as [|r rest IH]; simpl; [constructor|].
  fold (has_date (date r) rest).
  destruct (has_date (date r) rest) eqn:E; [assumption|].
  simpl. constructor; [|assumption].
  rewrite drop_duplicates_last_dates. intros H.
  apply has_date_In in H. congruence.
Qed.

Lemma drop_duplicates_last_id rows :
  List.NoDup (map date rows) -> drop_duplicates_last rows = rows.
Proof.
  induction rows as [|r rest IH]; simpl; [reflexivity|].
  intros H. inversion H as [|? ? Hnotin Hrest]; subst.
  fold (has_date (date r) rest).
  destruct (has_date (date r) rest) eqn:E.
  - apply has_date_In in E. contradiction.
  - now rewrite IH.
Qed.

Lemma drop_duplicates_last_app a b :
  drop_duplicates_last (a ++ b) =
  List.filter (fun r => negb (has_date (date r) b)) (drop_duplicates_last a)
    ++ drop_duplicates_last b.
Proof.
  induction a as [|r rest IH]; simpl; [reflexivity|].
  fold (has_date (date r) (rest ++ b)) (has_date (date r) rest).
  rewrite has_date_app.
  destruct (has_date (date r) rest) eqn:E1; simpl; [assumption|].
  destruct (has_date (date r) b) eqn:E2; simpl; [assumption|].
  now rewrite IH.
Qed.

Lemma insert_by_date_perm r s : Permutation (insert_by_date r s) (r :: s).
Proof.
  induction s as [|h rest IH]; simpl; [reflexivity|].
  destruct (ts_leb (date r) (date h)); [reflexivity|].
  rewrite IH. apply perm_swap.
Qed.

Lemma sort_values_perm rows : Permutation (sort_values rows) rows.
Proof.
  induction rows as [|r rest IH]; simpl; [reflexivity|].
  rewrite insert_by_date_perm. now constructor.
Qed.

Lemma insert_by_date_increasing r s :
  strictly_increasing (map date s) -> ~ In (date r) (map date s) ->
  strictly_increasing (map date (insert_by_date r s)).
Proof.
  unfold strictly_increasing.
  induction s as [|h rest IH]; simpl; intros Hs Hnotin.
  - repeat constructor.
  - inversion Hs as [|? ? Hrest Hall]; subst.
    destruct (ts_leb (date r) (date h)) eqn:E; simpl.
    + assert (Hlt : ts_ltb (date r) (date h) = true).
      { apply ts_leb_true_cases in E. destruct E as [E|E]; [|assumption].
        exfalso. apply Hnotin. now left. }
      constructor; [assumption|].
      constructor; [assumption|].
      eapply List.Forall_impl; [|exact Hall].
      intros d Hd. eapply ts_ltb_trans; eassumption.
    + constructor.
      * apply IH; [assumption|]. intros H. apply Hnotin. now right.
      * apply ts_leb_false_ltb in E.
        rewrite (Permutation_map date (insert_by_date_perm r rest)).
        simpl. constructor; assumption.
Qed.

Lemma sort_values_increasing rows :
  List.NoDup (map date rows) ->
  strictly_increasing (map date (sort_values rows)).
Proof.
  induction rows as [|r rest IH]; simpl; intros H.
  - constructor.
  - inversion H as [|? ? Hnotin Hrest]; subst.
    apply insert_by_date_increasing; [now apply IH|].
    intros Hin. apply Hnotin.
    eapply Permutation_in; [|exact Hin].
    apply Permutation_map, sort_values_perm.
Qed.

Lemma insert_by_date_comm x y s :
  date x <> date y ->
  insert_by_date x (insert_by_date y s) = insert_by_date y (insert_by_date x s).
Proof.
  intros Hne.
  assert (Hxy : ts_leb (date x) (date y) = true -> ts_leb (date y) (date x) = false).
  { intros H1. destruct (ts_leb (date y) (date x)) eqn:H2; [|reflexivity].
    exfalso. apply Hne. now apply ts_leb_antisym. }
  assert (Hyx : ts_leb (date x) (date y) = false -> ts_leb (date y) (date x) = true).
  { intros H1. apply ts_ltb_leb. now apply ts_leb_false_ltb. }
  induction s as [|h rest IH]; simpl.
  - destruct (ts_leb (date x) (date y)) eqn:E.
    + now rewrite (Hxy eq_refl).
    + now rewrite (Hyx eq_refl).
  - destruct (ts_leb (date y) (date h)) eqn:Ey,
             (ts_leb (date x) (date h)) eqn:Ex; simpl.
    + destruct (ts_leb (date x) (date y)) eqn:E.
      * rewrite (Hxy eq_refl). simpl. now rewrite Ey.
      * rewrite (Hyx eq_refl). simpl. now rewrite Ex.
    + assert (E : ts_leb (date x) (date y) = false).
      { destruct (ts_leb (date x) (date y)) eqn:E; [|reflexivity].
        rewrite (ts_leb_trans _ _ _ E Ey) in Ex. discriminate. }
      rewrite E, Ex, Ey. reflexivity.
    + assert (E : ts_leb (date y) (date x) = false).
      { destruct (ts_leb (date y) (date x)) eqn:E; [|reflexivity].
        rewrite (ts_leb_trans _ _ _ E Ex) in Ey. discriminate. }
      rewrite E, Ex, Ey. reflexivity.
    + rewrite Ex, Ey. now rewrite IH.
Qed.

Lemma sort_values_perm_eq rows rows' :
  Permutation rows rows' -> List.NoDup (map date rows) ->
  sort_values rows = sort_values rows'.
Proof.
  induction 1 as [|r l l' Hp IH|x y l|l l' l'' Hp1 IH1 Hp2 IH2];
    simpl; intros Hnd.
  - reflexivity.
  - inversion Hnd; subst. now rewrite IH.
  - inversion Hnd as [|? ? Hnotin _]; subst.
    apply insert_by_date_comm. intros E. apply Hnotin. left. congruence.
  - rewrite IH1 by assumption. apply IH2.
    eapply Permutation_NoDup; [|exact Hnd]. now apply Permutation_map.
Qed.

Lemma filter_has_date_all b rows :
  (forall r, In r rows -> has_date (date r) b = true) ->
  List.filter (fun r => negb (has_date (date r) b)) rows = [].
Proof.
  induction rows as [|r rest IH]; simpl; intros H; [reflexivity|].
  rewrite (H r) by now left. simpl. apply IH. intros; apply H. now right.
Qed.

Lemma filter_idem {A} (p : A -> bool) l :
  List.filter p (List.filter p l) = List.filter p l.
Proof.
  induction l as [|a l IH]; simpl; [reflexivity|].
  destruct (p a) eqn:E; simpl; rewrite ?E, IH; reflexivity.
Qed.

Lemma filter_perm {A} (p : A -> bool) l l' :
  Permutation l l' -> Permutation (List.filter p l) (List.filter p l').
Proof.
  induction 1; simpl.
  - constructor.
  - destruct (p x); [now constructor | assumption].
  - destruct (p x), (p y); try reflexivity. apply perm_swap.
  - etransitivity; eassumption.
Qed.

(** The merge of append mode, as a function of the two tables. *)
Lemma append_merge_idempotent existing df :
  let merged := sort_values (drop_duplicates_last (existing ++ df)) in
  sort_values (drop_duplicates_last (merged ++ df)) = merged.
Proof.
  intros merged.
  set (keep := fun r : bar => negb (has_date (date r) df)).
  set (X := List.filter keep (drop_duplicates_last existing)).
  assert (Hm : merged = sort_values (X ++ drop_duplicates_last df)).
  { unfold merged. now rewrite drop_duplicates_last_app. }
  assert (Hnd : List.NoDup (map date merged)).
  { unfold merged.
    eapply Permutation_NoDup;
      [ apply Permutation_map; symmetry; apply sort_values_perm |].
    apply drop_duplicates_last_NoDup. }
  assert (Heq : drop_duplicates_last (merged ++ df) =
                List.filter keep merged ++ drop_duplicates_last df).
  { rewrite drop_duplicates_last_app.
    now rewrite (drop_duplicates_last_id merged Hnd). }
  assert (Hnd2 : List.NoDup (map date (drop_duplicates_last (merged ++ df))))
    by apply drop_duplicates_last_NoDup.
  rewrite Heq in *.
  transitivity (sort_values (X ++ drop_duplicates_last df));
    [|now rewrite Hm].
  apply sort_values_perm_eq; [|assumption].
  apply Permutation_app_tail.
  rewrite Hm.
  rewrite (filter_perm keep _ _ (sort_values_perm _)).
  rewrite List.filter_app. unfold X at 1. rewrite filter_idem. fold X.
  assert (Hk : List.filter keep (drop_duplicates_last df) = []).
  { apply filter_has_date_all. intros r Hr. apply has_date_In.
    apply drop_duplicates_last_dates. now apply in_map. }
  rewrite Hk. now rewrite app_nil_r.
Qed.

End Persistence.

Section DateText.

Lemma digit_cases d :
  0 <= d <= 9 ->
  d = 0 \/ d = 1 \/ d = 2 \/ d = 3 \/ d = 4 \/ d = 5 \/ d = 6 \/ d = 7
  \/ d = 8 \/ d = 9.
Proof. lia. Qed.

Ltac each_digit H :=
  apply digit_cases in H;
  repeat (destruct H as [H | H]); subst.

Lemma digit_value_digit_char d :
  0 <= d <= 9 -> digit_value (digit_char d) = Some d.
Proof. intros H. each_digit H; reflexivity. Qed.

Lemma ascii_compare_digit_char x y :
  0 <= x <= 9 -> 0 <= y <= 9 ->
  Ascii.compare (digit_char x) (digit_char y) = (x ?= y).
Proof. intros Hx Hy. each_digit Hx; each_digit Hy; reflexivity. Qed.

Lemma mod10_digit n : 0 <= n mod 10 <= 9.
Proof. pose proof (Z.mod_pos_bound n 10). lia. Qed.

Lemma digits4_value y :
  0 <= y <= 9999 ->
  y = 1000 * (y / 10 / 10 / 10 mod 10) + 100 * (y / 10 / 10 mod 10)
      + 10 * (y / 10 mod 10) + y mod 10.
Proof. intros H. Z.div_mod_to_equations. lia. Qed.

Lemma digits2_value m :
  0 <= m <= 99 -> m = 10 * (m / 10 mod 10) + m mod 10.
Proof. intros H. Z.div_mod_to_equations. lia. Qed.

Lemma days_in_month_bounds y m : 28 <= days_in_month y m <= 31.
Proof.
  unfold days_in_month.
  destruct (m =? 2); [destruct (is_leap y); lia|].
  destruct ((m =? 4) || (m =? 6) || (m =? 9) || (m =? 11)); lia.
Qed.

Lemma strftime_chars t :
  strftime t =
  String (digit_char (ts_year t / 10 / 10 / 10 mod 10))
  (String (digit_char (ts_year t / 10 / 10 mod 10))
  (String (digit_char (ts_year t / 10 mod 10))
  (String (digit_char (ts_year t mod 10))
  (String (digit_char (ts_month t / 10 mod 10))
  (String (digit_char (ts_month t mod 10))
  (String (digit_char (ts_day t / 10 mod 10))
  (String (digit_char (ts_day t mod 10)) ""))))))).
Proof. reflexivity. Qed.

Lemma strptime_strftime t : timestamp_ok t -> strptime (strftime t) = inr t.
Proof.
  intros (Hy & Hm & Hd).
  pose proof (days_in_month_bounds (ts_year t) (ts_month t)) as Hdim.
  rewrite strftime_chars. unfold strptime.
  cbn [String.length Nat.eqb substring parse_digits_from].
  rewrite !digit_value_digit_char by apply mod10_digit.
  cbv beta iota.
  replace ((((0 * 10 + ts_year t / 10 / 10 / 10 mod 10) * 10
            + ts_year t / 10 / 10 mod 10) * 10 + ts_year t / 10 mod 10) * 10
          + ts_year t mod 10) with (ts_year t)
    by (rewrite (digits4_value (ts_year t)) at 1; lia).
  replace ((0 * 10 + ts_month t / 10 mod 10) * 10 + ts_month t mod 10)
    with (ts_month t)
    by (rewrite (digits2_value (ts_month t)) at 1; lia).
  replace ((0 * 10 + ts_day t / 10 mod 10) * 10 + ts_day t mod 10)
    with (ts_day t)
    by (rewrite (digits2_value (ts_day t)) at 1; lia).
  replace (1 <=? ts_year t) with true by (symmetry; apply Z.leb_le; lia).
  replace (1 <=? ts_month t) with true by (symmetry; apply Z.leb_le; lia).
  replace (ts_month t <=? 12) with true by (symmetry; apply Z.leb_le; lia).
  replace (1 <=? ts_day t) with true by (symmetry; apply Z.leb_le; lia).
  replace (ts_day t <=? days_in_month (ts_year t) (ts_month t)) with true
    by (symmetry; apply Z.leb_le; lia).
  destruct t; reflexivity.
Qed.

Lemma ts_ltb_true_iff a b :
  ts_ltb a b = true <->
  ts_year a < ts_year b \/
  (ts_year a = ts_year b /\
   (ts_month a < ts_month b \/
    (ts_month a = ts_month b /\ ts_day a < ts_day b))).
Proof.
  unfold ts_ltb. rewrite <- ts_compare_lt.
  destruct (ts_compare a b); split; congruence.
Qed.

Lemma timestamp_ok_fits t :
  timestamp_ok t ->
  0 <= ts_year t <= 9999 /\ 0 <= ts_month t <= 99 /\ 0 <= ts_day t <= 99.
Proof.
  intros (Hy & Hm & Hd).
  pose proof (days_in_month_bounds (ts_year t) (ts_month t)). lia.
Qed.

(** On dates that print on eight digits the order of the texts is the
    order of the days. *)
Lemma str_gt_strftime a b :
  timestamp_ok a -> timestamp_ok b ->
  str_gt (strftime a) (strftime b) = ts_ltb b a.
Proof.
  intros Ha Hb.
  apply timestamp_ok_fits in Ha, Hb.
  destruct Ha as (Hya & Hma & Hda), Hb as (Hyb & Hmb & Hdb).
  pose proof (digits4_value _ Hya) as Ya.
  pose proof (digits4_value _ Hyb) as Yb.
  pose proof (digits2_value _ Hma) as Ma.
  pose proof (digits2_value _ Hmb) as Mb.
  pose proof (digits2_value _ Hda) as Da.
  pose proof (digits2_value _ Hdb) as Db.
  rewrite !strftime_chars. unfold str_gt. cbn [String.compare].
  rewrite !ascii_compare_digit_char by apply mod10_digit.
  repeat match goal with
         | |- context [?x mod 10] =>
             let d := fresh "d" in
             pose proof (mod10_digit x);
             set (d := x mod 10) in *; clearbody d
         end.
  repeat match goal with
         | |- context [?x ?= ?y] => destruct (Z.compare_spec x y)
         end;
    match goal with
    | |- true = _ => symmetry; apply ts_ltb_true_iff; lia
    | |- false = _ =>
        destruct (ts_ltb b a) eqn:E; [|reflexivity];
        apply ts_ltb_true_iff in E; lia
    end.
Qed.

Lemma plus_one_day_ok t t' :
  timestamp_ok t -> plus_one_day t = inr t' -> timestamp_ok t'.
Proof.
  intros (Hy & Hm & Hd). unfold plus_one_day.
  pose proof (days_in_month_bounds (ts_year t) (ts_month t)).
  destruct (ts_day t <? days_in_month (ts_year t) (ts_month t)) eqn:E1.
  - intros [= <-]. apply Z.ltb_lt in E1. unfold timestamp_ok; simpl. lia.
  - destruct (ts_month t <? 12) eqn:E2.
    + intros [= <-]. apply Z.ltb_lt in E2. unfold timestamp_ok; simpl.
      pose proof (days_in_month_bounds (ts_year t) (ts_month t + 1)). lia.
    + destruct (ts_year t <? 9999) eqn:E3; [|discriminate].
      intros [= <-]. apply Z.ltb_lt in E3. unfold timestamp_ok; simpl.
      pose proof (days_in_month_bounds (ts_year t + 1) 1). lia.
Qed.

End DateText.

Section Retry.

Context {A : Type} (func : M A) (max_retries : nat) (delay : Q).

Lemma time_sleep_ok secs w :
  (0 <= secs)%Q ->
  time_sleep secs w =
  (Return tt, mkWorld (files w) (requests w) (stdout w) (slept w ++ [secs])).
Proof.
  intros H. unfold time_sleep.
  now rewrite (proj2 (Qle_bool_iff 0 secs) H).
Qed.

Lemma backoff_delay_nonneg attempt :
  (0 <= delay)%Q -> (0 <= delay * inject_Z (Z.of_nat (attempt + 1)))%Q.
Proof.
  intros H. apply Qmult_le_0_compat; [assumption|].
  unfold Qle; simpl. lia.
Qed.

(** One iteration of the loop, by the outcome of the call. *)
Lemma retry_attempts_success attempt range w result w1 :
  (0 <= delay)%Q -> func w = (Return result, w1) ->
  retry_attempts func max_retries delay (attempt :: range) w =
  (Return (Some result), pause delay w1).
Proof.
  intros Hd Hf. simpl. unfold try_except, bind. rewrite Hf.
  now rewrite time_sleep_ok.
Qed.

Lemma retry_attempts_last attempt range w e w1 :
  func w = (Raise e, w1) -> attempt = (max_retries - 1)%nat ->
  retry_attempts func max_retries delay (attempt :: range) w = (Raise e, w1).
Proof.
  intros Hf ->. simpl. unfold try_except, bind. rewrite Hf.
  now rewrite Nat.eqb_refl.
Qed.

Lemma retry_attempts_again attempt range w e w1 :
  (0 <= delay)%Q -> func w = (Raise e, w1) ->
  attempt <> (max_retries - 1)%nat ->
  retry_attempts func max_retries delay (attempt :: range) w =
  retry_attempts func max_retries delay range
                 (backoff max_retries delay attempt e w1).
Proof.
  intros Hd Hf Hne. simpl. unfold try_except, bind at 1. rewrite Hf.
  rewrite (proj2 (Nat.eqb_neq _ _) Hne).
  unfold bind, print. rewrite time_sleep_ok by now apply backoff_delay_nonneg.
  reflexivity.
Qed.

Lemma retry_attempts_contract n :
  (0 <= delay)%Q ->
  forall attempt w,
    (1 <= n)%nat -> (attempt + n = max_retries)%nat ->
    exists k wk,
      (k < n)%nat
      /\ failed_attempts func max_retries delay attempt w k wk
      /\ match func wk with
         | (Return result, w') =>
             retry_attempts func max_retries delay (seq attempt n) w =
             (Return (Some result), pause delay w')
         | (Raise e, w') =>
             k = (n - 1)%nat
             /\ retry_attempts func max_retries delay (seq attempt n) w =
                (Raise e, w')
         end.
Proof.
  intros Hd. induction n as [|n IH]; intros attempt w Hn Hsum; [lia|].
  destruct (func w) as [[e|result] w1] eqn:Hf.
  - destruct (Nat.eq_dec n 0%nat) as [->|Hn0].
    + exists 0%nat, w. split; [lia|]. split; [constructor|].
      rewrite Hf. split; [reflexivity|].
      apply retry_attempts_last; [assumption | lia].
    + destruct (IH (S attempt) (backoff max_retries delay attempt e w1))
        as (k & wk & Hk & Hfail & Hres); [lia | lia |].
      exists (S k), wk. split; [lia|].
      split; [econstructor; eassumption|].
      cbn [seq].
      rewrite (retry_attempts_again attempt _ w e w1) by (assumption || lia).
      destruct (func wk) as [[e'|r'] w']; [|assumption].
      destruct Hres as [-> Hres]. split; [lia | assumption].
  - exists 0%nat, w. split; [lia|]. split; [constructor|].
    rewrite Hf. now apply retry_attempts_success.
Qed.

(** The pauses of [k] failed attempts, for an operation that does not
    sleep itself. *)
Lemma failed_attempts_slept attempt w k wk :
  (forall w0, slept (snd (func w0)) = slept w0) ->
  failed_attempts func max_retries delay attempt w k wk ->
  slept wk = slept w ++ backoff_delays delay attempt k.
Proof.
  intros Hfunc H. unfold backoff_delays.
  induction H as [attempt w | attempt w e w1 k w2 Hf _ IH]; simpl.
  - now rewrite app_nil_r.
  - rewrite IH. cbn [backoff slept]. rewrite <- app_assoc.
    specialize (Hfunc w). rewrite Hf in Hfunc. cbn [snd] in Hfunc.
    now rewrite Hfunc.
Qed.

(** A result of the wrapper is a result of some call of the operation. *)
Lemma retry_attempts_result range w result w' :
  retry_attempts func max_retries delay range w = (Return (Some result), w') ->
  exists w1 w2, func w1 = (Return result, w2).
Proof.
  revert w. induction range as [|attempt range IH]; intros w; simpl.
  - unfold ret. intros [=].
  - assert (Hhandler : forall e w1,
      (if (attempt =? max_retries - 1)%nat then raise e
       else
         do print (retry_line attempt max_retries e) then
         do time_sleep (delay * inject_Z (Z.of_nat (attempt + 1))) then
         retry_attempts func max_retries delay range) w1
      = (Return (Some result), w') ->
      exists w1 w2, func w1 = (Return result, w2)).
    { intros e w1.
      destruct (attempt =? max_retries - 1)%nat; [unfold raise; intros [=]|].
      unfold bind, print.
      destruct (time_sleep _ _) as [[e'|[]] w2]; [intros [=]|].
      apply IH. }
    unfold try_except, bind at 1.
    destruct (func w) as [[e|r] w1] eqn:Hf; [apply Hhandler|].
    unfold bind.
    destruct (time_sleep delay w1) as [[e'|[]] w2]; [apply Hhandler|].
    unfold ret. intros [= <- _]. eauto.
Qed.

End Retry.

Section Quiet.

Lemma quiet_step_refl w : quiet_step w w.
Proof.
  split; [reflexivity | exists [] | exists []]; rewrite ?app_nil_r; auto.
Qed.

Lemma quiet_step_trans w1 w2 w3 :
  quiet_step w1 w2 -> quiet_step w2 w3 -> quiet_step w1 w3.
Proof.
  intros [F1 (i1 & S1 & I1) (m1 & R1)] [F2 (i2 & S2 & I2) (m2 & R2)].
  split.
  - congruence.
  - exists (i1 ++ i2). rewrite S2, S1, <- app_assoc. split; [reflexivity|].
    apply Forall_app; auto.
  - exists (m1 ++ m2). now rewrite R2, R1, <- app_assoc.
Qed.

Lemma quiet_ret {A} (a : A) : quiet (ret a).
Proof. intros w. apply quiet_step_refl. Qed.

Lemma quiet_raise {A} e : quiet (@raise A e).
Proof. intros w. apply quiet_step_refl. Qed.

Lemma quiet_lift_sum {A} (r : exn + A) : quiet (lift_sum r).
Proof. destruct r; [apply quiet_raise | apply quiet_ret]. Qed.

Lemma quiet_bind {A B} (m : M A) (k : A -> M B) :
  quiet m -> (forall a, quiet (k a)) -> quiet (bind m k).
Proof.
  intros Hm Hk w. unfold bind. specialize (Hm w).
  destruct (m w) as [[e|a] w1]; simpl in *; [assumption|].
  eapply quiet_step_trans; [eassumption | apply Hk].
Qed.

Lemma quiet_try_except {A} (body : M A) (handler : exn -> M A) :
  quiet body -> (forall e, quiet (handler e)) -> quiet (try_except body handler).
Proof.
  intros Hm Hk w. unfold try_except. specialize (Hm w).
  destruct (body w) as [[e|a] w1]; simpl in *; [|assumption].
  eapply quiet_step_trans; [eassumption | apply Hk].
Qed.

Lemma quiet_print line : indented line = true -> quiet (print line).
Proof.
  intros H w. split; simpl; [reflexivity | | exists []; now rewrite app_nil_r].
  exists [line]. split; [reflexivity|]. now constructor.
Qed.

Lemma quiet_time_sleep secs : quiet (time_sleep secs).
Proof.
  intros w. unfold time_sleep. destruct (Qle_bool 0 secs); simpl.
  - split; simpl; [reflexivity | exists [] | exists []];
      rewrite ?app_nil_r; auto.
  - apply quiet_step_refl.
Qed.

Lemma quiet_os_path_exists path : quiet (os_path_exists path).
Proof. intros w. apply quiet_step_refl. Qed.

Lemma quiet_read_parquet path : quiet (read_parquet path).
Proof.
  intros w. unfold read_parquet.
  destruct (files w !! path) as [[rows|]|]; apply quiet_step_refl.
Qed.

Lemma quiet_if {A} (b : bool) (m1 m2 : M A) :
  quiet m1 -> quiet m2 -> quiet (if b then m1 else m2).
Proof. now destruct b. Qed.

Lemma indented_retry_line attempt max_retries e :
  indented (retry_line attempt max_retries e) = true.
Proof. reflexivity. Qed.

Lemma quiet_retry_attempts {A} (func : M A) max_retries delay range :
  quiet func -> quiet (retry_attempts func max_retries delay range).
Proof.
  intros Hf. induction range as [|attempt range IH]; simpl.
  - apply quiet_ret.
  - apply quiet_try_except.
    + apply quiet_bind; [assumption|]. intros r.
      apply quiet_bind; [apply quiet_time_sleep|]. intros _. apply quiet_ret.
    + intros e. apply quiet_if; [apply quiet_raise|].
      apply quiet_bind;
        [apply quiet_print, indented_retry_line|]. intros _.
      apply quiet_bind; [apply quiet_time_sleep|]. intros _. exact IH.
Qed.

Lemma quiet_retry_on_error_default {A} (func : M A) :
  quiet func -> quiet (retry_on_error_default func).
Proof. apply quiet_retry_attempts. Qed.

Context (ak : provider).

Lemma quiet_stock_zh_a_hist symbol s e adjust :
  quiet (stock_zh_a_hist ak symbol s e adjust).
Proof.
  intros w. unfold stock_zh_a_hist.
  destruct (ak _ _); simpl;
    (split; simpl; [reflexivity | exists []; rewrite app_nil_r; auto | eauto]).
Qed.

Lemma quiet_fetch_adj_factor_inner symbol s e :
  quiet (fetch_adj_factor_inner ak symbol s e).
Proof.
  unfold fetch_adj_factor_inner.
  apply quiet_bind; [apply quiet_stock_zh_a_hist|]. intros df_qfq.
  apply quiet_bind; [apply quiet_stock_zh_a_hist|]. intros df_raw.
  apply quiet_if; [apply quiet_ret|].
  apply quiet_bind; [apply quiet_lift_sum|]. intros factors.
  apply quiet_bind; [apply quiet_lift_sum|]. intros df_adj.
  apply quiet_ret.
Qed.

Lemma quiet_fetch_adj_factor symbol s e :
  quiet (fetch_adj_factor ak symbol s e).
Proof.
  unfold fetch_adj_factor.
  apply quiet_bind; [|intros; apply quiet_ret].
  apply quiet_retry_on_error_default, quiet_fetch_adj_factor_inner.
Qed.

Lemma quiet_fetch_kline_daily symbol s e :
  quiet (fetch_kline_daily ak symbol s e).
Proof.
  unfold fetch_kline_daily.
  apply quiet_bind;
    [apply quiet_retry_on_error_default, quiet_stock_zh_a_hist|].
  intros df_kline. apply quiet_if; [apply quiet_ret|].
  apply quiet_bind; [apply quiet_fetch_adj_factor|]. intros df_adj.
  apply quiet_bind; [|intros; apply quiet_ret].
  apply quiet_if; [|apply quiet_ret].
  apply quiet_bind; [now apply quiet_print|]. intros _. apply quiet_ret.
Qed.

Lemma quiet_check_existing_data symbol :
  quiet (check_existing_data symbol).
Proof.
  unfold check_existing_data.
  apply quiet_bind; [apply quiet_os_path_exists|]. intros ex.
  apply quiet_if; [apply quiet_ret|].
  apply quiet_try_except; [|intros; apply quiet_ret].
  apply quiet_bind; [apply quiet_read_parquet|]. intros df.
  destruct df; apply quiet_ret.
Qed.

End Quiet.

Section Loop.

Context (ak : provider).

(** Looking for the latest date reads the store and nothing else, and
    never raises. *)
Lemma check_existing_data_returns symbol w :
  exists latest, check_existing_data symbol w = (Return latest, w).
Proof.
  unfold check_existing_data, bind, os_path_exists, try_except, read_parquet.
  destruct (bool_decide _); simpl; [|eexists; reflexivity].
  destruct (files w !! kline_path symbol) as [[[|first rest]|]|];
    eexists; reflexivity.
Qed.

Lemma check_existing_data_absent symbol w :
  files w !! kline_path symbol = None ->
  check_existing_data symbol w = (Return None, w).
Proof.
  intros H.
  unfold check_existing_data, bind, os_path_exists.
  rewrite H. rewrite bool_decide_eq_false_2; [reflexivity|].
  intros [x Hx]. discriminate.
Qed.

Lemma check_existing_data_corrupt symbol w :
  files w !! kline_path symbol = Some Corrupt ->
  check_existing_data symbol w = (Return None, w).
Proof.
  intros H.
  unfold check_existing_data, bind, os_path_exists, try_except, read_parquet.
  rewrite H. rewrite bool_decide_eq_true_2 by eauto. simpl. rewrite H.
  reflexivity.
Qed.

Lemma check_existing_data_empty symbol w :
  files w !! kline_path symbol = Some (Parquet []) ->
  check_existing_data symbol w = (Return None, w).
Proof.
  intros H.
  unfold check_existing_data, bind, os_path_exists, try_except, read_parquet.
  rewrite H. rewrite bool_decide_eq_true_2 by eauto. simpl. rewrite H.
  reflexivity.
Qed.

Lemma check_existing_data_rows symbol w first rest :
  files w !! kline_path symbol = Some (Parquet (first :: rest)) ->
  check_existing_data symbol w =
  (Return (Some (strftime (max_date first rest))), w).
Proof.
  intros H.
  unfold check_existing_data, bind, os_path_exists, try_except, read_parquet.
  rewrite H. rewrite bool_decide_eq_true_2 by eauto. simpl. rewrite H.
  reflexivity.
Qed.

(** The scheduler either leaves the world as it is, or prints the
    "already current" line and asks for the [continue]. *)
Lemma resolve_start_cases args symbol name w :
  (exists r, resolve_start args symbol name w = (r, w)
             /\ r <> Return None)
  \/ resolve_start args symbol name w =
     (Return None, with_line (skipped_line symbol name) w).
Proof.
  unfold resolve_start, bind, lift_sum, print, ret, raise.
  destruct (update args); [|left; eexists; split; [reflexivity|discriminate]].
  destruct (check_existing_data_returns symbol w) as [latest ->].
  destruct latest as [latest|];
    [|left; eexists; split; [reflexivity|discriminate]].
  destruct (String.eqb latest "");
    [left; eexists; split; [reflexivity|discriminate]|].
  destruct (strptime latest) as [e|parsed];
    [left; eexists; split; [reflexivity|discriminate]|].
  destruct (plus_one_day parsed) as [e|next];
    [left; eexists; split; [reflexivity|discriminate]|].
  destruct (str_gt _ _).
  - right. reflexivity.
  - left; eexists; split; [reflexivity|discriminate].
Qed.

Lemma save_to_parquet_stdout df symbol mode w :
  stdout (snd (save_to_parquet df symbol mode w)) = stdout w
  /\ requests (snd (save_to_parquet df symbol mode w)) = requests w.
Proof.
  unfold save_to_parquet, bind, os_path_exists, read_parquet, to_parquet.
  destruct (String.eqb mode "append" && bool_decide _); simpl; [|auto].
  destruct (files w !! kline_path symbol) as [[rows|]|]; simpl; auto.
Qed.

Lemma outcome_lines_not_indented symbol name :
  indented (skipped_line symbol name) = false
  /\ indented (no_data_line symbol name) = false
  /\ (forall n, indented (success_line symbol name n) = false)
  /\ (forall text, indented (failed_line symbol name text) = false).
Proof. repeat split. Qed.

Ltac log_extended H :=
  unfold with_line; cbn [stdout];
  repeat match goal with
         | Hs : stdout _ = stdout _ |- _ => rewrite Hs; clear Hs
         end;
  rewrite H, <- app_assoc; reflexivity.

(** What one iteration leaves behind: it returns, it has printed indented
    lines and then one line of its own, and it has counted the instrument
    once, under the heading that line announces. *)
Lemma process_stock_outcome args st symbol name w :
  exists st' w' inner line,
    process_stock ak args st (symbol, name) w = (Return st', w')
    /\ stdout w' = stdout w ++ inner ++ [line]
    /\ Forall (fun l => indented l = true) inner
    /\ ((st' = count_success st
         /\ (success_with_rows ak args symbol name w line
             \/ skipped_outcome symbol name line))
        \/ (exists text,
              st' = record_failure st (symbol, name, text)
              /\ ((line = no_data_line symbol name /\ text = "无数据")
                  \/ line = failed_line symbol name text))).
Proof.
  unfold process_stock, try_except, process_stock_try. simpl fst; simpl snd.
  unfold bind at 1.
  destruct (resolve_start_cases args symbol name w)
    as [(r & -> & Hr) | ->].
  - destruct r as [e|[start|]]; [| |congruence].
    + (* the scheduler raised *)
      eexists _, _, [], _. split; [reflexivity|].
      split; [reflexivity|]. split; [constructor|].
      right. eexists. split; [reflexivity|]. now right.
    + unfold bind at 1.
      pose proof (quiet_fetch_kline_daily ak symbol start (end_date args) w)
        as [_ (inner & Hout & Hind) _].
      destruct (fetch_kline_daily ak symbol start (end_date args) w)
        as [[e|df] w2] eqn:Efetch; simpl in Hout.
      * eexists _, _, inner, _. split; [reflexivity|].
        split; [log_extended Hout|]. split; [assumption|].
        right. eexists. split; [reflexivity|]. now right.
      * destruct (none_or_empty df) eqn:Enone.
        -- eexists _, _, inner, _. split; [reflexivity|].
           split; [log_extended Hout|]. split; [assumption|].
           right. eexists. split; [reflexivity|]. now left.
        -- destruct df as [[|first rest]|]; try discriminate Enone.
           unfold bind at 1.
           pose proof (save_to_parquet_stdout
                         (default [] (Some (first :: rest))) symbol
                         (if update args then "append" else "overwrite") w2)
             as [Hs _].
           destruct (save_to_parquet _ _ _ w2) as [[e|[]] w3];
             simpl in Hs.
           ++ eexists _, _, inner, _. split; [reflexivity|].
              split; [log_extended Hout|]. split; [assumption|].
              right. eexists. split; [reflexivity|]. now right.
           ++ eexists _, _, inner, _. split; [reflexivity|].
              split; [log_extended Hout|]. split; [assumption|].
              left. split; [reflexivity|]. left.
              exists start, (first :: rest), w2.
              split; [exact Efetch|]. split; [discriminate | reflexivity].
  - eexists _, _, [], _. split; [reflexivity|].
    split; [reflexivity|]. split; [constructor|].
    left. split; [reflexivity|]. now right.
Qed.

End Loop.

(* ================================================================== *)
(** * The claims *)

Section RetryContract.

(** C7. Retry wrapper: for every operation, a maximum of at least one
    attempt and a non negative delay, some number [k] of attempts below the
    maximum fail one after the other, each followed by a pause of
    [delay * attempt number] (so that an operation that does not sleep
    itself has slept [delay * 1], ..., [delay * k] by then); the next
    attempt then either succeeds, and
    the wrapper returns its result unchanged after a pause of [delay], or it
    fails as the last allowed attempt ([k = max_retries - 1]), and the
    wrapper raises that same exception without a further pause. *)
Theorem retry_on_error_contract {A} (func : M A) (max_retries : nat)
    (delay : Q) (w : world) :
  (1 <= max_retries)%nat -> (0 <= delay)%Q ->
  exists k wk,
    (k < max_retries)%nat
    /\ failed_attempts func max_retries delay 0 w k wk
    /\ ((forall w0, slept (snd (func w0)) = slept w0) ->
        slept wk = slept w ++ backoff_delays delay 0 k)
    /\ match func wk with
       | (Return result, w') =>
           retry_on_error func max_retries delay w =
           (Return (Some result), pause delay w')
       | (Raise e, w') =>
           k = (max_retries - 1)%nat
           /\ retry_on_error func max_retries delay w = (Raise e, w')
       end.
Proof.
  intros Hmax Hdelay. unfold retry_on_error.
  destruct (retry_attempts_contract func max_retries delay max_retries
              Hdelay 0%nat w Hmax eq_refl) as (k & wk & Hk & Hfail & Hres).
  exists k, wk. split; [assumption|]. split; [assumption|].
  split; [|assumption].
  intros Hfunc. now apply (failed_attempts_slept func max_retries).
Qed.

(** The contract at the defaults, on an operation that fails twice. *)
Lemma retry_on_error_contract_witness :
  exists k wk,
    (k < MAX_RETRIES)%nat
    /\ failed_attempts flaky MAX_RETRIES REQUEST_DELAY 0 world0 k wk
    /\ ((forall w0, slept (snd (flaky w0)) = slept w0) ->
        slept wk = slept world0 ++ backoff_delays REQUEST_DELAY 0 k)
    /\ match flaky wk with
       | (Return result, w') =>
           retry_on_error flaky MAX_RETRIES REQUEST_DELAY world0 =
           (Return (Some result), pause REQUEST_DELAY w')
       | (Raise e, w') =>
           k = (MAX_RETRIES - 1)%nat
           /\ retry_on_error flaky MAX_RETRIES REQUEST_DELAY world0 =
              (Raise e, w')
       end.
Proof.
  apply (retry_on_error_contract flaky MAX_RETRIES REQUEST_DELAY world0).
  - unfold MAX_RETRIES. lia.
  - unfold REQUEST_DELAY, Qle. simpl. lia.
Defined.

End RetryContract.

Section PersistenceClaims.

Lemma lookup_kline_insert symbol rows (fs : gmap string file) :
  <[kline_path symbol := Parquet rows]> fs !! kline_path symbol
  = Some (Parquet rows).
Proof. apply lookup_insert_eq. Qed.

Lemma save_to_parquet_append_existing df symbol w existing :
  files w !! kline_path symbol = Some (Parquet existing) ->
  save_to_parquet df symbol "append" w =
  (Return tt,
   mkWorld (<[kline_path symbol :=
                Parquet (sort_values (drop_duplicates_last (existing ++ df)))]>
              (files w))
           (requests w) (stdout w) (slept w)).
Proof.
  intros H. unfold save_to_parquet, bind, os_path_exists, read_parquet.
  rewrite bool_decide_eq_true_2 by (rewrite H; eauto).
  simpl. rewrite H. reflexivity.
Qed.

Lemma save_to_parquet_no_file df symbol mode w :
  files w !! kline_path symbol = None ->
  save_to_parquet df symbol mode w =
  (Return tt,
   mkWorld (<[kline_path symbol := Parquet df]> (files w))
           (requests w) (stdout w) (slept w)).
Proof.
  intros H. unfold save_to_parquet, bind, os_path_exists.
  rewrite bool_decide_eq_false_2 by (rewrite H; intros [x Hx]; discriminate).
  rewrite andb_false_r. reflexivity.
Qed.

Lemma save_to_parquet_append_corrupt df symbol w :
  files w !! kline_path symbol = Some Corrupt ->
  save_to_parquet df symbol "append" w =
  (Raise (ArrowInvalid "Parquet magic bytes not found in footer"), w).
Proof.
  intros H. unfold save_to_parquet, bind, os_path_exists, read_parquet.
  rewrite bool_decide_eq_true_2 by (rewrite H; eauto).
  simpl. rewrite H. reflexivity.
Qed.

Lemma sort_values_dates d rows :
  In d (map date (sort_values rows)) <-> In d (map date rows).
Proof.
  split; apply Permutation_in, Permutation_map;
    [|symmetry]; apply sort_values_perm.
Qed.

Lemma merged_dates_increasing existing df :
  strictly_increasing
    (map date (sort_values (drop_duplicates_last (existing ++ df)))).
Proof. apply sort_values_increasing, drop_duplicates_last_NoDup. Qed.

(** C2, as the code has it.  Append mode on a symbol whose table exists
    persists a table with strictly increasing (hence duplicate free) dates,
    whatever the overlap and the order of the rows of the two tables; on a
    symbol with no persisted table it writes the new table as it was given,
    neither sorted nor deduplicated; on an unreadable file it raises and
    leaves the store alone. *)
Theorem append_persists_increasing_dates (df : list bar) (symbol : string)
    (w : world) :
  let w' := snd (save_to_parquet df symbol "append" w) in
  match files w !! kline_path symbol with
  | Some (Parquet existing) =>
      exists merged,
        files w' !! kline_path symbol = Some (Parquet merged)
        /\ strictly_increasing (map date merged)
        /\ (forall d, In d (map date merged)
                      <-> In d (map date existing) \/ In d (map date df))
  | Some Corrupt => files w' = files w
  | None => files w' !! kline_path symbol = Some (Parquet df)
  end.
Proof.
  intros w'. subst w'.
  destruct (files w !! kline_path symbol) as [[existing|]|] eqn:H.
  - rewrite (save_to_parquet_append_existing df symbol w existing H).
    eexists. split; [apply lookup_kline_insert|].
    split; [apply merged_dates_increasing|].
    intros d.
    rewrite sort_values_dates, drop_duplicates_last_dates, map_app,
      in_app_iff.
    reflexivity.
  - now rewrite (save_to_parquet_append_corrupt df symbol w H).
  - rewrite (save_to_parquet_no_file df symbol "append" w H).
    apply lookup_kline_insert.
Qed.

(** C2 as stated fails when no table is persisted yet: two rows given in
    descending order are persisted in that order. *)
Lemma append_without_file_keeps_order :
  let w' :=
    snd (save_to_parquet [plain_bar day2; plain_bar day1] "000001" "append"
                         world0) in
  files world0 !! kline_path "000001" = None
  /\ files w' !! kline_path "000001"
     = Some (Parquet [plain_bar day2; plain_bar day1])
  /\ ~ strictly_increasing (map date [plain_bar day2; plain_bar day1]).
Proof.
  split; [reflexivity|]. split; [reflexivity|].
  intros H. inversion H as [|? ? _ Hall]; subst.
  inversion Hall as [|? ? Hlt _]; subst. discriminate Hlt.
Qed.

(** C6. Append is idempotent on a persisted table: saving the same new
    table a second time returns normally and leaves the world exactly as
    the first save left it. *)
Theorem append_idempotent (df existing : list bar) (symbol : string)
    (w : world) :
  files w !! kline_path symbol = Some (Parquet existing) ->
  let once := save_to_parquet df symbol "append" w in
  fst once = Return tt
  /\ save_to_parquet df symbol "append" (snd once) = once.
Proof.
  intros H once. subst once.
  rewrite (save_to_parquet_append_existing df symbol w existing H).
  split; [reflexivity|]. cbn [snd].
  erewrite save_to_parquet_append_existing
    by (cbn [files]; apply lookup_kline_insert).
  cbn [files requests stdout slept].
  rewrite append_merge_idempotent. now rewrite insert_insert_eq.
Qed.

Lemma append_idempotent_witness :
  let w := mkWorld (<[kline_path "000001" := Parquet [plain_bar day3;
                                                      plain_bar day1]]> ∅)
                   [] [] [] in
  let df := [plain_bar day2; plain_bar day3; plain_bar day2] in
  let once := save_to_parquet df "000001" "append" w in
  fst once = Return tt
  /\ save_to_parquet df "000001" "append" (snd once) = once.
Proof.
  intros w df.
  apply (append_idempotent df [plain_bar day3; plain_bar day1] "000001" w).
  reflexivity.
Defined.

End PersistenceClaims.

Section ResolverAlignment.

(** C1, at the input of the scenario.  Raw days 2, 3 and 4 January, adjusted
    days 2 and 4 January: the division of the two close columns pairs the
    rows by position, the shapes (2,) and (3,) do not match, every attempt
    raises a [ValueError], the instrument is recorded as failed and nothing
    is persisted; no factor is forward filled.  With as many adjusted rows
    as raw rows on other days ([ak_shifted]) the factor of 3 January is
    computed from the adjusted close of 4 January.  The merge by date of
    [fetch_kline_daily] does fill forward when it is handed a factor table
    without 3 January. *)
Theorem resolver_pairs_rows_by_position :
  fst (fetch_adj_factor ak_gap "000001" "20240102" "20240104" world0)
  = Raise (ValueError
             "operands could not be broadcast together with shapes (2,) (3,) ")
  /\ fst (fetch_kline_daily ak_gap "000001" "20240102" "20240104" world0)
     = Raise (ValueError
                "operands could not be broadcast together with shapes (2,) (3,) ")
  /\ (let run := main_loop ak_gap args_full [("000001", "")] stats0 world0 in
      fst run
      = Return (mkStats 0
                  [("000001", "",
                    "operands could not be broadcast together with shapes (2,) (3,) ")])
      /\ files (snd run) = ∅)
  /\ fst (fetch_adj_factor ak_shifted "000001" "20240102" "20240104" world0)
     = Return (Some [mkAdj day1 (5 / 10)%float; mkAdj day2 (6 / 10)%float])
  /\ map adj_factor
       (attach_adj_factor "000001" raw_three
          [mkAdj day1 (5 / 10)%float; mkAdj day3 (6 / 12)%float])
     = [(5 / 10)%float; (5 / 10)%float; (6 / 12)%float].
Proof. repeat split. Qed.

End ResolverAlignment.

Section ValidatorClaims.

Lemma kline_path_relative symbol :
  starts_with_slash symbol = false ->
  kline_path symbol = "data/kline_daily/" +:+ symbol +:+ ".parquet"
  /\ verify_data_5m.kline_path symbol
     = "data/kline_5m/" +:+ symbol +:+ ".parquet".
Proof.
  intros H. unfold kline_path, verify_data_5m.kline_path, os_path_join.
  assert (Hs : starts_with_slash (symbol +:+ ".parquet") = false).
  { destruct symbol as [|c rest]; [reflexivity|]. exact H. }
  rewrite Hs. split; reflexivity.
Qed.

Lemma validator_path_differs symbol :
  starts_with_slash symbol = false ->
  verify_data_5m.kline_path symbol <> kline_path symbol.
Proof.
  intros H. destruct (kline_path_relative symbol H) as [-> ->].
  cbn. intros [=].
Qed.

Lemma save_to_parquet_other_path df symbol mode w path :
  path <> kline_path symbol ->
  files (snd (save_to_parquet df symbol mode w)) !! path = files w !! path.
Proof.
  intros Hne.
  unfold save_to_parquet, bind, os_path_exists, read_parquet, to_parquet.
  destruct (String.eqb mode "append" && bool_decide _); simpl.
  - destruct (files w !! kline_path symbol) as [[rows|]|]; simpl;
      [|reflexivity|reflexivity].
    now apply lookup_insert_ne.
  - now apply lookup_insert_ne.
Qed.

Lemma verify_kline_data_rejects symbol w :
  fst (verify_data_5m.verify_kline_data symbol w) = Return false.
Proof.
  unfold verify_data_5m.verify_kline_data, bind, print, os_path_exists,
    try_except, read_parquet.
  cbn [files with_line].
  destruct (bool_decide _); [|reflexivity]. cbn [negb files with_line].
  destruct (files w !! verify_data_5m.kline_path symbol) as [[rows|]|];
    reflexivity.
Qed.

(** C4, as the code has it.  For a symbol that is not an absolute path the
    validator opens [data/kline_5m/<symbol>.parquet], the pipeline writes
    [data/kline_daily/<symbol>.parquet]: the two paths differ and a save
    leaves the file the validator opens as it was.  The validator asks for a
    ['datetime'] column, which is not among the columns the pipeline
    persists, so on any table with the pipeline's columns it reports a
    failure before its quality checks.  Only the universe file is at the
    same path for both. *)
Theorem validator_reads_another_store (df : list bar) (symbol mode : string)
    (w : world) :
  starts_with_slash symbol = false ->
  verify_data_5m.kline_path symbol <> kline_path symbol
  /\ files (snd (save_to_parquet df symbol mode w))
       !! verify_data_5m.kline_path symbol
     = files w !! verify_data_5m.kline_path symbol
  /\ ~ In "datetime" FINAL_COLUMNS
  /\ (forall w', fst (verify_data_5m.verify_kline_data symbol w')
                 = Return false)
  /\ verify_data_5m.STOCK_LIST_FILE = STOCK_LIST_FILE.
Proof.
  intros H. split; [now apply validator_path_differs|].
  split; [now apply save_to_parquet_other_path, validator_path_differs|].
  split.
  { unfold FINAL_COLUMNS. simpl. intros K.
    repeat (destruct K as [K|K]; [discriminate K|]). exact K. }
  split; [intros; apply verify_kline_data_rejects | reflexivity].
Qed.

Lemma validator_reads_another_store_witness :
  verify_data_5m.kline_path "000001" <> kline_path "000001"
  /\ files (snd (save_to_parquet [plain_bar day1] "000001" "overwrite" world0))
       !! verify_data_5m.kline_path "000001"
     = files world0 !! verify_data_5m.kline_path "000001"
  /\ ~ In "datetime" FINAL_COLUMNS
  /\ (forall w', fst (verify_data_5m.verify_kline_data "000001" w')
                 = Return false)
  /\ verify_data_5m.STOCK_LIST_FILE = STOCK_LIST_FILE.
Proof.
  apply (validator_reads_another_store [plain_bar day1] "000001" "overwrite"
                                       world0).
  reflexivity.
Defined.

(** C4 as stated fails: after the pipeline has persisted the table of
    "000001", the validator run on "000001" finds no file to read. *)
Lemma validator_misses_persisted_table :
  let w1 := snd (main_loop ak_aligned args_full [("000001", "")] stats0
                           world0) in
  let audit := verify_data_5m.verify_kline_data "000001" w1 in
  (exists rows, files w1 !! kline_path "000001" = Some (Parquet rows)
                /\ length rows = 3%nat)
  /\ files w1 !! verify_data_5m.kline_path "000001" = None
  /\ fst audit = Return false
  /\ List.last (stdout (snd audit)) ""
     = "错误: 数据文件不存在: data/kline_5m/000001.parquet".
Proof.
  repeat split. eexists. split; reflexivity.
Qed.

End ValidatorClaims.

Section OrchestratorClaims.

Context (ak : provider).

Lemma append_inv_head p a b : p +:+ a = p +:+ b -> a = b.
Proof.
  induction p as [|c p IH]; simpl; [trivial|].
  intros [= H]. now apply IH.
Qed.

Lemma success_not_skipped symbol name line :
  success_outcome symbol name line -> ~ skipped_outcome symbol name line.
Proof.
  intros [n ->] H. unfold skipped_outcome, success_line, skipped_line in H.
  apply append_inv_head in H. discriminate H.
Qed.

Lemma success_not_failed symbol name line :
  success_outcome symbol name line -> ~ failed_outcome symbol name line.
Proof.
  intros [n ->] [H | [text H]];
    unfold success_line, no_data_line, failed_line in H;
    apply append_inv_head in H; discriminate H.
Qed.

Lemma skipped_not_failed symbol name line :
  skipped_outcome symbol name line -> ~ failed_outcome symbol name line.
Proof.
  intros -> [H | [text H]];
    unfold skipped_line, no_data_line, failed_line in H;
    apply append_inv_head in H; discriminate H.
Qed.

Lemma outcome_lines_indented inner :
  Forall (fun l => indented l = true) inner -> outcome_lines inner = [].
Proof.
  unfold outcome_lines. induction 1 as [|l inner Hl _ IH]; simpl.
  - reflexivity.
  - now rewrite Hl.
Qed.

Lemma process_stock_prints_one args st row w :
  exists st' w' printed,
    process_stock ak args st row w = (Return st', w')
    /\ stdout w' = stdout w ++ printed
    /\ length (outcome_lines printed) = 1%nat.
Proof.
  destruct row as [symbol name].
  destruct (process_stock_outcome ak args st symbol name w)
    as (st' & w' & inner & line & Hrun & Hout & Hind & Hkind).
  exists st', w', (inner ++ [line]).
  split; [assumption|]. split; [assumption|].
  unfold outcome_lines. rewrite List.filter_app.
  fold (outcome_lines inner). rewrite (outcome_lines_indented inner Hind).
  assert (Hline : indented line = false).
  { destruct (outcome_lines_not_indented symbol name)
      as (Hskip & Hnone & Hsucc & Hfail).
    destruct Hkind as [[_ [Hs | Hs]] | (text & _ & [[-> _] | ->])].
    - destruct Hs as (start & df & w2 & _ & _ & ->). apply Hsucc.
    - rewrite Hs. apply Hskip.
    - apply Hnone.
    - apply Hfail. }
  simpl. now rewrite Hline.
Qed.

Lemma main_loop_prints args stock_list :
  forall st w,
  exists st' w' printed,
    main_loop ak args stock_list st w = (Return st', w')
    /\ stdout w' = stdout w ++ printed
    /\ length (outcome_lines printed) = length stock_list.
Proof.
  induction stock_list as [|row rest IH]; intros st w; simpl.
  - exists st, w, []. rewrite app_nil_r. repeat split.
  - unfold bind.
    destruct (process_stock_prints_one args st row w)
      as (st1 & w1 & p1 & -> & Hout1 & Hlen1).
    destruct (IH st1 w1) as (st' & w' & p2 & -> & Hout2 & Hlen2).
    exists st', w', (p1 ++ p2). split; [reflexivity|].
    split; [now rewrite Hout2, Hout1, <- app_assoc|].
    unfold outcome_lines in *.
    rewrite List.filter_app, length_app, Hlen1, Hlen2. reflexivity.
Qed.

(** C3. Each iteration of the loop returns normally and, after the
    indented lines of the retries and warnings below it, prints exactly one
    line of its own, which is of exactly one of three kinds: success with
    the row count of the table fetched, skipped because already current, or
    failed with "no data" or the error text.  A skipped instrument is not reported as a
    success nor as a fetch without rows.  In the counters a success and a
    skip both add one to [success_count], a failure appends one entry to
    [failed_stocks].  Over a run, the loop prints as many lines of its own
    as there are instruments. *)
Theorem one_outcome_per_instrument (args : Args) :
  (forall st symbol name w,
  exists st' w' inner line,
    process_stock ak args st (symbol, name) w = (Return st', w')
    /\ stdout w' = stdout w ++ inner ++ [line]
    /\ Forall (fun l => indented l = true) inner
    /\ indented line = false
    /\ ((success_with_rows ak args symbol name w line
         /\ ~ skipped_outcome symbol name line
         /\ ~ failed_outcome symbol name line
         /\ st' = count_success st)
        \/ (skipped_outcome symbol name line
            /\ ~ success_outcome symbol name line
            /\ ~ failed_outcome symbol name line
            /\ st' = count_success st)
        \/ (failed_outcome symbol name line
            /\ ~ success_outcome symbol name line
            /\ ~ skipped_outcome symbol name line
            /\ exists text,
                st' = record_failure st (symbol, name, text)
                /\ ((line = no_data_line symbol name /\ text = "无数据")
                    \/ line = failed_line symbol name text))))
  /\ (forall stock_list st w,
        exists st' w' printed,
          main_loop ak args stock_list st w = (Return st', w')
          /\ stdout w' = stdout w ++ printed
          /\ length (outcome_lines printed) = length stock_list).
Proof.
  split; [|intros; apply main_loop_prints].
  intros st symbol name w.
  destruct (process_stock_outcome ak args st symbol name w)
    as (st' & w' & inner & line & Hrun & Hout & Hind & Hkind).
  exists st', w', inner, line.
  split; [assumption|]. split; [assumption|]. split; [assumption|].
  destruct (outcome_lines_not_indented symbol name)
    as (Hskip & Hnone & Hsucc & Hfail).
  destruct Hkind as [[-> [Hs | Hs]] | (text & -> & [[-> ->] | ->])].
  - assert (Hs' : success_outcome symbol name line).
    { destruct Hs as (start & df & w2 & _ & _ & ->). now eexists. }
    split; [destruct Hs' as [n ->]; apply Hsucc|].
    left. split; [assumption|].
    split; [now apply success_not_skipped|].
    split; [now apply success_not_failed | reflexivity].
  - split; [rewrite Hs; apply Hskip|].
    right; left. split; [assumption|].
    split; [intros K; now apply (success_not_skipped symbol name line)|].
    split; [now apply skipped_not_failed | reflexivity].
  - split; [apply Hnone|].
    right; right.
    assert (Hf : failed_outcome symbol name (no_data_line symbol name))
      by now left.
    split; [assumption|].
    split; [intros K; now apply (success_not_failed symbol name _ K)|].
    split; [intros K; now apply (skipped_not_failed symbol name _ K)|].
    eexists. split; [reflexivity|]. now left.
  - split; [apply Hfail|].
    right; right.
    assert (Hf : failed_outcome symbol name (failed_line symbol name text))
      by (right; now exists text).
    split; [assumption|].
    split; [intros K; now apply (success_not_failed symbol name _ K)|].
    split; [intros K; now apply (skipped_not_failed symbol name _ K)|].
    eexists. split; [reflexivity|]. now right.
Qed.

(** One iteration counts its instrument once. *)
Lemma process_stock_counts args st row w :
  exists st' w',
    process_stock ak args st row w = (Return st', w')
    /\ ((success_count st' = (success_count st + 1)%nat
         /\ failed_stocks st' = failed_stocks st)
        \/ (success_count st' = success_count st
            /\ exists text,
                failed_stocks st' =
                failed_stocks st ++ [(fst row, snd row, text)])).
Proof.
  destruct row as [symbol name].
  destruct (process_stock_outcome ak args st symbol name w)
    as (st' & w' & inner & line & Hrun & _ & _ & Hkind).
  exists st', w'. split; [assumption|].
  destruct Hkind as [[-> _] | (text & -> & _)].
  - left. split; reflexivity.
  - right. split; [reflexivity|]. now exists text.
Qed.

Lemma main_loop_counts args stock_list :
  forall st w,
  exists st' w',
    main_loop ak args stock_list st w = (Return st', w')
    /\ (success_count st' + length (failed_stocks st')
        = success_count st + length (failed_stocks st) + length stock_list)%nat.
Proof.
  induction stock_list as [|row rest IH]; intros st w; simpl.
  - exists st, w. split; [reflexivity | lia].
  - unfold bind.
    destruct (process_stock_counts args st row w)
      as (st1 & w1 & -> & Hstep).
    destruct (IH st1 w1) as (st' & w' & -> & Hsum).
    exists st', w'. split; [reflexivity|].
    destruct Hstep as [[Hs Hf] | [Hs [text Hf]]];
      rewrite Hsum, Hs, Hf, ?length_app; simpl; lia.
Qed.

Lemma main_loop_app args before after st w :
  main_loop ak args (before ++ after) st w =
  (let* st1 := main_loop ak args before st in main_loop ak args after st1) w.
Proof.
  revert st w. unfold bind.
  induction before as [|row rest IH]; intros st w; simpl.
  - destruct (main_loop ak args after st w) as [[e|st'] w']; reflexivity.
  - unfold bind.
    destruct (process_stock ak args st row w) as [[e|st1] w1];
      [reflexivity|].
    apply IH.
Qed.

(** C9. No exception leaves the loop: on every list of instruments, from
    every state of the counters and of the world, and whatever the provider
    answers, [main_loop] returns.  When the [try] block of an instrument
    raises, the iteration returns with the entry (symbol, name, error text)
    appended to the failures.  Every instrument of the list is processed,
    from the state the instruments before it left, and the loop goes on with
    the instruments after it. *)
Theorem failure_isolation (args : Args) :
  (forall stock_list st w,
     exists st' w', main_loop ak args stock_list st w = (Return st', w'))
  /\ (forall st symbol name w e w1,
        process_stock_try ak args st symbol name w = (Raise e, w1) ->
        process_stock ak args st (symbol, name) w =
        (Return (record_failure st (symbol, name, str_of_exn e)),
         with_line (failed_line symbol name (str_of_exn e)) w1))
  /\ (forall before row after st w,
        exists st1 w1 st2 w2,
          main_loop ak args before st w = (Return st1, w1)
          /\ process_stock ak args st1 row w1 = (Return st2, w2)
          /\ main_loop ak args (before ++ row :: after) st w =
             main_loop ak args after st2 w2).
Proof.
  split; [|split].
  - intros stock_list st w.
    destruct (main_loop_counts args stock_list st w) as (st' & w' & H & _).
    eauto.
  - intros st symbol name w e w1 H.
    unfold process_stock, try_except. cbn [fst snd]. rewrite H. reflexivity.
  - intros before row after st w.
    destruct (main_loop_counts args before st w) as (st1 & w1 & H1 & _).
    destruct (process_stock_counts args st1 row w1) as (st2 & w2 & H2 & _).
    exists st1, w1, st2, w2. split; [assumption|]. split; [assumption|].
    rewrite main_loop_app. unfold bind at 1. rewrite H1.
    cbn [main_loop]. unfold bind at 1. now rewrite H2.
Qed.

Lemma print_all_stdout lines w :
  fst (print_all lines w) = Return tt
  /\ stdout (snd (print_all lines w)) = stdout w ++ lines.
Proof.
  revert w. induction lines as [|line rest IH]; intros w; simpl.
  - split; [reflexivity | now rewrite app_nil_r].
  - unfold bind, print. destruct (IH (with_line line w)) as [Hr Hout].
    split; [exact Hr|]. rewrite Hout. cbn [with_line stdout].
    now rewrite <- app_assoc.
Qed.

(** C10. Every iteration either adds exactly one to the success counter and
    leaves the failures alone, or leaves the counter alone and appends
    exactly one entry for its instrument to the failures.  So a run returns
    with success count plus number of failures equal to the number of
    instruments, and these are the three numbers the report prints after
    its heading. *)
Theorem accounting (args : Args) :
  (forall st row w,
     exists st' w',
       process_stock ak args st row w = (Return st', w')
       /\ ((success_count st' = (success_count st + 1)%nat
            /\ failed_stocks st' = failed_stocks st)
           \/ (success_count st' = success_count st
               /\ exists text,
                   failed_stocks st' =
                   failed_stocks st ++ [(fst row, snd row, text)])))
  /\ (forall stock_list w,
        exists st w' printed,
          main_run ak args stock_list w = (Return st, w')
          /\ (success_count st + length (failed_stocks st)
              = length stock_list)%nat
          /\ stdout w' = printed ++ report_lines (length stock_list) st
          /\ firstn 3 (skipn 3 (report_lines (length stock_list) st)) =
             ["总股票数: " +:+ str_of_nat (length stock_list);
              "成功: " +:+ str_of_nat (success_count st);
              "失败: " +:+ str_of_nat (length (failed_stocks st))]).
Proof.
  split; [apply process_stock_counts|].
  intros stock_list w. unfold main_run, bind at 1.
  destruct (main_loop_counts args stock_list (mkStats 0 []) w)
    as (st & w1 & -> & Hsum).
  destruct (print_all_stdout (report_lines (length stock_list) st) w1)
    as [Hp Hout].
  unfold bind.
  destruct (print_all (report_lines (length stock_list) st) w1)
    as [r w2]. cbn [fst snd] in Hp, Hout. subst r.
  exists st, w2, (stdout w1). split; [reflexivity|].
  split; [simpl in Hsum; lia|]. split; [exact Hout | reflexivity].
Qed.

End OrchestratorClaims.

Section SchedulingClaims.

Context (ak : provider).

Lemma ts_max_upper a b :
  ts_leb a (ts_max a b) = true /\ ts_leb b (ts_max a b) = true.
Proof.
  unfold ts_max. destruct (ts_leb a b) eqn:E.
  - split; [assumption | apply ts_leb_refl].
  - split; [apply ts_leb_refl|].
    apply ts_ltb_leb. now apply ts_leb_false_ltb.
Qed.

Lemma fold_ts_max_spec dates :
  forall d0,
    In (fold_left ts_max dates d0) (d0 :: dates)
    /\ forall d, In d (d0 :: dates) ->
                 ts_leb d (fold_left ts_max dates d0) = true.
Proof.
  induction dates as [|x rest IH]; intros d0; simpl.
  - split; [now left|]. intros d [<-|[]]. apply ts_leb_refl.
  - destruct (IH (ts_max d0 x)) as [Hin Hle].
    destruct (ts_max_upper d0 x) as [H0 Hx].
    split.
    + destruct Hin as [Hm | Hm]; [|now right; right].
      rewrite <- Hm. unfold ts_max. destruct (ts_leb d0 x); auto.
    + intros d [<- | [<- | Hd]].
      * eapply ts_leb_trans; [exact H0|]. apply Hle. now left.
      * eapply ts_leb_trans; [exact Hx|]. apply Hle. now left.
      * apply Hle. now right.
Qed.

(** [max_date] is the latest date of the table. *)
Lemma max_date_latest first rest D :
  In D (map date (first :: rest)) ->
  (forall r, In r (first :: rest) -> ts_leb (date r) D = true) ->
  max_date first rest = D.
Proof.
  intros Hin Hle. unfold max_date.
  destruct (fold_ts_max_spec (map date rest) (date first)) as [Hm Hup].
  apply ts_leb_antisym.
  - change (date first :: map date rest) with (map date (first :: rest)) in Hm.
    apply in_map_iff in Hm. destruct Hm as (r & <- & Hr). now apply Hle.
  - apply Hup. exact Hin.
Qed.

Lemma strftime_not_empty t : String.eqb (strftime t) "" = false.
Proof. now rewrite strftime_chars. Qed.

Lemma resolve_start_no_prior_data args symbol name w :
  update args = true ->
  files w !! kline_path symbol = None
  \/ files w !! kline_path symbol = Some Corrupt
  \/ files w !! kline_path symbol = Some (Parquet []) ->
  resolve_start args symbol name w = (Return (Some (start_date args)), w).
Proof.
  intros Hu H. unfold resolve_start, bind. rewrite Hu.
  destruct H as [H | [H | H]].
  - now rewrite check_existing_data_absent.
  - now rewrite check_existing_data_corrupt.
  - now rewrite check_existing_data_empty.
Qed.

Lemma resolve_start_prior_data args symbol name w rows D D' E :
  update args = true ->
  files w !! kline_path symbol = Some (Parquet rows) ->
  In D (map date rows) ->
  (forall r, In r rows -> ts_leb (date r) D = true) ->
  timestamp_ok D -> plus_one_day D = inr D' ->
  timestamp_ok E -> end_date args = strftime E ->
  resolve_start args symbol name w =
  if ts_ltb E D'
  then (Return None, with_line (skipped_line symbol name) w)
  else (Return (Some (strftime D')), w).
Proof.
  intros Hu Hfile Hin Hle HD Hplus HE Hend.
  destruct rows as [|first rest]; [destruct Hin|].
  unfold resolve_start, bind. rewrite Hu.
  rewrite (check_existing_data_rows symbol w first rest Hfile).
  rewrite (max_date_latest first rest D Hin Hle).
  rewrite strftime_not_empty, (strptime_strftime D HD). cbn [lift_sum ret].
  rewrite Hplus. cbn [lift_sum ret].
  rewrite Hend, str_gt_strftime
    by (assumption || exact (plus_one_day_ok D D' HD Hplus)).
  destruct (ts_ltb E D'); reflexivity.
Qed.

(** The wrapper calls the operation at once; all that follows is quiet. *)
Lemma retry_attempts_first_call {A} (func : M A) max_retries delay attempt
    range w :
  quiet func ->
  quiet_step (snd (func w))
             (snd (retry_attempts func max_retries delay (attempt :: range) w)).
Proof.
  intros Hq. cbn [retry_attempts]. unfold try_except, bind at 1.
  assert (Hhandler : forall e, quiet
    (if (attempt =? max_retries - 1)%nat then raise e
     else
       do print (retry_line attempt max_retries e) then
       do time_sleep (delay * inject_Z (Z.of_nat (attempt + 1))) then
       retry_attempts func max_retries delay range)).
  { intros e. apply quiet_if; [apply quiet_raise|].
    apply quiet_bind; [apply quiet_print, indented_retry_line|]. intros _.
    apply quiet_bind; [apply quiet_time_sleep|]. intros _.
    now apply quiet_retry_attempts. }
  destruct (func w) as [[e|r] w1]; cbn [snd]; [apply Hhandler|].
  pose proof (quiet_bind (time_sleep delay) (fun _ => ret (Some r))
                (quiet_time_sleep delay) (fun _ => quiet_ret (Some r)) w1)
    as Hbody.
  destruct ((do time_sleep delay then ret (Some r)) w1) as [[e|a] w2];
    cbn [snd] in *; [|assumption].
  eapply quiet_step_trans; [exact Hbody | apply Hhandler].
Qed.

Lemma fetch_kline_daily_first_request symbol s e w :
  exists more,
    requests (snd (fetch_kline_daily ak symbol s e w)) =
    requests w ++ mkRequest symbol s e "" :: more.
Proof.
  assert (Hstep : quiet_step (snd (stock_zh_a_hist ak symbol s e "" w))
                             (snd (fetch_kline_daily ak symbol s e w))).
  { unfold fetch_kline_daily, bind at 1.
    pose proof (retry_attempts_first_call
                  (stock_zh_a_hist ak symbol s e "") MAX_RETRIES REQUEST_DELAY
                  0 [1; 2]%nat w (quiet_stock_zh_a_hist ak symbol s e ""))
      as Hfirst.
    change (retry_attempts (stock_zh_a_hist ak symbol s e "") MAX_RETRIES
              REQUEST_DELAY [0; 1; 2]%nat w)
      with (retry_on_error_default (stock_zh_a_hist ak symbol s e "") w)
      in Hfirst.
    destruct (retry_on_error_default (stock_zh_a_hist ak symbol s e "") w)
      as [[e'|df] w1]; cbn [snd] in *; [assumption|].
    eapply quiet_step_trans; [exact Hfirst|].
    apply quiet_if; [apply quiet_ret|].
    apply quiet_bind; [apply quiet_fetch_adj_factor|]. intros df_adj.
    apply quiet_bind; [|intros; apply quiet_ret].
    apply quiet_if; [|apply quiet_ret].
    apply quiet_bind; [now apply quiet_print|]. intros _. apply quiet_ret. }
  destruct Hstep as [_ _ [more Hmore]].
  exists more. rewrite Hmore. unfold stock_zh_a_hist.
  destruct (ak _ _); cbn [snd requests]; now rewrite <- app_assoc.
Qed.

(** When the scheduler hands over a start date, the iteration queries the
    provider from that date. *)
Lemma process_stock_fetches_from args st symbol name w start :
  resolve_start args symbol name w = (Return (Some start), w) ->
  exists more,
    requests (snd (process_stock ak args st (symbol, name) w)) =
    requests w ++ mkRequest symbol start (end_date args) "" :: more.
Proof.
  intros Hstart.
  destruct (fetch_kline_daily_first_request symbol start (end_date args) w)
    as [more Hmore].
  exists more.
  unfold process_stock, try_except, process_stock_try. cbn [fst snd].
  unfold bind at 1. rewrite Hstart. unfold bind at 1.
  destruct (fetch_kline_daily ak symbol start (end_date args) w)
    as [[e|df] w2]; cbn [snd] in Hmore; [exact Hmore|].
  destruct (none_or_empty df); [exact Hmore|].
  unfold bind at 1.
  pose proof (save_to_parquet_stdout (default [] df) symbol
                (if update args then "append" else "overwrite") w2)
    as [_ Hreq].
  destruct (save_to_parquet _ _ _ w2) as [[e|[]] w3]; cbn [snd] in Hreq;
    cbn [snd bind print ret with_line requests]; now rewrite Hreq.
Qed.

(** C8. In incremental mode: with no table for the symbol, an unreadable
    file or an empty table, the effective start is the requested start and
    the provider is queried from it.  With a table whose latest date is [D],
    [D] plus one day being [D'], and a requested end that is the text of the
    day [E]: if [D'] is after [E] the iteration prints the "already
    current" line, counts the instrument and issues no request; otherwise
    the effective start is the text of [D'] and the provider is queried
    from it. *)
Theorem incremental_scheduling (args : Args) (st : stats)
    (symbol name : string) (w : world) :
  update args = true ->
  (files w !! kline_path symbol = None
   \/ files w !! kline_path symbol = Some Corrupt
   \/ files w !! kline_path symbol = Some (Parquet []) ->
   resolve_start args symbol name w = (Return (Some (start_date args)), w)
   /\ exists more,
       requests (snd (process_stock ak args st (symbol, name) w)) =
       requests w
         ++ mkRequest symbol (start_date args) (end_date args) "" :: more)
  /\ (forall rows D D' E,
        files w !! kline_path symbol = Some (Parquet rows) ->
        In D (map date rows) ->
        (forall r, In r rows -> ts_leb (date r) D = true) ->
        timestamp_ok D -> plus_one_day D = inr D' ->
        timestamp_ok E -> end_date args = strftime E ->
        if ts_ltb E D' then
          process_stock ak args st (symbol, name) w =
          (Return (count_success st),
           with_line (skipped_line symbol name) w)
          /\ requests (snd (process_stock ak args st (symbol, name) w))
             = requests w
        else
          resolve_start args symbol name w =
          (Return (Some (strftime D')), w)
          /\ exists more,
              requests (snd (process_stock ak args st (symbol, name) w)) =
              requests w
                ++ mkRequest symbol (strftime D') (end_date args) "" :: more).
Proof.
  intros Hu. split.
  - intros H.
    pose proof (resolve_start_no_prior_data args symbol name w Hu H) as Hr.
    split; [exact Hr | now apply process_stock_fetches_from].
  - intros rows D D' E Hfile Hin Hle HD Hplus HE Hend.
    pose proof (resolve_start_prior_data args symbol name w rows D D' E
                  Hu Hfile Hin Hle HD Hplus HE Hend) as Hr.
    destruct (ts_ltb E D').
    + assert (Hp : process_stock ak args st (symbol, name) w =
                   (Return (count_success st),
                    with_line (skipped_line symbol name) w)).
      { unfold process_stock, try_except, process_stock_try. cbn [fst snd].
        unfold bind at 1. now rewrite Hr. }
      split; [exact Hp | now rewrite Hp].
    + split; [exact Hr | now apply process_stock_fetches_from].
Qed.

End SchedulingClaims.

Section FactorClaims.

Context (ak : provider).

Lemma ffill_from_Forall (P : float -> Prop) col :
  forall last,
    missing_or P last -> Forall (missing_or P) col ->
    Forall (missing_or P) (ffill_from last col).
Proof.
  induction col as [|x rest IH]; intros last Hlast Hcol; simpl.
  - constructor.
  - inversion Hcol as [|? ? Hx Hrest]; subst.
    assert (Hv : missing_or P (if is_nan x then last else x))
      by (destruct (is_nan x); assumption).
    constructor; [exact Hv | now apply IH].
Qed.

Lemma fillna_Forall (P : float -> Prop) v col :
  P v -> Forall (missing_or P) col -> Forall P (fillna v col).
Proof.
  intros Hv Hcol. unfold fillna. rewrite List.Forall_map.
  eapply List.Forall_impl; [|exact Hcol].
  intros x [Hx | Hx]; destruct (is_nan x) eqn:E; try assumption.
  discriminate.
Qed.

Lemma left_merge_adj_factors (P : float -> Prop) df_kline df_adj :
  Forall (fun a => missing_or P (a_factor a)) df_adj ->
  Forall (missing_or P) (map snd (left_merge_adj df_kline df_adj)).
Proof.
  intros Hadj. unfold left_merge_adj.
  induction df_kline as [|k rest IH]; simpl; [constructor|].
  rewrite map_app. apply List.Forall_app. split; [|exact IH].
  assert (Hm : Forall (fun a => missing_or P (a_factor a))
                 (List.filter (fun a => ts_eqb (a_date a) (h_date k)) df_adj)).
  { apply List.Forall_forall. intros a Ha. apply filter_In in Ha.
    rewrite List.Forall_forall in Hadj. now apply Hadj. }
  destruct (List.filter _ df_adj) as [|m ms].
  - simpl. constructor; [now left | constructor].
  - inversion Hm as [|? ? Hm1 Hm2]; subst. cbn [map snd].
    constructor; [assumption|].
    rewrite List.map_map. cbn [snd]. now rewrite List.Forall_map.
Qed.

Lemma zip_with_bar_Forall (P : float -> Prop) symbol
    (rows : list (hist_row * float)) factors :
  Forall P factors ->
  Forall (fun r => P (adj_factor r))
    (zip_with
       (fun (kf : hist_row * float) (f : float) =>
          let k := fst kf in
          mkBar (h_date k) symbol (h_open k) (h_high k) (h_low k) (h_close k)
                (h_volume k) (h_amount k) f)
       rows factors).
Proof.
  intros H. revert rows.
  induction H as [|f fs Hf Hfs IH]; intros [|kf rows]; simpl;
    constructor; [exact Hf | apply IH].
Qed.

(** Every property of the factors handed over that 1.0 has too holds of the
    factors of the rows built: a missing factor is replaced by the factor
    before it, or by 1.0. *)
Lemma attach_adj_factor_Forall (P : float -> Prop) symbol df_kline df_adj :
  P 1%float ->
  Forall (fun a => missing_or P (a_factor a)) df_adj ->
  Forall (fun r => P (adj_factor r)) (attach_adj_factor symbol df_kline df_adj).
Proof.
  intros H1 Hadj. unfold attach_adj_factor.
  apply zip_with_bar_Forall, fillna_Forall; [exact H1|].
  apply ffill_from_Forall; [now left|].
  now apply left_merge_adj_factors.
Qed.

Lemma zip_with_div_elems a b :
  Forall (fun f => exists x y, In x a /\ In y b /\ f = (x / y)%float)
         (zip_with PrimFloat.div a b).
Proof.
  revert b. induction a as [|x a IH]; intros [|y b]; simpl;
    try constructor.
  - exists x, y. auto.
  - eapply List.Forall_impl; [|apply IH].
    intros f (x' & y' & Hx & Hy & ->). exists x', y'. auto.
Qed.

Lemma broadcast_left_elems x b :
  Forall (fun f => exists x' y, In x' [x] /\ In y b /\ f = (x' / y)%float)
         (map (fun y => (x / y)%float) b).
Proof.
  apply List.Forall_forall. intros f Hf.
  apply in_map_iff in Hf. destruct Hf as (y & <- & Hy).
  exists x, y. simpl. auto.
Qed.

Lemma broadcast_right_elems a y :
  Forall (fun f => exists x y', In x a /\ In y' [y] /\ f = (x / y')%float)
         (map (fun x => (x / y)%float) a).
Proof.
  apply List.Forall_forall. intros f Hf.
  apply in_map_iff in Hf. destruct Hf as (x & <- & Hx).
  exists x, y. simpl. auto.
Qed.

Lemma numpy_divide_elems a b q :
  numpy_divide a b = inr q ->
  Forall (fun f => exists x y, In x a /\ In y b /\ f = (x / y)%float) q.
Proof.
  unfold numpy_divide.
  destruct (length a =? length b)%nat.
  - intros [= <-]. apply zip_with_div_elems.
  - destruct a as [|x [|x' a]].
    + destruct b as [|y [|y' b]]; intros [= <-]. constructor.
    + intros [= <-]. apply (broadcast_left_elems x b).
    + destruct b as [|y [|y' b]]; intros [= <-].
      apply (broadcast_right_elems (x :: x' :: a) y).
Qed.

Lemma adj_DataFrame_factors dates factors df_adj :
  adj_DataFrame dates factors = inr df_adj ->
  Forall (fun a => In (a_factor a) factors) df_adj.
Proof.
  unfold adj_DataFrame.
  destruct (length factors =? length dates)%nat; [|discriminate].
  intros [= <-]. clear.
  revert factors. induction dates as [|d dates IH]; intros [|f factors];
    simpl; try constructor.
  - simpl. now left.
  - eapply List.Forall_impl; [|apply IH]. intros a Ha. now right.
Qed.

Lemma stock_zh_a_hist_close symbol s e adjust w rows w' x :
  stock_zh_a_hist ak symbol s e adjust w = (Return (Some rows), w') ->
  In x (map h_close rows) -> provider_close ak adjust x.
Proof.
  unfold stock_zh_a_hist.
  destruct (ak _ _) as [err|df] eqn:E; [discriminate|].
  intros [= -> _] Hx. apply in_map_iff in Hx. destruct Hx as (r & <- & Hr).
  do 4 eexists. split; [|split; [exact E|split; [exact Hr|reflexivity]]].
  reflexivity.
Qed.

Lemma fetch_adj_factor_inner_factors symbol s e w df_adj w' :
  fetch_adj_factor_inner ak symbol s e w = (Return (Some df_adj), w') ->
  Forall (fun a => computed_ratio ak (a_factor a)) df_adj.
Proof.
  unfold fetch_adj_factor_inner, bind at 1.
  destruct (stock_zh_a_hist ak symbol s e "qfq" w) as [[err|df_qfq] w1] eqn:Eq;
    [discriminate|].
  unfold bind at 1.
  destruct (stock_zh_a_hist ak symbol s e "" w1) as [[err|df_raw] w2] eqn:Er;
    [discriminate|].
  destruct df_qfq as [[|q qs]|]; cbn [none_or_empty orb]; try discriminate.
  destruct df_raw as [[|r rs]|]; cbn [none_or_empty orb]; try discriminate.
  cbn [default]. unfold bind at 1.
  destruct (numpy_divide _ _) as [err|factors] eqn:Ediv;
    cbn [lift_sum]; [discriminate|].
  unfold ret at 1, bind at 1.
  destruct (adj_DataFrame _ _) as [err|df] eqn:Edf;
    cbn [lift_sum]; [discriminate|].
  unfold ret. intros [= <- _].
  pose proof (numpy_divide_elems _ _ _ Ediv) as Hdiv.
  pose proof (adj_DataFrame_factors _ _ _ Edf) as Hdf.
  rewrite List.Forall_forall in Hdiv.
  eapply List.Forall_impl; [|exact Hdf].
  intros a Ha. destruct (Hdiv _ Ha) as (x & y & Hx & Hy & ->).
  exists x, y. split; [|split; [|reflexivity]].
  - eapply stock_zh_a_hist_close; eassumption.
  - eapply stock_zh_a_hist_close; eassumption.
Qed.

Lemma fetch_adj_factor_factors symbol s e w df_adj w' :
  fetch_adj_factor ak symbol s e w = (Return (Some df_adj), w') ->
  Forall (fun a => computed_ratio ak (a_factor a)) df_adj.
Proof.
  unfold fetch_adj_factor, bind, retry_on_error_default, retry_on_error.
  destruct (retry_attempts _ _ _ _ w) as [[err|r] w1] eqn:E; [discriminate|].
  unfold ret. intros [= Hr _].
  destruct r as [[df|]|]; try discriminate. injection Hr as ->.
  destruct (retry_attempts_result _ _ _ _ _ _ _ E) as (wa & wb & Hinner).
  eapply fetch_adj_factor_inner_factors; eassumption.
Qed.

(** The factors of a fetched table: 1.0, or a computed ratio that is not
    missing. *)
Lemma fetch_kline_daily_factors (P : float -> Prop) symbol s e w df w' :
  P 1%float ->
  (forall f, computed_ratio ak f -> missing_or P f) ->
  fetch_kline_daily ak symbol s e w = (Return (Some df), w') ->
  Forall (fun r => P (adj_factor r)) df.
Proof.
  intros H1 Hratio. unfold fetch_kline_daily, bind at 1.
  destruct (retry_on_error_default _ w) as [[err|df_kline] w1];
    [discriminate|].
  destruct (none_or_empty (flatten_none df_kline)); [discriminate|].
  unfold bind at 1.
  destruct (fetch_adj_factor ak symbol s e w1) as [[err|df_adj] w2] eqn:Eadj;
    [discriminate|].
  destruct (none_or_empty df_adj) eqn:Enone.
  - unfold bind, print, ret. intros [= <- _].
    apply attach_adj_factor_Forall; [exact H1|].
    rewrite List.Forall_map. apply List.Forall_forall. intros k _.
    now right.
  - unfold bind, ret. intros [= <- _].
    apply attach_adj_factor_Forall; [exact H1|].
    destruct df_adj as [df_adj|]; [|discriminate]. cbn [default].
    eapply List.Forall_impl;
      [|eapply fetch_adj_factor_factors; exact Eadj].
    intros a Ha. now apply Hratio.
Qed.

Lemma drop_duplicates_last_incl rows r :
  In r (drop_duplicates_last rows) -> In r rows.
Proof.
  induction rows as [|h rest IH]; simpl; [trivial|].
  destruct (existsb _ rest); simpl; intuition.
Qed.

Lemma save_to_parquet_store (P : float -> Prop) df symbol mode w :
  Forall (fun r => P (adj_factor r)) df ->
  store_factors P (files w) ->
  store_factors P (files (snd (save_to_parquet df symbol mode w))).
Proof.
  intros Hdf Hstore.
  assert (Hins : forall rows,
            Forall (fun r => P (adj_factor r)) rows ->
            store_factors P (<[kline_path symbol := Parquet rows]> (files w))).
  { intros rows Hrows path rows' Hlook.
    destruct (decide (kline_path symbol = path)) as [<-|Hne].
    - rewrite lookup_insert_eq in Hlook. now injection Hlook as <-.
    - rewrite lookup_insert_ne in Hlook by assumption.
      now apply (Hstore path). }
  unfold save_to_parquet, bind, os_path_exists, read_parquet, to_parquet.
  destruct (String.eqb mode "append" && bool_decide _); cbn [snd files];
    [|now apply Hins].
  destruct (files w !! kline_path symbol) as [[existing|]|] eqn:E;
    cbn [snd files]; try assumption.
  apply Hins. apply List.Forall_forall. intros r Hr.
  apply (Permutation_in _ (sort_values_perm _)) in Hr.
  apply drop_duplicates_last_incl, in_app_iff in Hr.
  destruct Hr as [Hr | Hr].
  - specialize (Hstore _ _ E). rewrite List.Forall_forall in Hstore. now apply Hstore.
  - rewrite List.Forall_forall in Hdf. now apply Hdf.
Qed.

Lemma process_stock_store (P : float -> Prop) args st row w :
  P 1%float ->
  (forall f, computed_ratio ak f -> missing_or P f) ->
  store_factors P (files w) ->
  store_factors P (files (snd (process_stock ak args st row w))).
Proof.
  intros H1 Hratio Hstore. destruct row as [symbol name].
  unfold process_stock, try_except, process_stock_try. cbn [fst snd].
  unfold bind at 1.
  destruct (resolve_start_cases args symbol name w)
    as [(r & -> & Hr) | ->]; [|exact Hstore].
  destruct r as [e|[start|]]; [exact Hstore| |congruence].
  unfold bind at 1.
  pose proof (quiet_fetch_kline_daily ak symbol start (end_date args) w)
    as [Hfiles _ _].
  destruct (fetch_kline_daily ak symbol start (end_date args) w)
    as [[e|df] w2] eqn:Efetch; cbn [snd] in Hfiles.
  - cbn [snd bind print ret with_line files]. now rewrite Hfiles.
  - destruct (none_or_empty df) eqn:Enone.
    + cbn [snd bind print ret with_line files]. now rewrite Hfiles.
    + destruct df as [df|]; [|discriminate].
      change (default [] (Some df)) with df.
      pose proof (save_to_parquet_store P df symbol
                    (if update args then "append" else "overwrite") w2) as Hs.
      unfold bind at 1.
      destruct (save_to_parquet df symbol _ w2) as [[e|[]] w3];
        cbn [snd bind print ret with_line files] in *;
        apply Hs;
        try (eapply fetch_kline_daily_factors; eassumption);
        now rewrite Hfiles.
Qed.

Lemma main_loop_store (P : float -> Prop) args stock_list :
  P 1%float ->
  (forall f, computed_ratio ak f -> missing_or P f) ->
  forall st w,
    store_factors P (files w) ->
    store_factors P (files (snd (main_loop ak args stock_list st w))).
Proof.
  intros H1 Hratio.
  induction stock_list as [|row rest IH]; intros st w Hstore; simpl.
  - exact Hstore.
  - unfold bind.
    pose proof (process_stock_store P args st row w H1 Hratio Hstore) as Hp.
    destruct (process_stock ak args st row w) as [[e|st1] w1]; cbn [snd] in *;
      [exact Hp | now apply IH].
Qed.

(** C5, as the code has it.  A run of the loop keeps the store free of
    missing adjustment factors: a factor that the merge or the division
    leaves missing is replaced by the factor before it, or by 1.0.  It keeps
    the factors greater than zero provided no ratio of an adjusted close to
    a raw close that the provider makes possible is zero, negative or
    minus infinity; the code itself does not look at the sign of a ratio. *)
Theorem persisted_adj_factor (args : Args)
    (stock_list : list (string * string)) (st : stats) (w : world) :
  store_factors (fun f => is_nan f = false) (files w) ->
  store_factors (fun f => is_nan f = false)
                (files (snd (main_loop ak args stock_list st w)))
  /\ (ratios_positive ak ->
      store_factors (fun f => PrimFloat.ltb 0%float f = true) (files w) ->
      store_factors (fun f => PrimFloat.ltb 0%float f = true)
                    (files (snd (main_loop ak args stock_list st w)))).
Proof.
  intros Hstore. split.
  - apply main_loop_store; [reflexivity | | exact Hstore].
    intros f _. unfold missing_or. destruct (is_nan f); auto.
  - intros Hpos Hstore'.
    apply main_loop_store; [reflexivity | | exact Hstore'].
    exact Hpos.
Qed.

End FactorClaims.

Section Witnesses.

Lemma empty_store_factors (P : float -> Prop) : store_factors P (files world0).
Proof. intros path rows H. cbn in H. rewrite lookup_empty in H. discriminate. Qed.

Lemma ak_aligned_close adjust x :
  provider_close ak_aligned adjust x ->
  (adjust = "qfq" /\ (x = 5%float \/ x = 6%float))
  \/ (adjust <> "qfq" /\ (x = 10%float \/ x = 12%float)).
Proof.
  intros (k & rq & rows & r & Hadj & Hak & Hin & <-).
  unfold ak_aligned, answers in Hak. rewrite Hadj in Hak.
  destruct (String.eqb adjust "qfq") eqn:E.
  - apply String.eqb_eq in E. left. split; [assumption|].
    injection Hak as <-.
    destruct Hin as [<- | [<- | [<- | []]]]; auto.
  - apply String.eqb_neq in E. right. split; [assumption|].
    injection Hak as <-.
    destruct Hin as [<- | [<- | [<- | []]]]; auto.
Qed.

Lemma ak_aligned_ratios_positive : ratios_positive ak_aligned.
Proof.
  intros f (x & y & Hx & Hy & ->).
  apply ak_aligned_close in Hx, Hy.
  destruct Hx as [[_ Hx] | [Hx _]]; [|congruence].
  destruct Hy as [[Hy _] | [_ Hy]]; [discriminate Hy|].
  right. destruct Hx as [-> | ->], Hy as [-> | ->]; reflexivity.
Defined.

Lemma persisted_adj_factor_witness :
  let w' := snd (main_loop ak_aligned args_full [("000001", "")] stats0
                           world0) in
  store_factors (fun f => is_nan f = false) (files w')
  /\ store_factors (fun f => PrimFloat.ltb 0%float f = true) (files w').
Proof.
  intros w'.
  destruct (persisted_adj_factor ak_aligned args_full [("000001", "")]
              stats0 world0 (empty_store_factors _)) as [Hnull Hpos].
  split; [exact Hnull|].
  apply Hpos; [exact ak_aligned_ratios_positive | apply empty_store_factors].
Defined.

(** C5 as stated fails: adjusted closes of -1 and 0 give the persisted
    factors -0.1 and 0. *)
Lemma persisted_factor_not_positive :
  let w' := snd (main_loop ak_negative args_full [("000001", "")] stats0
                           world0) in
  exists rows,
    files w' !! kline_path "000001" = Some (Parquet rows)
    /\ map adj_factor rows
       = [(5 / 10)%float; (-1 / 10)%float; (0 / 12)%float]
    /\ map (fun r => PrimFloat.ltb 0%float (adj_factor r)) rows
       = [true; false; false].
Proof. eexists. repeat split. Qed.

Lemma day3_ok : timestamp_ok day3.
Proof. unfold timestamp_ok. cbn. lia. Defined.

Lemma incremental_scheduling_witness :
  process_stock ak_aligned args_update stats0 ("000001", "")
                world_through_day3
  = (Return (count_success stats0),
     with_line (skipped_line "000001" "") world_through_day3)
  /\ requests (snd (process_stock ak_aligned args_update stats0
                                  ("000001", "") world_through_day3))
     = requests world_through_day3.
Proof.
  destruct (incremental_scheduling ak_aligned args_update stats0 "000001" ""
              world_through_day3 eq_refl) as [_ H].
  apply (H [plain_bar day1; plain_bar day3] day3 (mkTimestamp 2024 1 5) day3).
  - reflexivity.
  - right. left. reflexivity.
  - intros r [<- | [<- | []]]; reflexivity.
  - exact day3_ok.
  - reflexivity.
  - exact day3_ok.
  - reflexivity.
Defined.

End Witnesses.

(* ================================================================== *)
(** * Further properties of the code *)

Section MergeByDate.

Lemma attach_adj_factor_zip symbol df_kline df_adj :
  attach_adj_factor symbol df_kline df_adj =
  zip_with (fun (kf : hist_row * float) f => to_bar symbol (fst kf) f)
           (left_merge_adj df_kline df_adj)
           (fillna 1%float (ffill (map snd (left_merge_adj df_kline df_adj)))).
Proof. reflexivity. Qed.

Lemma ffill_from_length col : forall v, length (ffill_from v col) = length col.
Proof. induction col as [|x rest IH]; intros v; simpl; [|rewrite IH]; reflexivity. Qed.

Lemma filled_length (col : list float) :
  length (fillna 1%float (ffill col)) = length col.
Proof. unfold fillna, ffill. now rewrite length_map, ffill_from_length. Qed.

Lemma zip_to_bar_app symbol (m1 m2 : list (hist_row * float)) f1 f2 :
  length m1 = length f1 ->
  zip_with (fun (kf : hist_row * float) f => to_bar symbol (fst kf) f)
           (m1 ++ m2) (f1 ++ f2) =
  zip_with (fun (kf : hist_row * float) f => to_bar symbol (fst kf) f) m1 f1
  ++ zip_with (fun (kf : hist_row * float) f => to_bar symbol (fst kf) f) m2 f2.
Proof.
  revert f1. induction m1 as [|x m1 IH]; intros [|y f1] H; simpl in *;
    try discriminate; [reflexivity|].
  f_equal. apply IH. now injection H.
Qed.

Lemma zip_to_bar_factors symbol (m : list (hist_row * float)) fs :
  length m = length fs ->
  map adj_factor
      (zip_with (fun (kf : hist_row * float) f => to_bar symbol (fst kf) f)
                m fs) = fs.
Proof.
  revert fs. induction m as [|x m IH]; intros [|y fs] H; simpl in *;
    try discriminate; [reflexivity|].
  f_equal. apply IH. now injection H.
Qed.

Lemma zip_to_bar_dates symbol (m : list (hist_row * float)) fs :
  length m = length fs ->
  map date
      (zip_with (fun (kf : hist_row * float) f => to_bar symbol (fst kf) f)
                m fs) = map (fun kf => h_date (fst kf)) m.
Proof.
  revert fs. induction m as [|x m IH]; intros [|y fs] H; simpl in *;
    try discriminate; [reflexivity|].
  f_equal. apply IH. now injection H.
Qed.

Lemma attach_adj_factor_factors symbol df_kline df_adj :
  map adj_factor (attach_adj_factor symbol df_kline df_adj) =
  fillna 1%float (ffill (map snd (left_merge_adj df_kline df_adj))).
Proof.
  rewrite attach_adj_factor_zip. apply zip_to_bar_factors.
  now rewrite filled_length, length_map.
Qed.

Lemma left_merge_adj_app before after df_adj :
  left_merge_adj (before ++ after) df_adj =
  left_merge_adj before df_adj ++ left_merge_adj after df_adj.
Proof. unfold left_merge_adj. apply flat_map_app. Qed.

Lemma map_const_repeat {A B} (c : B) (l : list A) :
  map (fun _ => c) l = repeat c (length l).
Proof. induction l as [|a l IH]; simpl; [|rewrite IH]; reflexivity. Qed.

Lemma left_merge_adj_dates df_kline df_adj :
  map (fun kf : hist_row * float => h_date (fst kf))
      (left_merge_adj df_kline df_adj) =
  flat_map (fun k => repeat (h_date k)
                            (Nat.max 1 (count_date (h_date k) df_adj)))
           df_kline.
Proof.
  unfold left_merge_adj, count_date.
  induction df_kline as [|k rest IH]; [reflexivity|].
  cbn [flat_map]. rewrite map_app, IH. f_equal.
  destruct (List.filter _ df_adj) as [|m ms]; [reflexivity|].
  rewrite List.map_map. cbn [fst].
  now rewrite (map_const_repeat (h_date k) (m :: ms)).
Qed.

(** X1.  The merge is a left join.  The dates of the table built are the dates
    of the provider rows in their order, each as many times as the factor
    table has rows of that date, and once when it has none: nothing is
    dropped, and a date that the factor table repeats is repeated.  Every
    row carries the symbol and the prices, volume and amount of a provider
    row. *)
Theorem attach_adj_factor_left_join (symbol : string)
    (df_kline : list hist_row) (df_adj : list adj_row) :
  map date (attach_adj_factor symbol df_kline df_adj) =
  flat_map (fun k => repeat (h_date k)
                            (Nat.max 1 (count_date (h_date k) df_adj)))
           df_kline
  /\ Forall (fun r => exists k, In k df_kline
                                /\ r = to_bar symbol k (adj_factor r))
            (attach_adj_factor symbol df_kline df_adj).
Proof.
  split.
  - rewrite attach_adj_factor_zip, zip_to_bar_dates
      by now rewrite filled_length, length_map.
    apply left_merge_adj_dates.
  - rewrite attach_adj_factor_zip.
    generalize (fillna 1%float
                  (ffill (map snd (left_merge_adj df_kline df_adj)))).
    assert (Hm : Forall (fun kf : hist_row * float => In (fst kf) df_kline)
                        (left_merge_adj df_kline df_adj)).
    { unfold left_merge_adj. apply List.Forall_forall. intros kf Hkf.
      apply in_flat_map in Hkf. destruct Hkf as (k & Hk & Hin).
      destruct (List.filter _ df_adj) as [|m ms].
      - destruct Hin as [<-|[]]. exact Hk.
      - apply in_map_iff in Hin. destruct Hin as (a & <- & _). exact Hk. }
    induction Hm as [|kf m Hkf _ IH]; intros [|f fs]; simpl;
      constructor; [|apply IH].
    exists (fst kf). split; [exact Hkf | reflexivity].
Qed.

End MergeByDate.

Section ForwardFill.

Lemma last_cons_default {A} (l : list A) :
  forall d1 d2, List.last (d1 :: l) d2 = List.last l d1.
Proof.
  induction l as [|y l IH]; intros d1 d2; [reflexivity|].
  change (List.last (d1 :: y :: l) d2) with (List.last (y :: l) d2).
  now rewrite !IH.
Qed.

Lemma ffill_from_app a b :
  forall v,
    ffill_from v (a ++ b) =
    ffill_from v a ++ ffill_from (List.last (ffill_from v a) v) b.
Proof.
  induction a as [|x a IH]; intros v; [reflexivity|].
  cbn [app ffill_from]. rewrite IH. f_equal.
  now rewrite last_cons_default.
Qed.

Lemma last_fillna col :
  List.last (fillna 1%float col) 1%float =
  (if is_nan (List.last col nan) then 1%float else List.last col nan).
Proof.
  unfold fillna. induction col as [|x col IH]; [reflexivity|].
  destruct col as [|y col]; [reflexivity|].
  exact IH.
Qed.

Lemma merge_row_unmatched k df_adj :
  count_date (h_date k) df_adj = 0%nat ->
  left_merge_adj [k] df_adj = [(k, nan)].
Proof.
  unfold count_date, left_merge_adj. cbn [flat_map].
  destruct (List.filter _ df_adj); [reflexivity|discriminate].
Qed.

Lemma merge_row_matched k df_adj a :
  List.filter (fun a => ts_eqb (a_date a) (h_date k)) df_adj = [a] ->
  left_merge_adj [k] df_adj = [(k, a_factor a)].
Proof.
  intros H. unfold left_merge_adj. cbn [flat_map]. now rewrite H.
Qed.

Lemma attach_adj_factor_one_row symbol before k after df_adj x :
  left_merge_adj [k] df_adj = [(k, x)] ->
  exists rest,
    attach_adj_factor symbol (before ++ k :: after) df_adj =
    attach_adj_factor symbol before df_adj
    ++ to_bar symbol k
         (let carried :=
            List.last (ffill (map snd (left_merge_adj before df_adj))) nan in
          let v := if is_nan x then carried else x in
          if is_nan v then 1%float else v)
       :: rest.
Proof.
  intros Hk.
  set (mb := left_merge_adj before df_adj).
  set (ma := left_merge_adj after df_adj).
  assert (Hm : left_merge_adj (before ++ k :: after) df_adj
               = mb ++ (k, x) :: ma).
  { change (k :: after) with ([k] ++ after).
    now rewrite !left_merge_adj_app, Hk. }
  rewrite !attach_adj_factor_zip, Hm. fold mb.
  rewrite map_app. cbn [map snd]. unfold ffill.
  rewrite ffill_from_app. cbn [ffill_from].
  unfold fillna at 1. rewrite map_app. cbn [map].
  fold (fillna 1%float (ffill_from nan (map snd mb))).
  eexists.
  rewrite zip_to_bar_app
    by (fold (ffill (map snd mb)); now rewrite filled_length, length_map).
  cbn [zip_with fst]. reflexivity.
Qed.

(** X2.  Forward fill, at the merge.  A provider row whose date the factor table
    does not have takes the factor of the row before it in the table built,
    and 1.0 when it is the first row.  A provider row whose date the factor
    table has once, with a factor that is not missing, takes that factor. *)
Theorem attach_adj_factor_forward_fill (symbol : string)
    (before after : list hist_row) (k : hist_row) (df_adj : list adj_row) :
  (count_date (h_date k) df_adj = 0%nat ->
   exists rest,
     attach_adj_factor symbol (before ++ k :: after) df_adj =
     attach_adj_factor symbol before df_adj
     ++ to_bar symbol k
          (List.last (map adj_factor (attach_adj_factor symbol before df_adj))
                     1%float)
        :: rest)
  /\ (forall a,
        List.filter (fun a => ts_eqb (a_date a) (h_date k)) df_adj = [a] ->
        is_nan (a_factor a) = false ->
        exists rest,
          attach_adj_factor symbol (before ++ k :: after) df_adj =
          attach_adj_factor symbol before df_adj
          ++ to_bar symbol k (a_factor a) :: rest).
Proof.
  split.
  - intros H.
    destruct (attach_adj_factor_one_row symbol before k after df_adj nan
                (merge_row_unmatched k df_adj H)) as [rest Hrest].
    exists rest. rewrite Hrest. do 3 f_equal.
    rewrite attach_adj_factor_factors, last_fillna. reflexivity.
  - intros a Ha Hnan.
    destruct (attach_adj_factor_one_row symbol before k after df_adj
                (a_factor a) (merge_row_matched k df_adj a Ha))
      as [rest Hrest].
    exists rest. rewrite Hrest. cbv zeta. now rewrite Hnan, Hnan.
Qed.

End ForwardFill.

Section AlignedSeries.

Lemma filter_none {A} (p : A -> bool) l :
  (forall a, In a l -> p a = false) -> List.filter p l = [].
Proof.
  induction l as [|x l IH]; intros H; [reflexivity|].
  cbn [List.filter]. rewrite (H x) by now left.
  apply IH. intros a Ha. apply H. now right.
Qed.

Lemma filter_date_unique (pairs : list (hist_row * float)) p :
  List.NoDup (map (fun q : hist_row * float => h_date (fst q)) pairs) ->
  In p pairs ->
  List.filter (fun a => ts_eqb (a_date a) (h_date (fst p)))
              (map (fun q : hist_row * float => mkAdj (h_date (fst q)) (snd q))
                   pairs)
  = [mkAdj (h_date (fst p)) (snd p)].
Proof.
  induction pairs as [|q pairs IH]; intros Hnd Hin; [destruct Hin|].
  inversion Hnd as [|? ? Hnotin Hrest]; subst. cbn [map List.filter a_date].
  destruct Hin as [-> | Hin].
  - rewrite ts_eqb_refl. f_equal.
    apply filter_none. intros a Ha.
    apply in_map_iff in Ha. destruct Ha as (q & <- & Hq). cbn [a_date].
    destruct (ts_eqb (h_date (fst q)) (h_date (fst p))) eqn:E; [|reflexivity].
    apply ts_eqb_eq in E. exfalso. apply Hnotin. rewrite <- E.
    now apply (in_map (fun q : hist_row * float => h_date (fst q))).
  - destruct (ts_eqb (h_date (fst q)) (h_date (fst p))) eqn:E.
    + apply ts_eqb_eq in E. exfalso. apply Hnotin. rewrite E.
      now apply (in_map (fun q : hist_row * float => h_date (fst q))).
    + now apply IH.
Qed.

Lemma left_merge_adj_pairs (pairs part : list (hist_row * float)) :
  List.NoDup (map (fun q : hist_row * float => h_date (fst q)) pairs) ->
  (forall p, In p part -> In p pairs) ->
  left_merge_adj (map fst part)
    (map (fun q : hist_row * float => mkAdj (h_date (fst q)) (snd q)) pairs)
  = part.
Proof.
  intros Hnd. induction part as [|p part IH]; intros Hincl; [reflexivity|].
  cbn [map]. change (fst p :: map fst part) with ([fst p] ++ map fst part).
  rewrite left_merge_adj_app, IH by (intros; apply Hincl; now right).
  unfold left_merge_adj. cbn [flat_map].
  rewrite (filter_date_unique pairs p Hnd) by (apply Hincl; now left).
  destruct p; reflexivity.
Qed.

Lemma zip_pairs (df_kline : list hist_row) (factors : list float) :
  length factors = length df_kline ->
  exists pairs,
    map fst pairs = df_kline /\ map snd pairs = factors
    /\ zip_with mkAdj (map h_date df_kline) factors
       = map (fun q : hist_row * float => mkAdj (h_date (fst q)) (snd q))
             pairs.
Proof.
  revert factors. induction df_kline as [|k rest IH]; intros [|f fs] H;
    try discriminate.
  - exists []. repeat split.
  - destruct (IH fs) as (pairs & H1 & H2 & H3); [now injection H|].
    exists ((k, f) :: pairs). cbn. now rewrite H1, H2, H3.
Qed.

Lemma zip_to_bar_fst symbol (pairs : list (hist_row * float)) fs :
  zip_with (fun (kf : hist_row * float) f => to_bar symbol (fst kf) f)
           pairs fs
  = zip_with (to_bar symbol) (map fst pairs) fs.
Proof.
  revert fs. induction pairs as [|p pairs IH]; intros [|f fs]; simpl;
    try reflexivity.
  now rewrite IH.
Qed.

Lemma attach_adj_factor_aligned symbol df_kline factors :
  List.NoDup (map h_date df_kline) ->
  length factors = length df_kline ->
  attach_adj_factor symbol df_kline
    (zip_with mkAdj (map h_date df_kline) factors)
  = zip_with (to_bar symbol) df_kline (fillna 1%float (ffill factors)).
Proof.
  intros Hnd Hlen.
  destruct (zip_pairs df_kline factors Hlen) as (pairs & H1 & H2 & ->).
  rewrite attach_adj_factor_zip. subst df_kline factors.
  rewrite left_merge_adj_pairs; [apply zip_to_bar_fst | | auto].
  now rewrite List.map_map in Hnd.
Qed.

(** X3.  Aligned factors.  A factor table with one factor per provider row, on
    the dates of the provider rows, all different: the table built has the
    provider rows in their order, each with its own factor, a missing
    factor being replaced by the one before it or by 1.0. *)
Theorem merge_keeps_aligned_factors (symbol : string)
    (df_kline : list hist_row) (factors : list float) :
  List.NoDup (map h_date df_kline) ->
  length factors = length df_kline ->
  attach_adj_factor symbol df_kline
    (zip_with mkAdj (map h_date df_kline) factors)
  = zip_with (to_bar symbol) df_kline (fillna 1%float (ffill factors)).
Proof. apply attach_adj_factor_aligned. Qed.

End AlignedSeries.

Section SteadyProvider.

Context (ak : provider).

Lemma stock_zh_a_hist_answer symbol s e adjust w df :
  ak (length (requests w)) (mkRequest symbol s e adjust) = inr df ->
  stock_zh_a_hist ak symbol s e adjust w
  = (Return df, asked (mkRequest symbol s e adjust) w).
Proof. intros H. unfold stock_zh_a_hist. now rewrite H. Qed.

Lemma stock_zh_a_hist_error symbol s e adjust w err :
  ak (length (requests w)) (mkRequest symbol s e adjust) = inl err ->
  stock_zh_a_hist ak symbol s e adjust w
  = (Raise err, asked (mkRequest symbol s e adjust) w).
Proof. intros H. unfold stock_zh_a_hist. now rewrite H. Qed.

Lemma request_delay_nonneg : (0 <= REQUEST_DELAY)%Q.
Proof. unfold REQUEST_DELAY, Qle. simpl. lia. Qed.

Lemma retry_default_success {A} (func : M A) w result w1 :
  func w = (Return result, w1) ->
  retry_on_error_default func w
  = (Return (Some result), pause REQUEST_DELAY w1).
Proof.
  intros H. unfold retry_on_error_default, retry_on_error.
  cbn [seq MAX_RETRIES].
  now apply retry_attempts_success; [apply request_delay_nonneg|].
Qed.

Lemma retry_default_always_fails {A} (func : M A) err w :
  (forall w0, fst (func w0) = Raise err) ->
  fst (retry_on_error_default func w) = Raise err.
Proof.
  intros H. unfold retry_on_error_default, retry_on_error.
  cbn [seq MAX_RETRIES].
  assert (Hf : forall w0, func w0 = (Raise err, snd (func w0))).
  { intros w0. specialize (H w0). destruct (func w0); cbn in *. now subst. }
  rewrite (retry_attempts_again func 3 REQUEST_DELAY 0 _ w err _
             request_delay_nonneg (Hf w)) by discriminate.
  rewrite (retry_attempts_again func 3 REQUEST_DELAY 1 _ _ err _
             request_delay_nonneg (Hf _)) by discriminate.
  now rewrite (retry_attempts_last func 3 REQUEST_DELAY 2 _ _ err _ (Hf _)).
Qed.

Lemma zip_mkAdj_length dates factors :
  length factors = length dates ->
  length (zip_with mkAdj dates factors) = length dates.
Proof.
  revert factors. induction dates as [|d dates IH]; intros [|f fs] H;
    simpl in *; try discriminate; [reflexivity|].
  f_equal. apply IH. now injection H.
Qed.

Lemma resolve_factors_rows df_qfq df_raw df_adj :
  resolve_factors df_qfq df_raw = inr df_adj ->
  length df_adj = length df_raw.
Proof.
  unfold resolve_factors, adj_DataFrame.
  destruct (numpy_divide _ _) as [err|factors]; [discriminate|].
  destruct (length factors =? length (map h_date df_raw))%nat eqn:E;
    [|discriminate].
  apply Nat.eqb_eq in E. intros [= <-].
  rewrite zip_mkAdj_length by exact E. apply length_map.
Qed.

End SteadyProvider.

Section SteadyFetch.

Context (ak : provider).

Lemma bind_raises {A B} (m : M A) (k : A -> M B) w err :
  fst (m w) = Raise err -> fst (bind m k w) = Raise err.
Proof. unfold bind. destruct (m w) as [[e|a] w1]; cbn; congruence. Qed.

Lemma fetch_adj_factor_inner_steady symbol s e qs rs w :
  steady ak symbol s e (Some qs) (Some rs) -> qs <> [] -> rs <> [] ->
  fetch_adj_factor_inner ak symbol s e w =
  (match resolve_factors qs rs with
   | inl err => Raise err
   | inr df_adj => Return (Some df_adj)
   end,
   asked (mkRequest symbol s e "") (asked (mkRequest symbol s e "qfq") w)).
Proof.
  intros Hst Hq Hr. unfold fetch_adj_factor_inner, bind at 1.
  rewrite (stock_zh_a_hist_answer ak symbol s e "qfq" w (Some qs))
    by apply Hst.
  unfold bind at 1.
  rewrite (stock_zh_a_hist_answer ak symbol s e "" _ (Some rs)) by apply Hst.
  destruct qs as [|q qs]; [congruence|]. destruct rs as [|r rs]; [congruence|].
  cbn [none_or_empty orb]. unfold resolve_factors, bind.
  change (default [] (Some (q :: qs))) with (q :: qs).
  change (default [] (Some (r :: rs))) with (r :: rs).
  destruct (numpy_divide _ _) as [err|factors]; [reflexivity|].
  cbn [lift_sum ret].
  destruct (adj_DataFrame _ _) as [err|df_adj]; reflexivity.
Qed.

Lemma fetch_adj_factor_steady symbol s e qs rs w :
  steady ak symbol s e (Some qs) (Some rs) -> qs <> [] -> rs <> [] ->
  fst (fetch_adj_factor ak symbol s e w) =
  match resolve_factors qs rs with
  | inl err => Raise err
  | inr df_adj => Return (Some df_adj)
  end.
Proof.
  intros Hst Hq Hr. unfold fetch_adj_factor.
  destruct (resolve_factors qs rs) as [err|df_adj] eqn:E.
  - apply bind_raises, retry_default_always_fails. intros w0.
    rewrite (fetch_adj_factor_inner_steady symbol s e qs rs w0 Hst Hq Hr).
    now rewrite E.
  - unfold bind.
    rewrite (retry_default_success _ w (Some df_adj)
               (asked (mkRequest symbol s e "")
                      (asked (mkRequest symbol s e "qfq") w))).
    + reflexivity.
    + rewrite (fetch_adj_factor_inner_steady symbol s e qs rs w Hst Hq Hr).
      now rewrite E.
Qed.

(** With a steady provider and answers that are not empty, the bar fetcher
    is the merge of the raw rows with the factor table of the resolver, or
    the resolver's error. *)
Lemma fetch_kline_daily_steady symbol s e qs rs w :
  steady ak symbol s e (Some qs) (Some rs) -> qs <> [] -> rs <> [] ->
  fst (fetch_kline_daily ak symbol s e w) =
  match resolve_factors qs rs with
  | inl err => Raise err
  | inr df_adj => Return (Some (attach_adj_factor symbol rs df_adj))
  end.
Proof.
  intros Hst Hq Hr. unfold fetch_kline_daily, bind at 1.
  rewrite (retry_default_success _ w (Some rs)
             (asked (mkRequest symbol s e "") w))
    by (apply stock_zh_a_hist_answer, Hst).
  cbn [flatten_none].
  assert (Hne0 : none_or_empty (Some rs) = false)
    by (destruct rs; [congruence | reflexivity]).
  rewrite Hne0.
  change (default [] (Some rs)) with rs.
  pose proof (fetch_adj_factor_steady symbol s e qs rs
                (pause REQUEST_DELAY (asked (mkRequest symbol s e "") w))
                Hst Hq Hr) as Hadj.
  destruct (resolve_factors qs rs) as [err|df_adj] eqn:E.
  - now apply bind_raises.
  - unfold bind at 1.
    destruct (fetch_adj_factor ak symbol s e _) as [[err|r0] w2];
      cbn [fst] in Hadj; [discriminate|]. injection Hadj as ->.
    assert (Hne : none_or_empty (Some df_adj) = false).
    { pose proof (resolve_factors_rows qs rs df_adj E) as Hlen.
      destruct df_adj as [|a df_adj]; [|reflexivity].
      destruct rs; [congruence | discriminate Hlen]. }
    rewrite Hne. reflexivity.
Qed.

Lemma resolve_start_full args symbol name w :
  update args = false ->
  resolve_start args symbol name w = (Return (Some (start_date args)), w).
Proof. intros H. unfold resolve_start. now rewrite H. Qed.

Lemma process_stock_fetch_raised args st symbol name w start err w2 :
  resolve_start args symbol name w = (Return (Some start), w) ->
  fetch_kline_daily ak symbol start (end_date args) w = (Raise err, w2) ->
  process_stock ak args st (symbol, name) w
  = (Return (record_failure st (symbol, name, str_of_exn err)),
     with_line (failed_line symbol name (str_of_exn err)) w2).
Proof.
  intros Hstart Hfetch.
  unfold process_stock, try_except, process_stock_try. cbn [fst snd].
  unfold bind at 1. rewrite Hstart. unfold bind at 1. now rewrite Hfetch.
Qed.

(** An exception of the fetch is the recorded failure of the instrument,
    and the store is left alone. *)
Lemma process_stock_fetch_raises args st symbol name w start err :
  resolve_start args symbol name w = (Return (Some start), w) ->
  fst (fetch_kline_daily ak symbol start (end_date args) w) = Raise err ->
  fst (process_stock ak args st (symbol, name) w)
  = Return (record_failure st (symbol, name, str_of_exn err))
  /\ files (snd (process_stock ak args st (symbol, name) w)) = files w.
Proof.
  intros Hstart Hfetch.
  pose proof (quiet_fetch_kline_daily ak symbol start (end_date args) w)
    as [Hfiles _ _].
  destruct (fetch_kline_daily ak symbol start (end_date args) w)
    as [[e|df] w2] eqn:E; cbn [fst snd] in *; [|discriminate].
  injection Hfetch as ->.
  rewrite (process_stock_fetch_raised args st symbol name w start err w2
             Hstart E).
  split; [reflexivity | exact Hfiles].
Qed.

End SteadyFetch.

Section ResolverShapes.

Context (ak : provider).

Lemma zip_with_div_length (a b : list float) :
  length a = length b -> length (zip_with PrimFloat.div a b) = length b.
Proof.
  revert b. induction a as [|x a IH]; intros [|y b] H; simpl in *;
    try discriminate; [reflexivity|].
  f_equal. apply IH. now injection H.
Qed.

Lemma resolve_factors_same_length qs rs :
  length qs = length rs ->
  resolve_factors qs rs =
  inr (zip_with mkAdj (map h_date rs)
         (zip_with PrimFloat.div (map h_close qs) (map h_close rs))).
Proof.
  intros H. unfold resolve_factors, numpy_divide, adj_DataFrame.
  rewrite !length_map, (proj2 (Nat.eqb_eq _ _) H).
  rewrite zip_with_div_length, !length_map by (rewrite !length_map; exact H).
  now rewrite Nat.eqb_refl.
Qed.

Lemma resolve_factors_single q rs :
  length rs <> 1%nat ->
  resolve_factors [q] rs =
  inr (zip_with mkAdj (map h_date rs)
         (map (fun y => (h_close q / y)%float) (map h_close rs))).
Proof.
  intros H. unfold resolve_factors, numpy_divide, adj_DataFrame.
  cbn [map length]. rewrite !length_map.
  destruct (1 =? length rs)%nat eqn:E;
    [apply Nat.eqb_eq in E; congruence|].
  now rewrite !length_map, Nat.eqb_refl.
Qed.

Lemma resolve_factors_mismatch qs rs :
  qs <> [] -> rs <> [] ->
  length qs <> length rs -> length qs <> 1%nat ->
  exists msg, resolve_factors qs rs = inl (ValueError msg).
Proof.
  intros Hq Hr Hlen H1. unfold resolve_factors, numpy_divide.
  rewrite !length_map, (proj2 (Nat.eqb_neq _ _) Hlen).
  destruct qs as [|q [|q' qs]]; [congruence | cbn in H1; congruence |].
  cbn [map]. destruct rs as [|r [|r' rs]]; [congruence | |].
  - cbn [map]. unfold adj_DataFrame. cbn [length map].
    rewrite length_map. cbn [Nat.eqb]. eexists. reflexivity.
  - cbn [map]. eexists. reflexivity.
Qed.

(** X4.  The resolver on matching series.  With a steady provider, as many
    adjusted rows as raw rows and raw dates all different, the table fetched
    has the raw rows in their order, the factor of row [i] being the
    adjusted close of row [i] over the raw close of row [i] (a missing
    ratio, 0/0, being replaced by the factor before it or by 1.0). *)
Theorem fetch_kline_daily_by_position (symbol s e : string)
    (qs rs : list hist_row) (w : world) :
  steady ak symbol s e (Some qs) (Some rs) ->
  rs <> [] -> length qs = length rs -> List.NoDup (map h_date rs) ->
  fst (fetch_kline_daily ak symbol s e w) =
  Return (Some (zip_with (to_bar symbol) rs
                  (fillna 1%float
                     (ffill (zip_with PrimFloat.div (map h_close qs)
                                      (map h_close rs)))))).
Proof.
  intros Hst Hr Hlen Hnd.
  assert (Hq : qs <> []) by (destruct qs, rs; cbn in *; congruence).
  rewrite (fetch_kline_daily_steady ak symbol s e qs rs w Hst Hq Hr).
  rewrite (resolve_factors_same_length qs rs Hlen).
  rewrite attach_adj_factor_aligned; [reflexivity | exact Hnd |].
  rewrite zip_with_div_length, length_map by (rewrite !length_map; exact Hlen).
  reflexivity.
Qed.

(** X5.  A single adjusted row is broadcast.  With a steady provider, one
    adjusted row and several raw rows of different dates, no error is
    raised: every raw row gets the close of that one adjusted row over its
    own raw close as factor. *)
Theorem fetch_kline_daily_single_adjusted_row (symbol s e : string)
    (q : hist_row) (rs : list hist_row) (w : world) :
  steady ak symbol s e (Some [q]) (Some rs) ->
  (2 <= length rs)%nat -> List.NoDup (map h_date rs) ->
  fst (fetch_kline_daily ak symbol s e w) =
  Return (Some (zip_with (to_bar symbol) rs
                  (fillna 1%float
                     (ffill (map (fun r => (h_close q / h_close r)%float)
                                 rs))))).
Proof.
  intros Hst Hlen Hnd.
  assert (Hr : rs <> []) by (destruct rs; cbn in *; [lia | congruence]).
  rewrite (fetch_kline_daily_steady ak symbol s e [q] rs w Hst)
    by (congruence || exact Hr).
  rewrite (resolve_factors_single q rs) by lia.
  rewrite List.map_map.
  rewrite attach_adj_factor_aligned;
    [reflexivity | exact Hnd | apply length_map].
Qed.

(** X6.  Series of different lengths.  With a steady provider, answers that are
    not empty, more than one adjusted row and not as many adjusted rows as
    raw rows, every attempt of the resolver raises a [ValueError]: the
    fetch raises it, and in full mode the instrument is recorded as failed
    with its text and the store is left alone. *)
Theorem fetch_kline_daily_length_mismatch (symbol s e : string)
    (qs rs : list hist_row) (w : world) :
  steady ak symbol s e (Some qs) (Some rs) ->
  rs <> [] -> (2 <= length qs)%nat -> length qs <> length rs ->
  exists msg,
    fst (fetch_kline_daily ak symbol s e w) = Raise (ValueError msg)
    /\ forall args st name,
         update args = false -> start_date args = s -> end_date args = e ->
         fst (process_stock ak args st (symbol, name) w)
         = Return (record_failure st (symbol, name, msg))
         /\ files (snd (process_stock ak args st (symbol, name) w))
            = files w.
Proof.
  intros Hst Hr H2 Hlen.
  assert (Hq : qs <> []) by (destruct qs; cbn in *; [lia | congruence]).
  destruct (resolve_factors_mismatch qs rs Hq Hr Hlen) as [msg Hmsg];
    [lia|].
  exists msg.
  assert (Hfetch : fst (fetch_kline_daily ak symbol s e w)
                   = Raise (ValueError msg)).
  { rewrite (fetch_kline_daily_steady ak symbol s e qs rs w Hst Hq Hr).
    now rewrite Hmsg. }
  split; [exact Hfetch|].
  intros args st name Hu Hs He. subst s e.
  apply (process_stock_fetch_raises ak args st symbol name w
           (start_date args) (ValueError msg)); [|exact Hfetch].
  now apply resolve_start_full.
Qed.

End ResolverShapes.

Section DegradedFetch.

Context (ak : provider).

Lemma attach_constant_factor symbol rs :
  Forall (fun r => adj_factor r = 1%float)
         (attach_adj_factor symbol rs
            (map (fun k => mkAdj (h_date k) 1%float) rs)).
Proof.
  apply (attach_adj_factor_Forall (fun f => f = 1%float));
    [reflexivity|].
  rewrite List.Forall_map. apply List.Forall_forall. intros k _. now right.
Qed.

(** X7.  No adjusted series.  With a steady provider whose adjusted answer is
    [None] or empty while the raw answer has rows, the fetch does not fail:
    it prints the warning, and every row of the table it returns has the
    factor 1.0. *)
Theorem fetch_kline_daily_default_factor (symbol s e : string)
    (adjusted : option (list hist_row)) (rs : list hist_row) (w : world) :
  steady ak symbol s e adjusted (Some rs) ->
  rs <> [] -> none_or_empty adjusted = true ->
  exists rows w',
    fetch_kline_daily ak symbol s e w = (Return (Some rows), w')
    /\ rows = attach_adj_factor symbol rs
                (map (fun k => mkAdj (h_date k) 1%float) rs)
    /\ Forall (fun r => adj_factor r = 1%float) rows
    /\ stdout w' = stdout w ++ ["  警告: 无法获取复权因子，使用默认值1.0"]
    /\ files w' = files w.
Proof.
  intros Hst Hr Hnone.
  set (raw := mkRequest symbol s e "").
  set (qfq := mkRequest symbol s e "qfq").
  set (w1 := pause REQUEST_DELAY (asked raw w)).
  assert (Hinner : fetch_adj_factor_inner ak symbol s e w1
                   = (Return None, asked raw (asked qfq w1))).
  { unfold fetch_adj_factor_inner, bind at 1.
    rewrite (stock_zh_a_hist_answer ak symbol s e "qfq" w1 adjusted)
      by apply Hst.
    unfold bind at 1.
    rewrite (stock_zh_a_hist_answer ak symbol s e "" _ (Some rs))
      by apply Hst.
    now rewrite Hnone. }
  assert (Hadj : fetch_adj_factor ak symbol s e w1
                 = (Return None,
                    pause REQUEST_DELAY (asked raw (asked qfq w1)))).
  { unfold fetch_adj_factor, bind.
    now rewrite (retry_default_success _ w1 None _ Hinner). }
  do 2 eexists. split.
  - unfold fetch_kline_daily, bind at 1.
    rewrite (retry_default_success _ w (Some rs) (asked raw w))
      by (apply stock_zh_a_hist_answer, Hst).
    cbn [flatten_none].
    assert (Hne0 : none_or_empty (Some rs) = false)
      by (destruct rs; [congruence | reflexivity]).
    rewrite Hne0. change (default [] (Some rs)) with rs.
    unfold bind at 1. fold w1. rewrite Hadj. cbn [none_or_empty].
    unfold bind, print, ret. reflexivity.
  - split; [reflexivity|]. split; [apply attach_constant_factor|].
    split; reflexivity.
Qed.

(** X8.  Adjusted fetch down.  With a provider whose adjusted query always
    raises while the raw query is answered with rows, the fetch does not
    fall back to 1.0: after three attempts it raises that exception, and
    the instrument is recorded as failed with its text, the store being
    left alone. *)
Theorem adjusted_failure_fails_instrument (symbol s e : string) (err : exn)
    (rs : list hist_row) (w : world) :
  adjusted_down ak symbol s e err (Some rs) -> rs <> [] ->
  fst (fetch_kline_daily ak symbol s e w) = Raise err
  /\ forall args st name,
       resolve_start args symbol name w = (Return (Some s), w) ->
       end_date args = e ->
       fst (process_stock ak args st (symbol, name) w)
       = Return (record_failure st (symbol, name, str_of_exn err))
       /\ files (snd (process_stock ak args st (symbol, name) w)) = files w.
Proof.
  intros Hdown Hr.
  assert (Hfetch : fst (fetch_kline_daily ak symbol s e w) = Raise err).
  { unfold fetch_kline_daily, bind at 1.
    rewrite (retry_default_success _ w (Some rs)
               (asked (mkRequest symbol s e "") w))
      by (apply stock_zh_a_hist_answer, Hdown).
    cbn [flatten_none].
    assert (Hne0 : none_or_empty (Some rs) = false)
      by (destruct rs; [congruence | reflexivity]).
    rewrite Hne0. apply bind_raises. unfold fetch_adj_factor.
    apply bind_raises, retry_default_always_fails. intros w0.
    unfold fetch_adj_factor_inner. apply bind_raises.
    now rewrite (stock_zh_a_hist_error ak symbol s e "qfq" w0 err)
      by apply Hdown. }
  split; [exact Hfetch|].
  intros args st name Hstart He. subst e.
  now apply (process_stock_fetch_raises ak args st symbol name w s err).
Qed.

(** X9.  No rows.  When the provider answers the first raw query with [None] or
    an empty table, the fetch returns [None] after that one query and one
    pause, without asking for the adjusted series; the iteration records
    the instrument with "无数据" and leaves the store alone. *)
Theorem empty_answer_is_no_data (symbol s e : string)
    (df : option (list hist_row)) (w : world) :
  ak (length (requests w)) (mkRequest symbol s e "") = inr df ->
  none_or_empty df = true ->
  fetch_kline_daily ak symbol s e w
  = (Return None, pause REQUEST_DELAY (asked (mkRequest symbol s e "") w))
  /\ forall args st name,
       resolve_start args symbol name w = (Return (Some s), w) ->
       end_date args = e ->
       process_stock ak args st (symbol, name) w
       = (Return (record_failure st (symbol, name, "无数据")),
          with_line (no_data_line symbol name)
            (pause REQUEST_DELAY (asked (mkRequest symbol s e "") w))).
Proof.
  intros Hak Hnone.
  assert (Hfetch : fetch_kline_daily ak symbol s e w
                   = (Return None,
                      pause REQUEST_DELAY
                            (asked (mkRequest symbol s e "") w))).
  { unfold fetch_kline_daily, bind at 1.
    rewrite (retry_default_success _ w df
               (asked (mkRequest symbol s e "") w))
      by now apply stock_zh_a_hist_answer.
    assert (Hf : none_or_empty (flatten_none (Some df)) = true)
      by (destruct df as [[|]|]; cbn in *; congruence).
    now rewrite Hf. }
  split; [exact Hfetch|].
  intros args st name Hstart He. subst e.
  unfold process_stock, try_except, process_stock_try. cbn [fst snd].
  unfold bind at 1. rewrite Hstart. unfold bind at 1. rewrite Hfetch.
  reflexivity.
Qed.

End DegradedFetch.

Section MergeContents.

Lemma drop_duplicates_last_In r rows :
  In r (drop_duplicates_last rows) <-> is_last_with_date r rows.
Proof.
  unfold is_last_with_date.
  induction rows as [|x rest IH]; simpl.
  - split; [tauto|]. intros (before & after & H & _).
    destruct before; discriminate H.
  - fold (has_date (date x) rest).
    destruct (has_date (date x) rest) eqn:E.
    + rewrite IH. split.
      * intros (before & after & -> & Hlast).
        exists (x :: before), after. now split.
      * intros (before & after & H & Hlast).
        destruct before as [|b before]; cbn in H; injection H as -> ->.
        -- congruence.
        -- now exists before, after.
    + simpl. rewrite IH. split.
      * intros [<- | (before & after & -> & Hlast)].
        -- now exists [], rest.
        -- exists (x :: before), after. now split.
      * intros (before & after & H & Hlast).
        destruct before as [|b before]; cbn in H; injection H as -> ->.
        -- now left.
        -- right. now exists before, after.
Qed.

Lemma sort_values_In r rows : In r (sort_values rows) <-> In r rows.
Proof.
  split; apply Permutation_in; [|symmetry]; apply sort_values_perm.
Qed.

Lemma sort_values_sorted rows :
  strictly_increasing (map date rows) -> sort_values rows = rows.
Proof.
  unfold strictly_increasing.
  induction rows as [|r rest IH]; simpl; intros H; [reflexivity|].
  inversion H as [|? ? Hrest Hall]; subst. rewrite (IH Hrest).
  destruct rest as [|h rest]; [reflexivity|]. simpl.
  inversion Hall as [|? ? Hlt _]; subst.
  now rewrite (ts_ltb_leb _ _ Hlt).
Qed.

Lemma strictly_increasing_NoDup dates :
  strictly_increasing dates -> List.NoDup dates.
Proof.
  unfold strictly_increasing.
  induction 1 as [|d rest _ IH Hall]; constructor; [|assumption].
  intros Hin. rewrite List.Forall_forall in Hall.
  specialize (Hall d Hin). now rewrite ts_ltb_irrefl in Hall.
Qed.

Lemma save_to_parquet_overwrite df symbol mode w :
  String.eqb mode "append" = false ->
  save_to_parquet df symbol mode w =
  (Return tt,
   mkWorld (<[kline_path symbol := Parquet df]> (files w))
           (requests w) (stdout w) (slept w)).
Proof.
  intros H. unfold save_to_parquet, bind, os_path_exists. now rewrite H.
Qed.

(** What a save leaves at the symbol's path, by mode and by what was there. *)
Lemma save_to_parquet_cases df symbol mode w w' :
  save_to_parquet df symbol mode w = (Return tt, w') ->
  w' = mkWorld (<[kline_path symbol := Parquet df]> (files w))
               (requests w) (stdout w) (slept w)
  \/ exists existing,
       files w !! kline_path symbol = Some (Parquet existing)
       /\ w' = mkWorld
                 (<[kline_path symbol :=
                      Parquet (sort_values
                                 (drop_duplicates_last (existing ++ df)))]>
                    (files w))
                 (requests w) (stdout w) (slept w).
Proof.
  destruct (String.eqb mode "append") eqn:Em.
  - apply String.eqb_eq in Em. subst mode.
    destruct (files w !! kline_path symbol) as [[existing|]|] eqn:H.
    + rewrite (save_to_parquet_append_existing df symbol w existing H).
      intros [= <-]. right. now exists existing.
    + rewrite (save_to_parquet_append_corrupt df symbol w H). intros [=].
    + rewrite (save_to_parquet_no_file df symbol "append" w H).
      intros [= <-]. now left.
  - rewrite (save_to_parquet_overwrite df symbol mode w Em).
    intros [= <-]. now left.
Qed.

(** X10.  Newest wins.  Appending to a persisted table keeps, of the rows of the
    old table followed by the new one, exactly those that no later row of
    the same date follows: a new row replaces an old row of its date, and of
    several new rows of one date the last one stays. *)
Theorem append_newest_wins (df existing : list bar) (symbol : string)
    (w : world) :
  files w !! kline_path symbol = Some (Parquet existing) ->
  exists merged,
    files (snd (save_to_parquet df symbol "append" w)) !! kline_path symbol
    = Some (Parquet merged)
    /\ forall r, In r merged <-> is_last_with_date r (existing ++ df).
Proof.
  intros H. rewrite (save_to_parquet_append_existing df symbol w existing H).
  eexists. split; [apply lookup_kline_insert|].
  intros r. now rewrite sort_values_In, drop_duplicates_last_In.
Qed.

(** X11.  Plain append.  When the old table followed by the new one already has
    strictly increasing dates (the new rows are later than the old ones, as
    after an incremental fetch), append mode persists the concatenation. *)
Theorem append_in_order_concatenates (df existing : list bar)
    (symbol : string) (w : world) :
  files w !! kline_path symbol = Some (Parquet existing) ->
  strictly_increasing (map date (existing ++ df)) ->
  save_to_parquet df symbol "append" w =
  (Return tt,
   mkWorld (<[kline_path symbol := Parquet (existing ++ df)]> (files w))
           (requests w) (stdout w) (slept w)).
Proof.
  intros H Hinc.
  rewrite (save_to_parquet_append_existing df symbol w existing H).
  rewrite (drop_duplicates_last_id (existing ++ df))
    by now apply strictly_increasing_NoDup.
  now rewrite (sort_values_sorted _ Hinc).
Qed.

(** X12.  Save, then look up.  After a save of a table with rows that returned,
    in either mode, [check_existing_data] on the same symbol returns the
    text of a date that is no earlier than any date just saved, and that
    is a date of the new table or of the table that was there; it leaves
    the world as it is. *)
Theorem saved_table_latest_date (df : list bar) (symbol mode : string)
    (w w' : world) :
  df <> [] ->
  save_to_parquet df symbol mode w = (Return tt, w') ->
  exists D,
    check_existing_data symbol w' = (Return (Some (strftime D)), w')
    /\ (forall r, In r df -> ts_leb (date r) D = true)
    /\ (In D (map date df)
        \/ exists existing,
             files w !! kline_path symbol = Some (Parquet existing)
             /\ In D (map date existing)).
Proof.
  intros Hne Hsave.
  assert (Hmax : forall rows,
            files w' !! kline_path symbol = Some (Parquet rows) ->
            rows <> [] ->
            exists D,
              check_existing_data symbol w' = (Return (Some (strftime D)), w')
              /\ In D (map date rows)
              /\ forall r, In r rows -> ts_leb (date r) D = true).
  { intros [|first rest] Hfile Hrows; [congruence|].
    exists (max_date first rest).
    split; [now apply check_existing_data_rows|].
    destruct (fold_ts_max_spec (map date rest) (date first)) as [Hin Hup].
    split; [exact Hin|]. intros r Hr. apply Hup.
    change (date first :: map date rest) with (map date (first :: rest)).
    now apply in_map. }
  destruct (save_to_parquet_cases df symbol mode w w' Hsave)
    as [-> | (existing & Hfile & ->)].
  - destruct (Hmax df) as (D & Hc & Hin & Hup);
      [apply lookup_kline_insert | assumption |].
    exists D. split; [exact Hc|]. split; [exact Hup | now left].
  - set (merged := sort_values (drop_duplicates_last (existing ++ df))).
    assert (Hdates : forall d, In d (map date merged)
                               <-> In d (map date existing)
                                   \/ In d (map date df)).
    { intros d. unfold merged.
      now rewrite sort_values_dates, drop_duplicates_last_dates, map_app,
        in_app_iff. }
    assert (Hm : merged <> []).
    { destruct df as [|r df]; [congruence|]. intros Hnil.
      assert (Hin : In (date r) (map date merged))
        by (apply Hdates; right; now left).
      rewrite Hnil in Hin. destruct Hin. }
    destruct (Hmax merged) as (D & Hc & Hin & Hup);
      [apply lookup_kline_insert | assumption |].
    exists D. split; [exact Hc|]. split.
    + intros r Hr.
      assert (Hd : In (date r) (map date merged))
        by (apply Hdates; right; now apply in_map).
      apply in_map_iff in Hd. destruct Hd as (r' & <- & Hr').
      now apply Hup.
    + apply Hdates in Hin. destruct Hin as [Hin | Hin]; [|now left].
      right. now exists existing.
Qed.

End MergeContents.

Section StoreFrame.

Context (ak : provider).

Lemma length_append a s :
  String.length (a +:+ s) = (String.length a + String.length s)%nat.
Proof.
  induction a as [|c a IH]; [reflexivity|].
  change (S (String.length (a +:+ s))
          = S (String.length a + String.length s)).
  now rewrite IH.
Qed.

Lemma append_inv_tail s a b : a +:+ s = b +:+ s -> a = b.
Proof.
  revert b. induction a as [|c a IH]; intros [|d b]; simpl; intros H.
  - reflexivity.
  - exfalso. apply (f_equal String.length) in H.
    rewrite !length_append in H. cbn in H. lia.
  - exfalso. apply (f_equal String.length) in H.
    rewrite !length_append in H. cbn in H. lia.
  - cbn in H. injection H as -> H. now rewrite (IH b H).
Qed.

Lemma starts_with_slash_append s t :
  s <> "" -> starts_with_slash (s +:+ t) = starts_with_slash s.
Proof. destruct s; [congruence | reflexivity]. Qed.

Lemma os_path_join_kline b :
  os_path_join KLINE_DIR b
  = if starts_with_slash b then b else "data/kline_daily/" +:+ b.
Proof. unfold os_path_join. now destruct (starts_with_slash b). Qed.

Lemma starts_with_slash_head b :
  starts_with_slash b = true -> exists rest, b = String "/" rest.
Proof.
  destruct b as [|c rest]; [discriminate|].
  cbn. destruct c as [[] [] [] [] [] [] [] []]; try discriminate.
  intros _. now exists rest.
Qed.

Lemma kline_path_inj a b : kline_path a = kline_path b -> a = b.
Proof.
  intros Heq. unfold kline_path in Heq.
  rewrite !os_path_join_kline in Heq.
  destruct (starts_with_slash (a +:+ ".parquet")) eqn:Ea,
           (starts_with_slash (b +:+ ".parquet")) eqn:Eb.
  - now apply append_inv_tail in Heq.
  - apply starts_with_slash_head in Ea. destruct Ea as [rest Ea].
    rewrite Ea in Heq. discriminate Heq.
  - apply starts_with_slash_head in Eb. destruct Eb as [rest Eb].
    rewrite Eb in Heq. discriminate Heq.
  - apply append_inv_head in Heq. now apply append_inv_tail in Heq.
Qed.

(** X13.  One file per symbol.  The path of a symbol's table determines the
    symbol: two different symbols are never kept in the same file, also
    when a symbol starts with a slash and so replaces the directory. *)
Theorem kline_path_injective (a b : string) :
  a <> b -> kline_path a <> kline_path b.
Proof. intros Hne Heq. apply Hne. now apply kline_path_inj. Qed.

Lemma resolve_start_files args symbol name w :
  files (snd (resolve_start args symbol name w)) = files w
  /\ requests (snd (resolve_start args symbol name w)) = requests w.
Proof.
  destruct (resolve_start_cases args symbol name w) as [(r & -> & _) | ->];
    split; reflexivity.
Qed.

Lemma merged_not_empty existing df :
  df <> [] -> sort_values (drop_duplicates_last (existing ++ df)) <> [].
Proof.
  destruct df as [|r df]; [congruence|]. intros _ Hnil.
  assert (Hin : In (date r)
                   (map date (sort_values
                                (drop_duplicates_last (existing ++ r :: df))))).
  { rewrite sort_values_dates, drop_duplicates_last_dates, map_app,
      in_app_iff. right. now left. }
  rewrite Hnil in Hin. destruct Hin.
Qed.

(** The store after one iteration. *)
Lemma process_stock_files args st symbol name w :
  exists st' w',
    process_stock ak args st (symbol, name) w = (Return st', w')
    /\ ((st' = count_success st
         /\ (files w' = files w
             \/ exists rows,
                  rows <> []
                  /\ files w' = <[kline_path symbol := Parquet rows]> (files w)))
        \/ (exists text,
              st' = record_failure st (symbol, name, text)
              /\ files w' = files w)).
Proof.
  unfold process_stock, try_except, process_stock_try. cbn [fst snd].
  unfold bind at 1.
  destruct (resolve_start_cases args symbol name w)
    as [(r & -> & Hr) | ->].
  - destruct r as [e|[start|]]; [| |congruence].
    + eexists _, _. split; [reflexivity|]. right. eexists.
      split; reflexivity.
    + unfold bind at 1.
      pose proof (quiet_fetch_kline_daily ak symbol start (end_date args) w)
        as [Hfiles _ _].
      destruct (fetch_kline_daily ak symbol start (end_date args) w)
        as [[e|df] w2] eqn:Efetch; cbn [snd] in Hfiles.
      * eexists _, _. split; [reflexivity|]. right. eexists.
        split; [reflexivity | exact Hfiles].
      * destruct (none_or_empty df) eqn:Enone.
        -- eexists _, _. split; [reflexivity|]. right. eexists.
           split; [reflexivity | exact Hfiles].
        -- destruct df as [[|first rest]|]; try discriminate Enone.
           change (default [] (Some (first :: rest))) with (first :: rest).
           unfold bind at 1.
           destruct (save_to_parquet (first :: rest) symbol
                       (if update args then "append" else "overwrite") w2)
             as [[e|[]] w3] eqn:Esave.
           ++ eexists _, _. split; [reflexivity|]. right. eexists.
              split; [reflexivity|]. cbn [with_line files].
              destruct (update args).
              ** destruct (files w2 !! kline_path symbol)
                   as [[existing|]|] eqn:Hf.
                 --- rewrite (save_to_parquet_append_existing _ _ _ _ Hf)
                       in Esave. discriminate Esave.
                 --- rewrite (save_to_parquet_append_corrupt _ _ _ Hf)
                       in Esave. injection Esave as _ <-. exact Hfiles.
                 --- rewrite (save_to_parquet_no_file _ _ _ _ Hf) in Esave.
                     discriminate Esave.
              ** rewrite save_to_parquet_overwrite in Esave by reflexivity.
                 discriminate Esave.
           ++ eexists _, _. split; [reflexivity|]. left.
              split; [reflexivity|]. right. cbn [with_line files].
              destruct (save_to_parquet_cases _ _ _ _ _ Esave)
                as [-> | (existing & _ & ->)]; cbn [files]; rewrite Hfiles.
              ** eexists. split; [|reflexivity]. discriminate.
              ** eexists. split; [|reflexivity].
                 apply merged_not_empty. discriminate.
  - eexists _, _. split; [reflexivity|]. left. split; [reflexivity|].
    now left.
Qed.

(** X14.  The store changes on a success only.  An iteration that records its
    instrument as failed leaves every file as it was; one that counts a
    success either leaves every file as it was (the instrument was
    skipped) or writes a table with at least one row at the path of its
    symbol, and nothing else. *)
Theorem store_changes_on_success_only (args : Args) (st : stats)
    (symbol name : string) (w : world) :
  exists st' w',
    process_stock ak args st (symbol, name) w = (Return st', w')
    /\ ((st' = count_success st
         /\ (files w' = files w
             \/ exists rows,
                  rows <> []
                  /\ files w' = <[kline_path symbol := Parquet rows]> (files w)))
        \/ (exists text,
              st' = record_failure st (symbol, name, text)
              /\ files w' = files w)).
Proof. apply process_stock_files. Qed.

Lemma process_stock_other_path args st row w path :
  path <> kline_path (fst row) ->
  files (snd (process_stock ak args st row w)) !! path = files w !! path.
Proof.
  intros Hne. destruct row as [symbol name]. cbn [fst] in Hne.
  destruct (process_stock_files args st symbol name w)
    as (st' & w' & Hrun & [[_ [Hf | (rows & _ & Hf)]] | (text & _ & Hf)]);
    rewrite Hrun; cbn [snd]; rewrite Hf; try reflexivity.
  now apply lookup_insert_ne.
Qed.

Lemma main_loop_other_path args stock_list path :
  (forall row, In row stock_list -> path <> kline_path (fst row)) ->
  forall st w,
    files (snd (main_loop ak args stock_list st w)) !! path = files w !! path.
Proof.
  induction stock_list as [|row rest IH]; intros Hne st w; simpl;
    [reflexivity|].
  unfold bind.
  pose proof (process_stock_other_path args st row w path
                (Hne row (or_introl eq_refl))) as Hrow.
  destruct (process_stock_files args st (fst row) (snd row) w)
    as (st1 & w1 & Hrun & _).
  rewrite <- surjective_pairing in Hrun. rewrite Hrun in *. cbn [snd] in Hrow.
  rewrite IH by (intros r Hr; apply Hne; now right). exact Hrow.
Qed.

(** X15.  Instruments outside the list.  A run of the loop leaves the file of
    every symbol that is not in its list as it was: present or absent,
    readable or not. *)
Theorem main_loop_leaves_other_symbols (args : Args)
    (stock_list : list (string * string)) (st : stats) (w : world)
    (symbol : string) :
  ~ In symbol (map fst stock_list) ->
  files (snd (main_loop ak args stock_list st w)) !! kline_path symbol
  = files w !! kline_path symbol.
Proof.
  intros Hout. apply main_loop_other_path. intros row Hrow.
  intros Heq. apply kline_path_inj in Heq. subst symbol.
  apply Hout. now apply in_map.
Qed.

(** X16.  An unreadable file.  In incremental mode an instrument whose file
    cannot be read is recorded as failed at every run, whatever the
    provider answers, and the file stays as it is; in full mode a fetch
    with rows replaces the file with the table fetched. *)
Theorem unreadable_file_by_mode (st : stats) (symbol name : string)
    (w : world) :
  files w !! kline_path symbol = Some Corrupt ->
  (forall args,
     update args = true ->
     exists text w',
       process_stock ak args st (symbol, name) w
       = (Return (record_failure st (symbol, name, text)), w')
       /\ files w' = files w)
  /\ (forall args,
        update args = false ->
        forall df w2,
          fetch_kline_daily ak symbol (start_date args) (end_date args) w
          = (Return (Some df), w2) ->
          df <> [] ->
          fst (process_stock ak args st (symbol, name) w)
          = Return (count_success st)
          /\ files (snd (process_stock ak args st (symbol, name) w))
               !! kline_path symbol
             = Some (Parquet df)).
Proof.
  intros Hfile. split; intros args Hu.
  - unfold process_stock, try_except, process_stock_try. cbn [fst snd].
    unfold bind at 1.
    rewrite (resolve_start_no_prior_data args symbol name w Hu)
      by (right; now left).
    unfold bind at 1.
    pose proof (quiet_fetch_kline_daily ak symbol (start_date args)
                  (end_date args) w) as [Hfiles _ _].
    destruct (fetch_kline_daily ak symbol (start_date args) (end_date args) w)
      as [[e|df] w2]; cbn [snd] in Hfiles.
    + eexists _, _. split; [reflexivity | exact Hfiles].
    + destruct (none_or_empty df).
      * eexists _, _. split; [reflexivity | exact Hfiles].
      * rewrite Hu. unfold bind at 1.
        rewrite save_to_parquet_append_corrupt by now rewrite Hfiles.
        eexists _, _. split; [reflexivity | exact Hfiles].
  - intros df w2 Hfetch Hne.
    assert (Hrun : process_stock ak args st (symbol, name) w
                   = (Return (count_success st),
                      with_line (success_line symbol name (length df))
                        (mkWorld (<[kline_path symbol := Parquet df]> (files w2))
                                 (requests w2) (stdout w2) (slept w2)))).
    { unfold process_stock, try_except, process_stock_try. cbn [fst snd].
      unfold resolve_start. rewrite Hu. unfold bind at 1. cbn [ret].
      unfold bind at 1. rewrite Hfetch.
      assert (Hn : none_or_empty (Some df) = false)
        by (destruct df; [congruence | reflexivity]).
      rewrite Hn. change (default [] (Some df)) with df.
      unfold bind at 1.
      rewrite save_to_parquet_overwrite by reflexivity.
      reflexivity. }
    rewrite Hrun. split; [reflexivity | apply lookup_insert_eq].
Qed.

End StoreFrame.

Section ListingOrder.

Context (ak : provider).

Lemma prefix_append p x : String.prefix p (p +:+ x) = true.
Proof.
  induction p as [|c p IH]; [now destruct x|].
  change (String c p +:+ x) with (String c (p +:+ x)).
  cbn [String.prefix]. destruct (ascii_dec c c); [exact IH | congruence].
Qed.

Lemma outcome_line_prefix args symbol name w line :
  success_with_rows ak args symbol name w line
  \/ skipped_outcome symbol name line
  \/ line = no_data_line symbol name
  \/ (exists text, line = failed_line symbol name text) ->
  String.prefix (line_prefix symbol name) line = true.
Proof.
  intros [(start & df & w2 & _ & _ & ->) | [-> | [-> | [text ->]]]];
    apply prefix_append.
Qed.

(** X17.  Outcome lines follow the listing.  The lines of its own that a run of
    the loop prints are, in order, one per instrument of the list, each
    starting with the bracketed symbol and the name of its instrument. *)
Theorem outcome_lines_follow_listing (args : Args)
    (stock_list : list (string * string)) (st : stats) (w : world) :
  exists st' w' printed,
    main_loop ak args stock_list st w = (Return st', w')
    /\ stdout w' = stdout w ++ printed
    /\ Forall2 (fun row line =>
                  String.prefix (line_prefix (fst row) (snd row)) line = true)
               stock_list (outcome_lines printed).
Proof.
  revert st w. induction stock_list as [|[symbol name] rest IH];
    intros st w; simpl.
  - exists st, w, []. rewrite app_nil_r. repeat split. constructor.
  - unfold bind.
    destruct (process_stock_outcome ak args st symbol name w)
      as (st1 & w1 & inner & line & -> & Hout1 & Hind & Hkind).
    destruct (IH st1 w1) as (st' & w' & p2 & -> & Hout2 & Hall).
    exists st', w', ((inner ++ [line]) ++ p2). split; [reflexivity|].
    split; [now rewrite Hout2, Hout1, <- !app_assoc|].
    unfold outcome_lines in *. rewrite !List.filter_app.
    fold (outcome_lines inner). rewrite (outcome_lines_indented inner Hind).
    assert (Hpre : String.prefix (line_prefix symbol name) line = true).
    { apply (outcome_line_prefix args symbol name w).
      destruct Hkind as [[_ [Hs | Hs]] | (text & _ & [[-> _] | ->])];
        eauto 6. }
    assert (Hline : indented line = false).
    { destruct (outcome_lines_not_indented symbol name)
        as (Hskip & Hnone & Hsucc & Hfail).
      destruct Hkind as [[_ [Hs | Hs]] | (text & _ & [[-> _] | ->])].
      - destruct Hs as (start & df & w2 & _ & _ & ->). apply Hsucc.
      - rewrite Hs. apply Hskip.
      - apply Hnone.
      - apply Hfail. }
    cbn [List.filter app]. rewrite Hline. cbn [negb app].
    constructor; assumption.
Qed.

(** X18.  Failures follow the listing.  The entries a run of the loop adds to the
    failures name instruments of the list, in the order of the list, each
    listed instrument at most once per time it is listed; the entries that
    were there before stay in front. *)
Theorem failures_follow_listing (args : Args)
    (stock_list : list (string * string)) (st : stats) (w : world) :
  exists st' w' entries,
    main_loop ak args stock_list st w = (Return st', w')
    /\ failed_stocks st' = failed_stocks st ++ entries
    /\ sublist (map entry_row entries) stock_list.
Proof.
  revert st w. induction stock_list as [|[symbol name] rest IH];
    intros st w; simpl.
  - exists st, w, []. rewrite app_nil_r. repeat split. constructor.
  - unfold bind.
    destruct (process_stock_outcome ak args st symbol name w)
      as (st1 & w1 & inner & line & -> & _ & _ & Hkind).
    destruct (IH st1 w1) as (st' & w' & entries & -> & Hfail & Hsub).
    destruct Hkind as [[-> _] | (text & -> & _)].
    + exists st', w', entries. split; [reflexivity|].
      split; [exact Hfail | now constructor].
    + exists st', w', ((symbol, name, text) :: entries).
      split; [reflexivity|]. split.
      * rewrite Hfail. cbn [record_failure failed_stocks].
        now rewrite <- app_assoc.
      * cbn [map entry_row fst]. now constructor.
Qed.

End ListingOrder.

Section RequestBudget.

Context (ak : provider).

Lemma asks_refl P w : asks P 0 w w.
Proof.
  exists []. rewrite app_nil_r. split; [reflexivity|].
  split; [cbn; lia | constructor].
Qed.

Lemma asks_weaken P n n' w w' :
  (n <= n')%nat -> asks P n w w' -> asks P n' w w'.
Proof.
  intros Hn (more & Hreq & Hlen & HP). exists more.
  split; [assumption|]. split; [lia | assumption].
Qed.

Lemma asks_trans P n1 n2 w1 w2 w3 :
  asks P n1 w1 w2 -> asks P n2 w2 w3 -> asks P (n1 + n2) w1 w3.
Proof.
  intros (m1 & H1 & L1 & P1) (m2 & H2 & L2 & P2).
  exists (m1 ++ m2). split; [now rewrite H2, H1, <- app_assoc|].
  split; [rewrite length_app; lia | now apply List.Forall_app].
Qed.

Lemma asks_same P n w w' : requests w' = requests w -> asks P n w w'.
Proof.
  intros H. exists []. rewrite app_nil_r. split; [assumption|].
  split; [cbn; lia | constructor].
Qed.

Lemma asking_ret {A} P (a : A) : asking P 0 (ret a).
Proof. intros w. apply asks_refl. Qed.

Lemma asking_raise {A} P e : asking P 0 (@raise A e).
Proof. intros w. apply asks_refl. Qed.

Lemma asking_lift_sum {A} P (r : exn + A) : asking P 0 (lift_sum r).
Proof. destruct r; [apply asking_raise | apply asking_ret]. Qed.

Lemma asking_print P line : asking P 0 (print line).
Proof. intros w. now apply asks_same. Qed.

Lemma asking_time_sleep P secs : asking P 0 (time_sleep secs).
Proof.
  intros w. apply asks_same. unfold time_sleep.
  now destruct (Qle_bool 0 secs).
Qed.

Lemma asking_weaken {A} P n n' (m : M A) :
  (n <= n')%nat -> asking P n m -> asking P n' m.
Proof. intros Hn Hm w. eapply asks_weaken; [exact Hn | apply Hm]. Qed.

Lemma asking_bind {A B} P n1 n2 (m : M A) (k : A -> M B) :
  asking P n1 m -> (forall a, asking P n2 (k a)) ->
  asking P (n1 + n2) (bind m k).
Proof.
  intros Hm Hk w. unfold bind. specialize (Hm w).
  destruct (m w) as [[e|a] w1]; cbn [snd] in *.
  - eapply asks_weaken; [|exact Hm]. lia.
  - eapply asks_trans; [exact Hm | apply Hk].
Qed.

Lemma asking_try_except {A} P n1 n2 (body : M A) (handler : exn -> M A) :
  asking P n1 body -> (forall e, asking P n2 (handler e)) ->
  asking P (n1 + n2) (try_except body handler).
Proof.
  intros Hb Hh w. unfold try_except. specialize (Hb w).
  destruct (body w) as [[e|a] w1]; cbn [snd] in *.
  - eapply asks_trans; [exact Hb | apply Hh].
  - eapply asks_weaken; [|exact Hb]. lia.
Qed.

Lemma asking_retry_attempts {A} P n (func : M A) max_retries delay range :
  asking P n func ->
  asking P (length range * n) (retry_attempts func max_retries delay range).
Proof.
  intros Hf. induction range as [|attempt range IH]; cbn [retry_attempts].
  - apply asking_ret.
  - change (length (attempt :: range) * n)%nat
      with (n + length range * n)%nat.
    apply asking_try_except.
    + replace n with (n + (0 + 0))%nat by lia.
      apply asking_bind; [exact Hf|]. intros r.
      apply asking_bind; [apply asking_time_sleep|]. intros _.
      apply asking_ret.
    + intros e. destruct (attempt =? max_retries - 1)%nat.
      * eapply asking_weaken; [|apply asking_raise]. lia.
      * change (length range * n)%nat with (0 + (0 + length range * n))%nat.
        apply asking_bind; [apply asking_print|]. intros _.
        apply asking_bind; [apply asking_time_sleep|]. intros _.
        exact IH.
Qed.

Lemma asking_stock_zh_a_hist (P : request -> Prop) symbol s e adjust :
  P (mkRequest symbol s e adjust) ->
  asking P 1 (stock_zh_a_hist ak symbol s e adjust).
Proof.
  intros HP w. exists [mkRequest symbol s e adjust].
  unfold stock_zh_a_hist.
  destruct (ak _ _); cbn [snd requests];
    (split; [reflexivity|]); (split; [cbn; lia|]); now constructor.
Qed.

Lemma asking_fetch_adj_factor symbol s e :
  asking (query_of symbol s e) 6 (fetch_adj_factor ak symbol s e).
Proof.
  unfold fetch_adj_factor.
  change 6%nat with (length [0; 1; 2]%nat * 2 + 0)%nat.
  apply asking_bind; [|intros; apply asking_ret].
  apply asking_retry_attempts. unfold fetch_adj_factor_inner.
  change 2%nat with (1 + (1 + 0))%nat.
  apply asking_bind; [apply asking_stock_zh_a_hist; now right|].
  intros df_qfq.
  apply asking_bind; [apply asking_stock_zh_a_hist; now left|].
  intros df_raw.
  destruct (none_or_empty df_qfq || none_or_empty df_raw);
    [apply asking_ret|].
  change 0%nat with (0 + (0 + 0))%nat.
  apply asking_bind; [apply asking_lift_sum|]. intros factors.
  apply asking_bind; [apply asking_lift_sum|]. intros df_adj.
  apply asking_ret.
Qed.

Lemma asking_fetch_kline_daily symbol s e :
  asking (query_of symbol s e) 9 (fetch_kline_daily ak symbol s e).
Proof.
  unfold fetch_kline_daily.
  change 9%nat with (length [0; 1; 2]%nat * 1 + 6)%nat.
  apply asking_bind.
  { apply asking_retry_attempts, asking_stock_zh_a_hist. now left. }
  intros df_kline.
  destruct (none_or_empty (flatten_none df_kline)).
  { eapply asking_weaken; [|apply asking_ret]. lia. }
  change 6%nat with (6 + (0 + 0))%nat.
  apply asking_bind; [apply asking_fetch_adj_factor|]. intros df_adj.
  apply asking_bind; [|intros; apply asking_ret].
  destruct (none_or_empty df_adj); [|apply asking_ret].
  change 0%nat with (0 + 0)%nat.
  apply asking_bind; [apply asking_print|]. intros _. apply asking_ret.
Qed.

Lemma process_stock_asks args st symbol name w :
  exists start,
    asks (query_of symbol start (end_date args)) 9 w
         (snd (process_stock ak args st (symbol, name) w)).
Proof.
  unfold process_stock, try_except, process_stock_try. cbn [fst snd].
  unfold bind at 1.
  destruct (resolve_start_cases args symbol name w)
    as [(r & -> & Hr) | ->].
  - destruct r as [e|[start|]]; [| |congruence].
    + exists "". now apply asks_same.
    + exists start. unfold bind at 1.
      pose proof (asking_fetch_kline_daily symbol start (end_date args) w)
        as Hfetch.
      destruct (fetch_kline_daily ak symbol start (end_date args) w)
        as [[e|df] w2]; cbn [snd] in Hfetch.
      * destruct Hfetch as (more & Hreq & Hlen & HP). now exists more.
      * destruct (none_or_empty df).
        -- destruct Hfetch as (more & Hreq & Hlen & HP). now exists more.
        -- unfold bind at 1.
           pose proof (save_to_parquet_stdout (default [] df) symbol
                         (if update args then "append" else "overwrite") w2)
             as [_ Hsave].
           destruct (save_to_parquet _ _ _ w2) as [[e|[]] w3];
             cbn [snd] in Hsave;
             destruct Hfetch as (more & Hreq & Hlen & HP); exists more;
             cbn [snd bind print ret with_line requests];
             rewrite Hsave; now split.
  - exists "". now apply asks_same.
Qed.

(** X19.  Queries of one iteration.  For an instrument the loop sends at most
    nine queries to the provider; all of them are for its symbol, for the
    same start date and for the requested end date, unadjusted or forward
    adjusted. *)
Theorem process_stock_request_budget (args : Args) (st : stats)
    (symbol name : string) (w : world) :
  exists start,
    asks (query_of symbol start (end_date args)) 9 w
         (snd (process_stock ak args st (symbol, name) w)).
Proof. apply process_stock_asks. Qed.

Lemma main_loop_asks args stock_list st w :
  asks (fun rq => In (rq_symbol rq) (map fst stock_list)
                  /\ rq_end rq = end_date args)
       (9 * length stock_list) w
       (snd (main_loop ak args stock_list st w)).
Proof.
  revert st w. induction stock_list as [|[symbol name] rest IH];
    intros st w.
  - apply asks_refl.
  - cbn [main_loop]. unfold bind.
    destruct (process_stock_asks args st symbol name w)
      as (start & more & Hreq & Hlen & HP).
    destruct (process_stock_outcome ak args st symbol name w)
      as (st1 & w1 & _ & _ & Hrun & _).
    rewrite Hrun in *. cbn [snd] in Hreq.
    destruct (IH st1 w1) as (more' & Hreq' & Hlen' & HP').
    exists (more ++ more'). split; [now rewrite Hreq', Hreq, <- app_assoc|].
    split; [rewrite length_app; cbn [length]; lia|].
    apply List.Forall_app. split.
    + eapply List.Forall_impl; [|exact HP].
      intros rq [-> | ->]; cbn; auto.
    + eapply List.Forall_impl; [|exact HP'].
      intros rq [Hin Hend]. split; [cbn; now right | assumption].
Qed.

(** X20.  Queries of a run.  A run of the loop over [n] instruments sends at most
    [9 * n] queries, all of them for symbols of the list and for the
    requested end date. *)
Theorem main_loop_request_budget (args : Args)
    (stock_list : list (string * string)) (st : stats) (w : world) :
  asks (fun rq => In (rq_symbol rq) (map fst stock_list)
                  /\ rq_end rq = end_date args)
       (9 * length stock_list) w
       (snd (main_loop ak args stock_list st w)).
Proof. apply main_loop_asks. Qed.

End RequestBudget.

Section PauseBudget.

Context (ak : provider).

Lemma pauses_refl n w : pauses n w w.
Proof.
  exists []. rewrite app_nil_r. split; [reflexivity|].
  split; [cbn; lia | constructor].
Qed.

Lemma pauses_same n w w' : slept w' = slept w -> pauses n w w'.
Proof.
  intros H. exists []. rewrite app_nil_r. split; [assumption|].
  split; [cbn; lia | constructor].
Qed.

Lemma pauses_trans n1 n2 w1 w2 w3 :
  pauses n1 w1 w2 -> pauses n2 w2 w3 -> pauses (n1 + n2) w1 w3.
Proof.
  intros (m1 & H1 & L1 & P1) (m2 & H2 & L2 & P2).
  exists (m1 ++ m2). split; [now rewrite H2, H1, <- app_assoc|].
  split; [rewrite length_app; lia | now apply List.Forall_app].
Qed.

Lemma pauses_weaken n n' w w' :
  (n <= n')%nat -> pauses n w w' -> pauses n' w w'.
Proof.
  intros Hn (more & Hreq & Hlen & HP). exists more.
  split; [assumption|]. split; [lia | assumption].
Qed.

Lemma pauses_one w w' secs :
  slept w' = slept w ++ [secs] -> (0 < secs)%Q -> (secs <= 1)%Q ->
  pauses 1 w w'.
Proof.
  intros H H0 H1. exists [secs]. split; [assumption|].
  split; [cbn; lia | now repeat constructor].
Qed.

Lemma backoff_pauses attempt e w :
  (attempt <= 1)%nat ->
  pauses 1 w (backoff MAX_RETRIES REQUEST_DELAY attempt e w).
Proof.
  intros Ha. eapply pauses_one; [reflexivity | |];
    destruct attempt as [|[|n]]; try lia; unfold Qlt, Qle; cbn; lia.
Qed.

(** The attempts that are left, at the defaults, around an operation that
    does not pause itself: one pause at most for each. *)
Lemma retry_attempts_pauses {A} (func : M A) :
  (forall w, slept (snd (func w)) = slept w) ->
  forall n attempt w,
    (attempt + n = MAX_RETRIES)%nat ->
    pauses n w
      (snd (retry_attempts func MAX_RETRIES REQUEST_DELAY (seq attempt n) w)).
Proof.
  intros Hf. induction n as [|n IH]; intros attempt w Hsum.
  - apply pauses_refl.
  - cbn [seq]. pose proof (Hf w) as Hw.
    destruct (func w) as [[e|r] w1] eqn:Efunc; cbn [snd] in Hw.
    + destruct (Nat.eq_dec attempt (MAX_RETRIES - 1)%nat) as [Hlast | Hmore].
      * rewrite (retry_attempts_last func MAX_RETRIES REQUEST_DELAY attempt
                   _ w e w1 Efunc Hlast).
        now apply pauses_same.
      * rewrite (retry_attempts_again func MAX_RETRIES REQUEST_DELAY attempt
                   _ w e w1 request_delay_nonneg Efunc Hmore).
        change (S n) with (1 + n)%nat.
        eapply pauses_trans; [|apply IH; lia].
        eapply pauses_trans with (n1 := 0%nat) (w2 := w1);
          [now apply pauses_same|].
        apply backoff_pauses. unfold MAX_RETRIES in *. lia.
    + rewrite (retry_attempts_success func MAX_RETRIES REQUEST_DELAY attempt
                 _ w r w1 request_delay_nonneg Efunc).
      eapply pauses_weaken with (n := 1%nat); [lia|].
      eapply pauses_one; [cbn; now rewrite Hw | reflexivity |].
      unfold Qle. cbn. lia.
Qed.

Lemma retry_default_pauses {A} (func : M A) w :
  (forall w, slept (snd (func w)) = slept w) ->
  pauses 3 w (snd (retry_on_error_default func w)).
Proof.
  intros Hf. apply (retry_attempts_pauses func Hf 3 0 w). reflexivity.
Qed.

Lemma stock_zh_a_hist_slept symbol s e adjust w :
  slept (snd (stock_zh_a_hist ak symbol s e adjust w)) = slept w.
Proof. unfold stock_zh_a_hist. now destruct (ak _ _). Qed.

Lemma fetch_adj_factor_inner_slept symbol s e w :
  slept (snd (fetch_adj_factor_inner ak symbol s e w)) = slept w.
Proof.
  unfold fetch_adj_factor_inner, bind.
  pose proof (stock_zh_a_hist_slept symbol s e "qfq" w) as H1.
  destruct (stock_zh_a_hist ak symbol s e "qfq" w) as [[e1|df_qfq] w1];
    cbn [snd] in *; [exact H1|].
  pose proof (stock_zh_a_hist_slept symbol s e "" w1) as H2.
  destruct (stock_zh_a_hist ak symbol s e "" w1) as [[e2|df_raw] w2];
    cbn [snd] in *; [congruence|].
  destruct (none_or_empty df_qfq || none_or_empty df_raw);
    [cbn; congruence|].
  destruct (numpy_divide _ _) as [e3|factors]; [cbn; congruence|].
  cbn [lift_sum ret].
  destruct (adj_DataFrame _ _) as [e4|df_adj]; cbn; congruence.
Qed.

Lemma fetch_kline_daily_pauses symbol s e w :
  pauses 6 w (snd (fetch_kline_daily ak symbol s e w)).
Proof.
  unfold fetch_kline_daily, bind at 1.
  pose proof (retry_default_pauses (stock_zh_a_hist ak symbol s e "") w
                (stock_zh_a_hist_slept symbol s e "")) as Hraw.
  destruct (retry_on_error_default (stock_zh_a_hist ak symbol s e "") w)
    as [[e1|df_kline] w1]; cbn [snd] in Hraw.
  { eapply pauses_weaken; [|exact Hraw]. lia. }
  destruct (none_or_empty (flatten_none df_kline)).
  { eapply pauses_weaken; [|exact Hraw]. lia. }
  change 6%nat with (3 + 3)%nat. eapply pauses_trans; [exact Hraw|].
  unfold bind at 1, fetch_adj_factor, bind at 1.
  pose proof (retry_default_pauses (fetch_adj_factor_inner ak symbol s e) w1
                (fetch_adj_factor_inner_slept symbol s e)) as Hadj.
  destruct (retry_on_error_default (fetch_adj_factor_inner ak symbol s e) w1)
    as [[e2|df_adj] w2]; cbn [snd] in Hadj; [exact Hadj|].
  cbn [ret]. destruct (none_or_empty (flatten_none df_adj)); exact Hadj.
Qed.

Lemma save_to_parquet_slept df symbol mode w :
  slept (snd (save_to_parquet df symbol mode w)) = slept w.
Proof.
  unfold save_to_parquet, bind, os_path_exists, read_parquet, to_parquet.
  destruct (String.eqb mode "append" && bool_decide _); simpl; [|auto].
  destruct (files w !! kline_path symbol) as [[rows|]|]; simpl; auto.
Qed.

Lemma process_stock_pauses args st row w :
  pauses 6 w (snd (process_stock ak args st row w)).
Proof.
  destruct row as [symbol name].
  unfold process_stock, try_except, process_stock_try. cbn [fst snd].
  unfold bind at 1.
  destruct (resolve_start_cases args symbol name w)
    as [(r & -> & Hr) | ->].
  - destruct r as [e|[start|]]; [| |congruence].
    + now apply pauses_same.
    + unfold bind at 1.
      pose proof (fetch_kline_daily_pauses symbol start (end_date args) w)
        as Hfetch.
      destruct (fetch_kline_daily ak symbol start (end_date args) w)
        as [[e|df] w2]; cbn [snd] in Hfetch.
      * destruct Hfetch as (more & Hs & Hlen & HP). now exists more.
      * destruct (none_or_empty df).
        -- destruct Hfetch as (more & Hs & Hlen & HP). now exists more.
        -- unfold bind at 1.
           pose proof (save_to_parquet_slept (default [] df) symbol
                         (if update args then "append" else "overwrite") w2)
             as Hsave.
           destruct (save_to_parquet _ _ _ w2) as [[e|[]] w3];
             cbn [snd] in Hsave;
             destruct Hfetch as (more & Hs & Hlen & HP); exists more;
             cbn [snd bind print ret with_line slept];
             rewrite Hsave; now split.
  - now apply pauses_same.
Qed.

(** X21.  Pauses of a run.  A run of the loop over [n] instruments pauses at most
    [6 * n] times (for an instrument: at most three times around the raw
    query, then at most three times around the resolver), each time for
    more than no time and for one second at most. *)
Theorem main_loop_pause_budget (args : Args)
    (stock_list : list (string * string)) (st : stats) (w : world) :
  pauses (6 * length stock_list) w
         (snd (main_loop ak args stock_list st w)).
Proof.
  revert st w. induction stock_list as [|row rest IH]; intros st w.
  - apply pauses_refl.
  - cbn [main_loop]. unfold bind.
    pose proof (process_stock_pauses args st row w) as Hrow.
    destruct (process_stock_counts ak args st row w)
      as (st1 & w1 & Hrun & _).
    rewrite Hrun in *. cbn [snd] in Hrow.
    replace (6 * length (row :: rest))%nat
      with (6 + 6 * length rest)%nat by (cbn [length]; lia).
    eapply pauses_trans; [exact Hrow | apply IH].
Qed.

End PauseBudget.

Section RetryEdges.

Lemma time_sleep_negative secs w :
  (secs < 0)%Q ->
  time_sleep secs w
  = (Raise (ValueError "sleep length must be non-negative"), w).
Proof.
  intros H. unfold time_sleep.
  destruct (Qle_bool 0 secs) eqn:E; [|reflexivity].
  apply Qle_bool_iff in E. now apply Qle_not_lt in E.
Qed.

Lemma first_backoff_negative delay :
  (delay < 0)%Q -> (delay * inject_Z (Z.of_nat (0 + 1)) < 0)%Q.
Proof.
  intros H. change (inject_Z (Z.of_nat (0 + 1))) with 1%Q.
  now rewrite Qmult_1_r.
Qed.

(** X22.  Outside the contract.  With a maximum of zero attempts the wrapper
    returns [None] without calling the operation.  With a negative delay a
    call that succeeds is not returned: the pause after it raises a
    [ValueError], which the wrapper treats as a failed attempt; it raises
    that error after this one call, the effects of the call being kept,
    without having slept. *)
Theorem retry_on_error_outside_contract {A} (func : M A) (delay : Q)
    (w : world) :
  retry_on_error func 0 delay w = (Return None, w)
  /\ forall max_retries r w1,
       (1 <= max_retries)%nat -> (delay < 0)%Q ->
       func w = (Return r, w1) ->
       exists w',
         retry_on_error func max_retries delay w
         = (Raise (ValueError "sleep length must be non-negative"), w')
         /\ files w' = files w1
         /\ requests w' = requests w1
         /\ slept w' = slept w1.
Proof.
  split; [reflexivity|].
  intros max_retries r w1 Hmax Hneg Hf.
  unfold retry_on_error.
  destruct max_retries as [|n]; [lia|]. cbn [seq retry_attempts].
  unfold try_except, bind at 1. rewrite Hf.
  unfold bind at 1.
  rewrite (time_sleep_negative delay w1 Hneg).
  destruct (0 =? S n - 1)%nat.
  - exists w1. repeat split.
  - unfold bind at 1, print. unfold bind at 1.
    rewrite time_sleep_negative by now apply first_backoff_negative.
    eexists. split; [reflexivity|]. repeat split.
Qed.

End RetryEdges.

Section ValidatorTrace.


End ValidatorTrace.

Section Report.

Context (ak : provider).

Lemma report_lines_length total_stocks st :
  (length (report_lines total_stocks st)
   = 10 + (match failed_stocks st with
           | [] => 0
           | _ :: _ =>
               1 + Nat.min 10 (length (failed_stocks st))
               + (if (10 <? length (failed_stocks st)) then 1 else 0)
           end))%nat.
Proof.
  unfold report_lines.
  destruct (failed_stocks st) as [|entry rest] eqn:E; [reflexivity|].
  rewrite !length_app, length_map, length_firstn.
  destruct (10 <? length (entry :: rest))%nat; cbn [length]; lia.
Qed.

Lemma print_all_world lines w :
  print_all lines w
  = (Return tt,
     mkWorld (files w) (requests w) (stdout w ++ lines) (slept w)).
Proof.
  revert w. induction lines as [|line rest IH]; intros w; simpl.
  - unfold ret. rewrite app_nil_r. now destruct w.
  - unfold bind, print. rewrite IH. cbn [with_line files requests stdout slept].
    now rewrite <- app_assoc.
Qed.

(** X24.  The report.  After the loop, [main] only prints: the counters, the
    store, the queries and the pauses are those the loop left.  What it
    prints is a report of ten lines when nothing failed and otherwise of
    a heading, one line for each of the first ten failures and, when there
    are more than ten, one line that counts the rest: never more than
    twenty-two lines, however many instruments failed. *)
Theorem report_is_bounded (args : Args)
    (stock_list : list (string * string)) (w : world) :
  exists st w1 report,
    main_loop ak args stock_list (mkStats 0 []) w = (Return st, w1)
    /\ main_run ak args stock_list w
       = (Return st,
          mkWorld (files w1) (requests w1) (stdout w1 ++ report) (slept w1))
    /\ (length report <= 22)%nat
    /\ (failed_stocks st = [] -> length report = 10%nat)
    /\ firstn (Nat.min 10 (length (failed_stocks st))) (skipn 7 report)
       = map failure_entry_line (firstn 10 (failed_stocks st)).
Proof.
  destruct (main_loop_counts ak args stock_list (mkStats 0 []) w)
    as (st & w1 & Hloop & _).
  exists st, w1, (report_lines (length stock_list) st).
  split; [exact Hloop|]. split.
  { unfold main_run, bind at 1. rewrite Hloop. unfold bind.
    now rewrite print_all_world. }
  pose proof (report_lines_length (length stock_list) st) as Hlen.
  split; [|split].
  - rewrite Hlen. destruct (failed_stocks st); [lia|].
    destruct (10 <? _)%nat; lia.
  - intros Hnone. rewrite Hlen, Hnone. reflexivity.
  - unfold report_lines.
    destruct (failed_stocks st) as [|entry rest]; [reflexivity|].
    cbn [app skipn].
    rewrite <- (length_firstn 10 (entry :: rest)).
    rewrite <- (length_map failure_entry_line).
    rewrite skipn_O.
    now rewrite <- app_assoc, firstn_app, Nat.sub_diag, firstn_all,
      firstn_O, app_nil_r.
Qed.

End Report.

Section Limit.

Context (ak : provider).

Lemma DataFrame_head_prefix {A} n (rows : list A) :
  exists rest, rows = DataFrame_head n rows ++ rest.
Proof.
  unfold DataFrame_head. destruct (0 <=? n)%Z;
    eexists; symmetry; apply firstn_skipn.
Qed.

(** X25.  The limit.  The list the loop runs over is a front part of the
    universe: its first [n] instruments for a limit [n] above zero, all but
    its last [-n] for a limit below zero, and all of it when no limit or
    the limit 0 is given.  A run over it leaves the file of every symbol
    outside that front part as it was and sends no query for such a
    symbol. *)
Theorem limit_restricts_run (args : Args) (limit : option Z)
    (stock_list : list (string * string)) (st : stats) (w : world) :
  let listed := limit_stock_list limit stock_list in
  (exists rest, stock_list = listed ++ rest)
  /\ (forall n, limit = Some n -> (0 < n)%Z ->
        length listed = Nat.min (Z.to_nat n) (length stock_list))
  /\ (forall n, limit = Some n -> (n < 0)%Z ->
        length listed = (length stock_list - Z.to_nat (- n))%nat)
  /\ (limit = None \/ limit = Some 0%Z -> listed = stock_list)
  /\ forall symbol,
       ~ In symbol (map fst listed) ->
       files (snd (main_loop ak args listed st w)) !! kline_path symbol
       = files w !! kline_path symbol
       /\ forall rq,
            In rq (requests (snd (main_loop ak args listed st w))) ->
            rq_symbol rq = symbol -> In rq (requests w).
Proof.
  intros listed. split; [|split; [|split; [|split]]].
  - subst listed. unfold limit_stock_list.
    destruct limit as [n|]; [|exists []; now rewrite app_nil_r].
    destruct (n =? 0)%Z; [exists []; now rewrite app_nil_r|].
    apply DataFrame_head_prefix.
  - intros n -> Hn. subst listed. unfold limit_stock_list, DataFrame_head.
    rewrite (proj2 (Z.eqb_neq n 0)) by lia.
    rewrite (proj2 (Z.leb_le 0 n)) by lia.
    apply length_firstn.
  - intros n -> Hn. subst listed. unfold limit_stock_list, DataFrame_head.
    rewrite (proj2 (Z.eqb_neq n 0)) by lia.
    rewrite (proj2 (Z.leb_gt 0 n)) by lia.
    rewrite length_firstn. lia.
  - intros [-> | ->]; reflexivity.
  - intros symbol Hout. split.
    + apply main_loop_other_path. intros row Hrow Heq.
      apply kline_path_inj in Heq. subst symbol.
      apply Hout. now apply in_map.
    + intros rq Hin Hsym.
      destruct (main_loop_asks ak args listed st w)
        as (more & Hreq & _ & HP).
      rewrite Hreq in Hin. apply in_app_iff in Hin.
      destruct Hin as [Hin | Hin]; [exact Hin|].
      rewrite List.Forall_forall in HP. destruct (HP rq Hin) as [Hlisted _].
      rewrite Hsym in Hlisted. contradiction.
Qed.

End Limit.

Section FurtherExamples.

Lemma raw_three_dates : List.NoDup (map h_date raw_three).
Proof.
  repeat constructor; cbn; intros H;
    repeat (destruct H as [H | H]; [discriminate H|]); exact H.
Qed.

Lemma answers_steady adjusted raw symbol s e :
  steady (answers adjusted raw) symbol s e (Some adjusted) (Some raw).
Proof. intros k. split; reflexivity. Qed.

Lemma attach_adj_factor_forward_fill_witness :
  exists rest,
    attach_adj_factor "000001"
      ([quote day1 10%float] ++ quote day2 10%float :: [quote day3 12%float])
      [mkAdj day1 (5 / 10)%float; mkAdj day3 (6 / 12)%float]
    = attach_adj_factor "000001" [quote day1 10%float]
        [mkAdj day1 (5 / 10)%float; mkAdj day3 (6 / 12)%float]
      ++ to_bar "000001" (quote day2 10%float)
           (List.last
              (map adj_factor
                 (attach_adj_factor "000001" [quote day1 10%float]
                    [mkAdj day1 (5 / 10)%float; mkAdj day3 (6 / 12)%float]))
              1%float)
         :: rest.
Proof.
  apply (proj1 (attach_adj_factor_forward_fill "000001"
                  [quote day1 10%float] [quote day3 12%float]
                  (quote day2 10%float)
                  [mkAdj day1 (5 / 10)%float; mkAdj day3 (6 / 12)%float])).
  reflexivity.
Defined.

Lemma merge_keeps_aligned_factors_witness :
  attach_adj_factor "000001" raw_three
    (zip_with mkAdj (map h_date raw_three)
       [(5 / 10)%float; nan; (6 / 12)%float])
  = zip_with (to_bar "000001") raw_three
      (fillna 1%float (ffill [(5 / 10)%float; nan; (6 / 12)%float])).
Proof.
  apply (merge_keeps_aligned_factors "000001" raw_three
           [(5 / 10)%float; nan; (6 / 12)%float]).
  - exact raw_three_dates.
  - reflexivity.
Defined.

Lemma fetch_kline_daily_by_position_witness :
  fst (fetch_kline_daily ak_aligned "000001" "20240102" "20240104" world0)
  = Return
      (Some (zip_with (to_bar "000001") raw_three
               (fillna 1%float
                  (ffill (zip_with PrimFloat.div
                            (map h_close [quote day1 5%float;
                                          quote day2 5%float;
                                          quote day3 6%float])
                            (map h_close raw_three)))))).
Proof.
  apply (fetch_kline_daily_by_position ak_aligned "000001" "20240102"
           "20240104"
           [quote day1 5%float; quote day2 5%float; quote day3 6%float]
           raw_three world0).
  - apply answers_steady.
  - discriminate.
  - reflexivity.
  - exact raw_three_dates.
Defined.

Lemma fetch_kline_daily_single_adjusted_row_witness :
  fst (fetch_kline_daily ak_one_adjusted "000001" "20240102" "20240104"
         world0)
  = Return
      (Some (zip_with (to_bar "000001") raw_three
               (fillna 1%float
                  (ffill (map (fun r => (h_close (quote day3 6%float)
                                         / h_close r)%float)
                              raw_three))))).
Proof.
  apply (fetch_kline_daily_single_adjusted_row ak_one_adjusted "000001"
           "20240102" "20240104" (quote day3 6%float) raw_three world0).
  - apply answers_steady.
  - cbn. lia.
  - exact raw_three_dates.
Defined.

Lemma fetch_kline_daily_length_mismatch_witness :
  exists msg,
    fst (fetch_kline_daily ak_gap "000001" "20240102" "20240104" world0)
    = Raise (ValueError msg)
    /\ forall args st name,
         update args = false -> start_date args = "20240102" ->
         end_date args = "20240104" ->
         fst (process_stock ak_gap args st ("000001", name) world0)
         = Return (record_failure st ("000001", name, msg))
         /\ files (snd (process_stock ak_gap args st ("000001", name) world0))
            = files world0.
Proof.
  apply (fetch_kline_daily_length_mismatch ak_gap "000001" "20240102"
           "20240104" [quote day1 5%float; quote day3 6%float] raw_three
           world0).
  - apply answers_steady.
  - discriminate.
  - cbn. lia.
  - cbn. lia.
Defined.

Lemma fetch_kline_daily_default_factor_witness :
  exists rows w',
    fetch_kline_daily ak_no_adjusted "000001" "20240102" "20240104" world0
    = (Return (Some rows), w')
    /\ rows = attach_adj_factor "000001" raw_three
                (map (fun k => mkAdj (h_date k) 1%float) raw_three)
    /\ Forall (fun r => adj_factor r = 1%float) rows
    /\ stdout w'
       = stdout world0 ++ ["  警告: 无法获取复权因子，使用默认值1.0"]
    /\ files w' = files world0.
Proof.
  apply (fetch_kline_daily_default_factor ak_no_adjusted "000001" "20240102"
           "20240104" None raw_three world0).
  - intros k. split; reflexivity.
  - discriminate.
  - reflexivity.
Defined.

Lemma adjusted_failure_fails_instrument_witness :
  fst (fetch_kline_daily ak_adjusted_down "000001" "20240102" "20240104"
         world0)
  = Raise (Exn "ConnectionError" "timed out")
  /\ forall args st name,
       resolve_start args "000001" name world0
       = (Return (Some "20240102"), world0) ->
       end_date args = "20240104" ->
       fst (process_stock ak_adjusted_down args st ("000001", name) world0)
       = Return (record_failure st
                   ("000001", name,
                    str_of_exn (Exn "ConnectionError" "timed out")))
       /\ files (snd (process_stock ak_adjusted_down args st
                        ("000001", name) world0))
          = files world0.
Proof.
  apply (adjusted_failure_fails_instrument ak_adjusted_down "000001"
           "20240102" "20240104" (Exn "ConnectionError" "timed out")
           raw_three world0).
  - intros k. split; reflexivity.
  - discriminate.
Defined.

Lemma empty_answer_is_no_data_witness :
  fetch_kline_daily ak_empty "000001" "20240102" "20240104" world0
  = (Return None,
     pause REQUEST_DELAY
       (asked (mkRequest "000001" "20240102" "20240104" "") world0))
  /\ forall args st name,
       resolve_start args "000001" name world0
       = (Return (Some "20240102"), world0) ->
       end_date args = "20240104" ->
       process_stock ak_empty args st ("000001", name) world0
       = (Return (record_failure st ("000001", name, "无数据")),
          with_line (no_data_line "000001" name)
            (pause REQUEST_DELAY
               (asked (mkRequest "000001" "20240102" "20240104" "")
                      world0))).
Proof.
  apply (empty_answer_is_no_data ak_empty "000001" "20240102" "20240104"
           (Some []) world0).
  - reflexivity.
  - reflexivity.
Defined.

Lemma append_newest_wins_witness :
  exists merged,
    files (snd (save_to_parquet [plain_bar day3; plain_bar day2] "000001"
                  "append" world_through_day3))
      !! kline_path "000001"
    = Some (Parquet merged)
    /\ forall r,
         In r merged
         <-> is_last_with_date r
               ([plain_bar day1; plain_bar day3]
                ++ [plain_bar day3; plain_bar day2]).
Proof.
  apply (append_newest_wins [plain_bar day3; plain_bar day2]
           [plain_bar day1; plain_bar day3] "000001" world_through_day3).
  reflexivity.
Defined.

Lemma append_in_order_concatenates_witness :
  save_to_parquet [plain_bar day3] "000001" "append" world_two_days
  = (Return tt,
     mkWorld (<[kline_path "000001" :=
                  Parquet ([plain_bar day1; plain_bar day2]
                           ++ [plain_bar day3])]>
                (files world_two_days))
             (requests world_two_days) (stdout world_two_days)
             (slept world_two_days)).
Proof.
  apply (append_in_order_concatenates [plain_bar day3]
           [plain_bar day1; plain_bar day2] "000001" world_two_days).
  - reflexivity.
  - repeat constructor.
Defined.

Lemma saved_table_latest_date_witness :
  exists D,
    check_existing_data "000001"
      (mkWorld (<[kline_path "000001" :=
                    Parquet [plain_bar day2; plain_bar day1]]> ∅) [] [] [])
    = (Return (Some (strftime D)),
       mkWorld (<[kline_path "000001" :=
                    Parquet [plain_bar day2; plain_bar day1]]> ∅) [] [] [])
    /\ (forall r, In r [plain_bar day2; plain_bar day1] ->
                  ts_leb (date r) D = true)
    /\ (In D (map date [plain_bar day2; plain_bar day1])
        \/ exists existing,
             files world0 !! kline_path "000001" = Some (Parquet existing)
             /\ In D (map date existing)).
Proof.
  apply (saved_table_latest_date [plain_bar day2; plain_bar day1] "000001"
           "overwrite" world0).
  - discriminate.
  - reflexivity.
Defined.

Lemma kline_path_injective_witness :
  kline_path "000001" <> kline_path "000002".
Proof. apply (kline_path_injective "000001" "000002"). discriminate. Defined.

Lemma main_loop_leaves_other_symbols_witness :
  files (snd (main_loop ak_aligned args_update
                [("000002", ""); ("600000", "")] stats0 world_through_day3))
    !! kline_path "000001"
  = files world_through_day3 !! kline_path "000001".
Proof.
  apply (main_loop_leaves_other_symbols ak_aligned args_update
           [("000002", ""); ("600000", "")] stats0 world_through_day3
           "000001").
  cbn. intros [H | [H | H]]; [discriminate H | discriminate H | exact H].
Defined.

Lemma unreadable_file_by_mode_witness :
  (exists text w',
     process_stock ak_aligned args_update stats0 ("000001", "") world_corrupt
     = (Return (record_failure stats0 ("000001", "", text)), w')
     /\ files w' = files world_corrupt)
  /\ (fst (process_stock ak_aligned args_full stats0 ("000001", "")
             world_corrupt)
      = Return (count_success stats0)
      /\ exists df,
           files (snd (process_stock ak_aligned args_full stats0
                         ("000001", "") world_corrupt))
             !! kline_path "000001"
           = Some (Parquet df)
           /\ length df = 3%nat).
Proof.
  split.
  - apply (proj1 (unreadable_file_by_mode ak_aligned stats0 "000001" ""
                    world_corrupt eq_refl) args_update).
    reflexivity.
  - destruct (fetch_kline_daily ak_aligned "000001" "20240102" "20240104"
                world_corrupt) as [[e|[df|]] w2] eqn:Efetch;
      try (vm_compute in Efetch; discriminate Efetch).
    assert (Hlen : length df = 3%nat)
      by (vm_compute in Efetch; now injection Efetch as <- _).
    destruct (proj2 (unreadable_file_by_mode ak_aligned stats0 "000001" ""
                       world_corrupt eq_refl) args_full eq_refl df w2 Efetch)
      as [Hres Hfile].
    + intros ->. discriminate Hlen.
    + split; [exact Hres|]. exists df. now split.
Defined.

Lemma retry_on_error_outside_contract_witness :
  exists w',
    retry_on_error (ret 7%nat) 3 (-1 # 2) world0
    = (Raise (ValueError "sleep length must be non-negative"), w')
    /\ files w' = files world0
    /\ requests w' = requests world0
    /\ slept w' = slept world0.
Proof.
  apply (proj2 (retry_on_error_outside_contract (ret 7%nat) (-1 # 2) world0)
           3%nat 7%nat world0).
  - lia.
  - reflexivity.
  - reflexivity.
Defined.

End FurtherExamples.
